(** * FleetOptima: the CSV-to-Load parser, the time arithmetic and the
      driver aggregation, embedded from [src/utils/csvParser.ts] and
      [src/App.tsx] and verified against the specification.

    Conventions of the embedding.

    - A JavaScript [number] is a value of [JS.number]: [NaN], the two
      infinities, or a finite value carried as a rational.  The operations
      of [JS] are exact on finite values; [Binary64] gives the rounding of
      IEEE-754 doubles to nearest, ties to even, with overflow to the
      infinities, and the operations that round.  The two agree where
      every value met and every result is a double, in particular on the
      integers below 2^53: what depends on the value of a sum, a product
      or a quotient is stated on such inputs, or of the operations of
      [Binary64].  The sign of zero is not represented.
    - A JavaScript string is a [string] whose characters are the code
      units below 256; the white space removed by [trim] is TAB, LF, VT,
      FF, CR, SPACE and NO-BREAK SPACE.
    - [undefined] read from an array position that does not exist is [None].
    - An object used as a dictionary is an association list of its own
      properties in insertion order; reading a key it does not own finds
      the properties of [Object.prototype], whose names are those of
      [JS.inherited].
    - [Array.prototype.sort] is the stable insertion sort driven by the sign
      of the comparator, a result of [NaN] counting as zero: the result
      every conforming engine returns for a consistent comparator.  With a
      comparator that is not consistent the order depends on the engine,
      and nothing is stated of it. *)

From Stdlib Require Import List String Ascii Bool Arith ZArith QArith Qround Qabs
  Qpower.
From Stdlib Require Import Lia Lqa Sorted Permutation DecimalString.
Import ListNotations.

Local Open Scope string_scope.
Local Open Scope Z_scope.

(* ================================================================== *)
(** * The JavaScript values and built-ins the program uses             *)
(* ================================================================== *)

Module JS.

(** ** Numbers *)

Inductive number : Type :=
| NaN : number
| Inf (negative : bool) : number
| Fin (q : Q) : number.

Definition ofZ (z : Z) : number := Fin (inject_Z z).
Definition ofNat (n : nat) : number := ofZ (Z.of_nat n).

Definition isNaN (x : number) : bool :=
  match x with NaN => true | _ => false end.

Definition isZeroQ (q : Q) : bool := Z.eqb (Qnum q) 0.
Definition isNegQ (q : Q) : bool := Z.ltb (Qnum q) 0.
Definition isPosQ (q : Q) : bool := Z.ltb 0 (Qnum q).

(** [ToBoolean] on a number: [NaN] and zero are falsy. *)
Definition truthy (x : number) : bool :=
  match x with
  | NaN => false
  | Inf _ => true
  | Fin q => negb (isZeroQ q)
  end.

(** [x || d] on numbers. *)
Definition orElse (x d : number) : number := if truthy x then x else d.

Definition neg (x : number) : number :=
  match x with
  | NaN => NaN
  | Inf s => Inf (negb s)
  | Fin q => Fin (- q)%Q
  end.

Definition add (x y : number) : number :=
  match x, y with
  | NaN, _ | _, NaN => NaN
  | Inf s, Inf t => if Bool.eqb s t then Inf s else NaN
  | Inf s, Fin _ => Inf s
  | Fin _, Inf t => Inf t
  | Fin a, Fin b => Fin (a + b)%Q
  end.

Definition sub (x y : number) : number := add x (neg y).

Definition mul (x y : number) : number :=
  match x, y with
  | NaN, _ | _, NaN => NaN
  | Inf s, Inf t => Inf (xorb s t)
  | Inf s, Fin q | Fin q, Inf s =>
      if isZeroQ q then NaN else Inf (xorb s (isNegQ q))
  | Fin a, Fin b => Fin (a * b)%Q
  end.

Definition div (x y : number) : number :=
  match x, y with
  | NaN, _ | _, NaN => NaN
  | Inf _, Inf _ => NaN
  | Inf s, Fin q => Inf (xorb s (isNegQ q))
  | Fin _, Inf _ => Fin 0
  | Fin a, Fin b =>
      if isZeroQ b
      then (if isZeroQ a then NaN else Inf (isNegQ a))
      else Fin (a / b)%Q
  end.

(** [x > 0] and [x < 0]; both are false on [NaN]. *)
Definition gt0 (x : number) : bool :=
  match x with
  | NaN => false
  | Inf s => negb s
  | Fin q => isPosQ q
  end.

Definition lt0 (x : number) : bool :=
  match x with
  | NaN => false
  | Inf s => s
  | Fin q => isNegQ q
  end.

(** [Math.abs]. *)
Definition abs (x : number) : number :=
  match x with
  | NaN => NaN
  | Inf _ => Inf false
  | Fin q => Fin (Qabs q)
  end.

(** [Math.round]: the nearest integer, a tie going towards plus infinity. *)
Definition round (x : number) : number :=
  match x with
  | Fin q => ofZ (Qfloor (q + (1 # 2))%Q)
  | _ => x
  end.

(** ** Characters and strings *)

Definition isSpace (c : ascii) : bool :=
  let n := nat_of_ascii c in
  ((9 <=? n) && (n <=? 13))%nat || (n =? 32)%nat || (n =? 160)%nat.

Definition isDigit (c : ascii) : bool :=
  let n := nat_of_ascii c in ((48 <=? n) && (n <=? 57))%nat.

Definition digitVal (c : ascii) : Z := Z.of_nat (nat_of_ascii c) - 48.

(** The value of a character as a digit of radix 16, when it is one. *)
Definition hexVal (c : ascii) : option Z :=
  let n := nat_of_ascii c in
  if ((48 <=? n) && (n <=? 57))%nat then Some (Z.of_nat n - 48)
  else if ((97 <=? n) && (n <=? 102))%nat then Some (Z.of_nat n - 87)
  else if ((65 <=? n) && (n <=? 70))%nat then Some (Z.of_nat n - 55)
  else None.

Definition radixVal (radix : Z) (c : ascii) : option Z :=
  match hexVal c with
  | Some v => if v <? radix then Some v else None
  | None => None
  end.

Fixpoint dropSpaces (s : string) : string :=
  match s with
  | String c s' => if isSpace c then dropSpaces s' else s
  | EmptyString => EmptyString
  end.

(** Removes the white space at the end: a space is kept exactly when
    something other than white space follows it. *)
Fixpoint dropSpacesEnd (s : string) : string :=
  match s with
  | EmptyString => EmptyString
  | String c s' =>
      match dropSpacesEnd s' with
      | EmptyString => if isSpace c then EmptyString else String c EmptyString
      | r => String c r
      end
  end.

(** [String.prototype.trim]. *)
Definition trim (s : string) : string := dropSpacesEnd (dropSpaces s).

(** [String.prototype.split] with a separator of one character. *)
Fixpoint split (sep : ascii) (s : string) : list string :=
  match s with
  | EmptyString => [EmptyString]
  | String c s' =>
      if Ascii.eqb c sep then EmptyString :: split sep s'
      else match split sep s' with
           | w :: ws => String c w :: ws
           | [] => [String c EmptyString]
           end
  end.

(** [ToBoolean] on a string that may be [undefined]. *)
Definition truthyStr (o : option string) : bool :=
  match o with
  | Some s => negb (String.eqb s "")
  | None => false
  end.

(** [o || d] where [o] is a string or [undefined]. *)
Definition orElseStr (o : option string) (d : string) : string :=
  match o with
  | Some s => if String.eqb s "" then d else s
  | None => d
  end.

(** [ToString] on a string that may be [undefined]. *)
Definition toStr (o : option string) : string :=
  match o with
  | Some s => s
  | None => "undefined"
  end.

(** ** Numeric literals *)

(** The longest prefix of decimal digits, read as a number, with how many
    digits were read and what follows them. *)
Fixpoint scanDigits (acc : Z) (count : nat) (s : string) : Z * nat * string :=
  match s with
  | String c s' =>
      if isDigit c then scanDigits (10 * acc + digitVal c) (S count) s'
      else (acc, count, s)
  | EmptyString => (acc, count, s)
  end.

(** The same in radix [radix] (2, 8, 10 or 16). *)
Fixpoint scanRadix (radix acc : Z) (count : nat) (s : string) : Z * nat * string :=
  match s with
  | String c s' =>
      match radixVal radix c with
      | Some v => scanRadix radix (radix * acc + v) (S count) s'
      | None => (acc, count, s)
      end
  | EmptyString => (acc, count, s)
  end.

(** [m * 10^e] as a rational in lowest terms. *)
Definition scale10 (m e : Z) : Q :=
  Qred (if 0 <=? e then inject_Z (m * 10 ^ e)
        else Qmake m (Z.to_pos (10 ^ (- e)))).

(** Removes [p] from the front of [s] when [s] starts with it. *)
Fixpoint stripPrefix (p s : string) : option string :=
  match p, s with
  | EmptyString, _ => Some s
  | String a p', String b s' =>
      if Ascii.eqb a b then stripPrefix p' s' else None
  | String _ _, EmptyString => None
  end.

(** An optional sign: whether it is a minus, and what follows it. *)
Definition scanSign (s : string) : bool * string :=
  match stripPrefix "+" s with
  | Some t => (false, t)
  | None =>
      match stripPrefix "-" s with
      | Some t => (true, t)
      | None => (false, s)
      end
  end.

Definition signed (negative : bool) (q : Q) : Q :=
  if negative then (- q)%Q else q.

(** An optional exponent part: [e] or [E], an optional sign and at least
    one digit.  Without a digit nothing is consumed. *)
Definition scanExponent (s : string) : Z * string :=
  let digits :=
    match stripPrefix "e" s with
    | Some t => Some t
    | None => stripPrefix "E" s
    end in
  match digits with
  | Some t =>
      let '(sg, u) := scanSign t in
      let '(v, n, rest) := scanDigits 0 0 u in
      match n with
      | O => (0, s)
      | S _ => (if sg then - v else v, rest)
      end
  | None => (0, s)
  end.

(** The longest prefix that is an unsigned decimal literal (digits with an
    optional fraction and an optional exponent, or a fraction alone), with
    its value and what follows it. *)
Definition scanDecimal (s : string) : option (Q * string) :=
  let '(ip, ni, r1) := scanDigits 0 0 s in
  match stripPrefix "." r1 with
  | Some r1' =>
      let '(m, nf, r2) := scanDigits ip 0 r1' in
      match ni, nf with
      | O, O => None
      | _, _ =>
          let '(e, r3) := scanExponent r2 in
          Some (scale10 m (e - Z.of_nat nf), r3)
      end
  | None =>
      match ni with
      | O => None
      | S _ =>
          let '(e, r3) := scanExponent r1 in
          Some (scale10 ip e, r3)
      end
  end.

(** A whole string as digits of radix [radix]: at least one digit and
    nothing else. *)
Definition wholeRadix (radix : Z) (s : string) : number :=
  match scanRadix radix 0 0 s with
  | (v, S _, EmptyString) => ofZ v
  | _ => NaN
  end.

(** The radix and the digits of a literal that starts with [0x], [0o] or
    [0b], in either case of the letter. *)
Definition nonDecimalLiteral (t : string) : option (Z * string) :=
  match stripPrefix "0x" t with Some d => Some (16, d) | None =>
  match stripPrefix "0X" t with Some d => Some (16, d) | None =>
  match stripPrefix "0o" t with Some d => Some (8, d) | None =>
  match stripPrefix "0O" t with Some d => Some (8, d) | None =>
  match stripPrefix "0b" t with Some d => Some (2, d) | None =>
  match stripPrefix "0B" t with Some d => Some (2, d) | None =>
  None
  end end end end end end.

(** [Number(s)]: the whole trimmed string must be a numeric literal; the
    empty string is 0. *)
Definition Number (s : string) : number :=
  let t := trim s in
  if String.eqb t "" then ofZ 0
  else
    match nonDecimalLiteral t with
    | Some (radix, digits) => wholeRadix radix digits
    | None =>
        let '(sg, u) := scanSign t in
        if String.eqb u "Infinity" then Inf sg
        else match scanDecimal u with
             | Some (q, EmptyString) => Fin (signed sg q)
             | _ => NaN
             end
    end.

(** [parseFloat(s)]: the longest decimal literal at the front of the
    string, after leading white space. *)
Definition parseFloat (s : string) : number :=
  let '(sg, u) := scanSign (dropSpaces s) in
  match stripPrefix "Infinity" u with
  | Some _ => Inf sg
  | None =>
      match scanDecimal u with
      | Some (q, _) => Fin (signed sg q)
      | None => NaN
      end
  end.

(** [parseInt(s)] without a radix: the longest integer at the front of the
    string, in radix 16 after [0x] or [0X] and in radix 10 otherwise. *)
Definition parseInt (s : string) : number :=
  let '(sg, u) := scanSign (dropSpaces s) in
  let '(radix, digits) :=
    match stripPrefix "0x" u with Some d => (16, d) | None =>
    match stripPrefix "0X" u with Some d => (16, d) | None =>
    (10, u)
    end end in
  match scanRadix radix 0 0 digits with
  | (_, O, _) => NaN
  | (v, S _, _) => Fin (signed sg (inject_Z v))
  end.

(** ** Arrays and objects *)

(** [x] is put before the first element it does not have to follow: the
    comparator is read through the sign of its result, and a result that
    is zero or [NaN] keeps [x] before what came after it. *)
Fixpoint insertBy {A : Type} (cmp : A -> A -> number) (x : A) (l : list A)
  : list A :=
  match l with
  | [] => [x]
  | y :: l' => if gt0 (cmp x y) then y :: insertBy cmp x l' else x :: l
  end.

(** [Array.prototype.sort] with a comparator. *)
Definition sort {A : Type} (cmp : A -> A -> number) (l : list A) : list A :=
  fold_right (insertBy cmp) [] l.

(** An object used as a dictionary: its own properties in the order of
    their creation. *)
Definition object (V : Type) : Type := list (string * V).

(** [o[k]]. *)
Fixpoint get {V : Type} (o : object V) (k : string) : option V :=
  match o with
  | [] => None
  | (k', v) :: o' => if String.eqb k' k then Some v else get o' k
  end.

(** [o[k] = v]: an existing property keeps its place. *)
Fixpoint set {V : Type} (o : object V) (k : string) (v : V) : object V :=
  match o with
  | [] => [(k, v)]
  | (k', v') :: o' =>
      if String.eqb k' k then (k', v) :: o' else (k', v') :: set o' k v
  end.

(** The names of the properties of [Object.prototype], which every object
    literal inherits. *)
Definition prototypeNames : list string :=
  ["constructor"; "__defineGetter__"; "__defineSetter__"; "hasOwnProperty";
   "__lookupGetter__"; "__lookupSetter__"; "isPrototypeOf";
   "propertyIsEnumerable"; "toString"; "valueOf"; "__proto__";
   "toLocaleString"].

Definition inherited (k : string) : bool :=
  existsb (String.eqb k) prototypeNames.

(** What reading [o[k]] finds: a property of the object itself, a property
    of [Object.prototype] (a function, or the prototype for [__proto__]:
    truthy, and without the properties the program reads), or nothing. *)
Inductive property (V : Type) : Type :=
| Own (v : V)
| Inherited
| Absent.

Arguments Own {V} v.
Arguments Inherited {V}.
Arguments Absent {V}.

Definition lookup {V : Type} (o : object V) (k : string) : property V :=
  match get o k with
  | Some v => Own v
  | None => if inherited k then Inherited else Absent
  end.

(** The number a key stands for when the key is an array index: a
    canonical decimal numeral below 2^32 - 1. *)
Definition arrayIndex (k : string) : option Z :=
  match k with
  | EmptyString => None
  | String c t =>
      if Ascii.eqb c "0" && negb (String.eqb t "") then None
      else match scanDigits 0 0 k with
           | (v, _, EmptyString) => if v <? 4294967295 then Some v else None
           | _ => None
           end
  end.

Fixpoint insertIndexed {V : Type} (i : Z) (v : V) (l : list (Z * V))
  : list (Z * V) :=
  match l with
  | [] => [(i, v)]
  | (j, w) :: l' =>
      if i <? j then (i, v) :: l else (j, w) :: insertIndexed i v l'
  end.

(** The properties whose key is an array index, by ascending index. *)
Fixpoint indexedValues {V : Type} (o : object V) : list (Z * V) :=
  match o with
  | [] => []
  | (k, v) :: o' =>
      match arrayIndex k with
      | Some i => insertIndexed i v (indexedValues o')
      | None => indexedValues o'
      end
  end.

(** The other properties, in the order of their creation. *)
Fixpoint namedValues {V : Type} (o : object V) : list V :=
  match o with
  | [] => []
  | (k, v) :: o' =>
      match arrayIndex k with
      | Some _ => namedValues o'
      | None => v :: namedValues o'
      end
  end.

(** [Object.values(o)]: array-index keys first, by ascending index, then
    the other keys in the order of their creation. *)
Definition values {V : Type} (o : object V) : list V :=
  map snd (indexedValues o) ++ namedValues o.

End JS.

(* ================================================================== *)
(** * The data model ([types.ts])                                      *)
(* ================================================================== *)

Module Types.
Import JS.

Record StoreStop : Type := mkStoreStop {
  stopNo : number;
  storeNo : option string;
  storeName : option string;
  distance : number;
  returnLeg : number;
  windowStart : option string;
  windowEnd : option string
}.

Record Load : Type := mkLoad {
  loadNo : string;
  routeNo : option string;
  driver : string;
  truck : string;
  trailer : string;
  despatchTime : string;
  date : string;
  stops : list StoreStop;
  totalPallets : number;
  totalDistance : number;
  totalReturnLeg : number;
  expectedTimeMinutes : number
}.

End Types.

(* ================================================================== *)
(** * [src/utils/csvParser.ts]                                         *)
(* ================================================================== *)

Module CsvParser.
Import JS Types.

(** The load under accumulation: the object literal of the parser sets
    every field of a [Load] except [expectedTimeMinutes], which the
    finalisation adds. *)
Module Partial.
Record t : Type := mk {
  loadNo : string;
  routeNo : option string;
  driver : string;
  truck : string;
  trailer : string;
  despatchTime : string;
  date : string;
  stops : list StoreStop;
  totalPallets : number;
  totalDistance : number;
  totalReturnLeg : number
}.
End Partial.

Definition calculateExpectedTime (totalKms stopCount : number) : number :=
  let travelTimeMinutes := totalKms in
  let unloadingTimeMinutes := mul stopCount (ofZ 30) in
  round (add travelTimeMinutes unloadingTimeMinutes).

(** [line.split(',').map(c => c.trim())]. *)
Definition columns (line : string) : list string :=
  map trim (split "," line).

(** The stop a row describes. *)
Definition stopOfColumns (cols : list string) : StoreStop :=
  {| stopNo := orElse (parseInt (toStr (nth_error cols 2))) (ofZ 0);
     storeNo := nth_error cols 3;
     storeName := nth_error cols 4;
     distance := orElse (parseFloat (toStr (nth_error cols 11))) (ofZ 0);
     returnLeg := orElse (parseFloat (toStr (nth_error cols 12))) (ofZ 0);
     windowStart := nth_error cols 7;
     windowEnd := nth_error cols 8 |}.

(** [parseInt(cols[10]) || 0]. *)
Definition palletsOfColumns (cols : list string) : number :=
  orElse (parseInt (toStr (nth_error cols 10))) (ofZ 0).

(** The finalisation of a load: the expected time is computed and the
    object is taken as a [Load]. *)
Definition finalize (c : Partial.t) : Load :=
  let totalKms :=
    add (orElse (Partial.totalDistance c) (ofZ 0))
        (orElse (Partial.totalReturnLeg c) (ofZ 0)) in
  {| loadNo := Partial.loadNo c;
     routeNo := Partial.routeNo c;
     driver := Partial.driver c;
     truck := Partial.truck c;
     trailer := Partial.trailer c;
     despatchTime := Partial.despatchTime c;
     date := Partial.date c;
     stops := Partial.stops c;
     totalPallets := Partial.totalPallets c;
     totalDistance := Partial.totalDistance c;
     totalReturnLeg := Partial.totalReturnLeg c;
     expectedTimeMinutes :=
       calculateExpectedTime totalKms
         (orElse (ofNat (List.length (Partial.stops c))) (ofZ 0)) |}.

(** [if (currentLoad && currentLoad.loadNo) { ...; loads.push(currentLoad) }]. *)
Definition pushCurrent (loads : list Load) (currentLoad : option Partial.t)
  : list Load :=
  match currentLoad with
  | Some c =>
      if truthyStr (Some (Partial.loadNo c)) then loads ++ [finalize c]
      else loads
  | None => loads
  end.

(** The load a row opens. *)
Definition openLoad (loadId : string) (cols : list string) (stop : StoreStop)
  : Partial.t :=
  {| Partial.loadNo := loadId;
     Partial.routeNo := nth_error cols 1;
     Partial.driver := orElseStr (nth_error cols 13) "UNKNOWN";
     Partial.truck := orElseStr (nth_error cols 14) "";
     Partial.trailer := orElseStr (nth_error cols 15) "";
     Partial.despatchTime := orElseStr (nth_error cols 16) "";
     Partial.date := orElseStr (nth_error cols 6) "";
     Partial.stops := [stop];
     Partial.totalPallets := palletsOfColumns cols;
     Partial.totalDistance := distance stop;
     Partial.totalReturnLeg := returnLeg stop |}.

(** The same load with one more stop. *)
Definition addStop (c : Partial.t) (cols : list string) (stop : StoreStop)
  : Partial.t :=
  {| Partial.loadNo := Partial.loadNo c;
     Partial.routeNo := Partial.routeNo c;
     Partial.driver := Partial.driver c;
     Partial.truck := Partial.truck c;
     Partial.trailer := Partial.trailer c;
     Partial.despatchTime := Partial.despatchTime c;
     Partial.date := Partial.date c;
     Partial.stops := Partial.stops c ++ [stop];
     Partial.totalPallets :=
       add (orElse (Partial.totalPallets c) (ofZ 0)) (palletsOfColumns cols);
     Partial.totalDistance :=
       add (orElse (Partial.totalDistance c) (ofZ 0)) (distance stop);
     Partial.totalReturnLeg := returnLeg stop |}.

(** [loadId && !isNaN(Number(loadId))] on the first column. *)
Definition isNewLoad (cols : list string) : bool :=
  truthyStr (nth_error cols 0)
  && negb (isNaN (Number (toStr (nth_error cols 0)))).

(** The state of the scan: the loads pushed so far and [currentLoad]. *)
Definition scan : Type := (list Load * option Partial.t)%type.

(** The body of [lines.forEach]. *)
Definition scanLine (st : scan) (line : string) : scan :=
  let '(loads, currentLoad) := st in
  let cols := columns line in
  let loadId := toStr (nth_error cols 0) in
  if isNewLoad cols then
    let stop := stopOfColumns cols in
    match currentLoad with
    | Some c =>
        if negb (String.eqb (Partial.loadNo c) loadId)
        then (pushCurrent loads currentLoad, Some (openLoad loadId cols stop))
        else (loads, Some (addStop c cols stop))
    | None => (pushCurrent loads currentLoad, Some (openLoad loadId cols stop))
    end
  else st.

Definition parseTransportCsv (csvText : string) : list Load :=
  let lines := split "010" csvText in
  let '(loads, currentLoad) := fold_left scanLine lines ([], None) in
  pushCurrent loads currentLoad.

(** [[h, m] = time.split(':').map(Number)]: the first element, which
    always exists, and the second, which may not. *)
Definition clockParts (time : string) : number * option number :=
  match map Number (split ":" time) with
  | h :: m :: _ => (h, Some m)
  | h :: [] => (h, None)
  | [] => (NaN, None)
  end.

(** [m || 0] where [m] may be [undefined]. *)
Definition orZero (m : option number) : number :=
  match m with
  | Some x => orElse x (ofZ 0)
  | None => ofZ 0
  end.

Definition calculateMinutesBetween (time1 time2 : string) : number :=
  if String.eqb time1 "" || String.eqb time2 "" then ofZ 0
  else
    let '(h1, m1) := clockParts time1 in
    let '(h2, m2) := clockParts time2 in
    let totalM1 := add (mul h1 (ofZ 60)) (orZero m1) in
    let totalM2 := add (mul h2 (ofZ 60)) (orZero m2) in
    abs (sub totalM2 totalM1).

End CsvParser.

(* ================================================================== *)
(** * The driver aggregation of [src/App.tsx]                          *)
(* ================================================================== *)

Module App.
Import JS Types CsvParser.

(** [DriverChartData]: a [DriverStats] with the average expected time. *)
Record DriverChartData : Type := mkDriverChartData {
  driverName : string;
  loads : list Load;
  totalKms : number;
  totalPallets : number;
  avgTimeBetweenLoadsMinutes : number;
  avgExpectedTime : number
}.

(** The object a driver gets when first met. *)
Definition emptyStats (driver : string) : DriverChartData :=
  {| driverName := driver;
     loads := [];
     totalKms := ofZ 0;
     totalPallets := ofZ 0;
     avgTimeBetweenLoadsMinutes := ofZ 0;
     avgExpectedTime := ofZ 0 |}.

(** The three updates a load makes to the object of its driver. *)
Definition recordLoad (load : Load) (stat : DriverChartData) : DriverChartData :=
  {| driverName := driverName stat;
     loads := loads stat ++ [load];
     totalKms :=
       add (totalKms stat) (add (totalDistance load) (totalReturnLeg load));
     totalPallets := add (totalPallets stat) (Types.totalPallets load);
     avgTimeBetweenLoadsMinutes := avgTimeBetweenLoadsMinutes stat;
     avgExpectedTime := avgExpectedTime stat |}.

(** The body of [loads.forEach].  When [statsMap[driver]] is a property of
    [Object.prototype] no object is created for the driver, and
    [statsMap[driver].loads] is [undefined]: [push] throws a [TypeError],
    which is the result [None]. *)
Definition groupLoad (statsMap : object DriverChartData) (load : Load)
  : option (object DriverChartData) :=
  let driver := driver load in
  match lookup statsMap driver with
  | Own stat => Some (set statsMap driver (recordLoad load stat))
  | Absent =>
      Some (set statsMap driver (recordLoad load (emptyStats driver)))
  | Inherited => None
  end.

(** [loads.forEach] on a dictionary: the loop ends where the body throws. *)
Definition groupLoads (loads : list Load) (statsMap : object DriverChartData)
  : option (object DriverChartData) :=
  fold_left (fun acc load =>
               match acc with
               | Some m => groupLoad m load
               | None => None
               end)
            loads (Some statsMap).

(** [t[0] * 60 + (t[1] || 0)] for [t = time.split(':').map(Number)]. *)
Definition minuteOfDay (time : string) : number :=
  let '(h, m) := clockParts time in
  add (mul h (ofZ 60)) (orZero m).

(** The comparator of the loads of one driver. *)
Definition byDespatchTime (a b : Load) : number :=
  sub (minuteOfDay (despatchTime a)) (minuteOfDay (despatchTime b)).

(** The loop over [i] from 0 while [i < length - 1]: the pair
    ([totalGap], [gapCount]) after it. *)
Fixpoint gapLoop (ls : list Load) (totalGap gapCount : number)
  : number * number :=
  match ls with
  | a :: ((b :: _) as rest) =>
      let gap := calculateMinutesBetween (despatchTime a) (despatchTime b) in
      gapLoop rest (add totalGap gap) (add gapCount (ofZ 1))
  | _ => (totalGap, gapCount)
  end.

(** The body of [Object.values(statsMap).forEach]. *)
Definition finishStats (stat : DriverChartData) : DriverChartData :=
  let sorted := sort byDespatchTime (loads stat) in
  let '(totalGap, gapCount) := gapLoop sorted (ofZ 0) (ofZ 0) in
  let totalExpected :=
    fold_left (fun acc l => add acc (expectedTimeMinutes l)) sorted (ofZ 0) in
  {| driverName := driverName stat;
     loads := sorted;
     totalKms := totalKms stat;
     totalPallets := totalPallets stat;
     avgTimeBetweenLoadsMinutes :=
       if gt0 gapCount then round (div totalGap gapCount) else ofZ 0;
     avgExpectedTime :=
       if (0 <? List.length sorted)%nat
       then div totalExpected (ofNat (List.length sorted))
       else ofZ 0 |}.

(** The comparator of the drivers. *)
Definition byTotalKmsDesc (a b : DriverChartData) : number :=
  sub (totalKms b) (totalKms a).

(** The value of the memo, or [None] when computing it throws. *)
Definition driverStats (loads : list Load) : option (list DriverChartData) :=
  match groupLoads loads [] with
  | Some statsMap =>
      Some (sort byTotalKmsDesc (map finishStats (values statsMap)))
  | None => None
  end.

End App.

(* ================================================================== *)
(** * The specification's own formulations                             *)
(* ================================================================== *)

Module Spec.
Import JS Types CsvParser.

(** Strict equality of two numbers: [NaN] equals nothing, finite values are
    compared as rationals. *)
Definition sameNumber (x y : number) : bool :=
  match x, y with
  | Inf s, Inf t => Bool.eqb s t
  | Fin a, Fin b => Qeq_bool a b
  | _, _ => false
  end.

(** [x <= y] on numbers; false when either is [NaN]. *)
Definition lessEq (x y : number) : bool :=
  match x, y with
  | NaN, _ | _, NaN => false
  | Inf s, Inf t => s || negb t
  | Inf s, Fin _ => s
  | Fin _, Inf t => negb t
  | Fin a, Fin b => Qle_bool a b
  end.

(** A number that is neither [NaN] nor negative: a finite value from 0 on,
    or plus infinity. *)
Definition nonNegative (x : number) : bool := lessEq (ofZ 0) x.

(** No load has a driver named like a property of [Object.prototype]. *)
Definition ownNames (ls : list Load) : Prop :=
  Forall (fun l => inherited (driver l) = false) ls.

(** [z] is the integer nearest to [x], the upper one of two equally near. *)
Definition nearestInteger (x : Q) (z : Z) : Prop :=
  (inject_Z z - (1 # 2) <= x /\ x < inject_Z z + (1 # 2))%Q.

(** A number that is a non-negative integer. *)
Definition nonNegativeInteger (x : number) : bool :=
  match x with
  | Fin q => Qle_bool 0 q && Qeq_bool q (inject_Z (Qfloor q))
  | _ => false
  end.

(** The line feed that separates the lines of the input. *)
Definition newline : string := String "010" EmptyString.

(** The data rows of a text: the trimmed columns of the lines whose first
    field is non-empty and reads as a number. *)
Definition dataRows (csvText : string) : list (list string) :=
  filter isNewLoad (map columns (split "010" csvText)).

(** The load id of a row: its first field. *)
Definition rowId (cols : list string) : string := toStr (nth_error cols 0).

(** The maximal runs of consecutive rows with one load id. *)
Fixpoint runs (rows : list (list string)) : list (list (list string)) :=
  match rows with
  | [] => []
  | r :: rest =>
      match runs rest with
      | (r' :: run) :: more =>
          if String.eqb (rowId r) (rowId r')
          then (r :: r' :: run) :: more
          else [r] :: (r' :: run) :: more
      | _ => [[r]]
      end
  end.

(** The id a run of rows shares, read from its first row. *)
Definition runId (run : list (list string)) : string :=
  match run with
  | r :: _ => rowId r
  | [] => EmptyString
  end.

(** Every row of the run has the id [id]. *)
Definition sharesId (id : string) (run : list (list string)) : Prop :=
  Forall (fun r => rowId r = id) run.

(** [toMinutesOfDay]: split on the colon, take hour and minute, the minute
    being 0 when absent or unparsable. *)
Definition toMinutesOfDay (clock : string) : number :=
  match split ":" clock with
  | h :: rest =>
      let minute :=
        match rest with
        | m :: _ => if isNaN (Number m) then ofZ 0 else Number m
        | [] => ofZ 0
        end in
      add (mul (Number h) (ofZ 60)) minute
  | [] => NaN
  end.

(** [minutesBetween]: the absolute difference of the two minutes of day,
    and 0 when either string is empty. *)
Definition minutesBetween (a b : string) : number :=
  if String.eqb a "" || String.eqb b "" then ofZ 0
  else abs (sub (toMinutesOfDay a) (toMinutesOfDay b)).

(** The digit of a number below ten. *)
Definition digitChar (n : nat) : ascii := ascii_of_nat (48 + n).

(** The clock string of hour [h] and minute [m]: the minute on two digits,
    the hour on two digits when [padded] or when it needs them. *)
Definition clock (padded : bool) (h m : nat) : string :=
  let hour :=
    if padded || (10 <=? h)%nat
    then String (digitChar (h / 10)) (String (digitChar (h mod 10)) EmptyString)
    else String (digitChar h) EmptyString in
  hour ++ ":" ++
  String (digitChar (m / 10)) (String (digitChar (m mod 10)) EmptyString).

(** The minute of day of hour [h] and minute [m]. *)
Definition minuteOfDayOf (h m : nat) : Z := 60 * Z.of_nat h + Z.of_nat m.

(** The value an optional minute component counts for: 0 when it is
    absent or unparsable. *)
Definition minuteValue (m : option number) : Q :=
  match m with
  | Some (Fin q) => q
  | _ => 0%Q
  end.

(** A component that is absent, unparsable or finite. *)
Definition notInfinite (m : option number) : Prop :=
  match m with
  | Some (Inf _) => False
  | _ => True
  end.


(** The sum of a list of numbers. *)
Definition sum (l : list number) : number := fold_left add l (ofZ 0).


(** A list of driver statistics in descending order of [totalKms]: each
    element has at least the total of every later one. *)
Definition descendingByTotalKms (stats : list App.DriverChartData) : Prop :=
  StronglySorted
    (fun a b => lessEq (App.totalKms b) (App.totalKms a) = true) stats.


(** The loads of a list that are of driver [name], in the order of the
    list. *)
Definition loadsOfDriver (name : string) (ls : list Load) : list Load :=
  filter (fun l => String.eqb (driver l) name) ls.

(** Three drivers: A with 50 km, B with one load whose two rows give the
    distances Infinity and -Infinity, C with 100 km. *)
Definition undefinedTotalText : string :=
  "1,,,,,,,,,,,50,0,A" ++ newline ++
  "2,,,,,,,,,,,Infinity,0,B" ++ newline ++
  "2,,,,,,,,,,,-Infinity,0,B" ++ newline ++
  "3,,,,,,,,,,,100,0,C".

(** Two drivers: A with 50 km, met first, and B with 100 km. *)
Definition twoDriversText : string :=
  "1,,,,,,,,,,,40,10,A,,,9:30" ++ newline ++
  "2,,,,,,,,,,,90,10,B,,,8:00".

(** One driver with loads despatched at 8:00, 7:15 and 12:00, another with
    one load. *)
Definition threeLoadsText : string :=
  "1,,,,,,,,,,,40,10,A,,,9:30" ++ newline ++
  "2,,,,,,,,,,,90,10,B,,,8:00" ++ newline ++
  "4,,,,,,,,,,,1,1,B,,,7:15" ++ newline ++
  "5,,,,,,,,,,,1,1,B,,,12:00".

(** Driver A with loads despatched at 8:00, 9:00, 08:00 and 7:00, and
    driver B with a load at 8:00 between them. *)
Definition sameMinuteText : string :=
  "1,,,,,,,,,,,10,0,A,,,8:00" ++ newline ++
  "2,,,,,,,,,,,10,0,A,,,9:00" ++ newline ++
  "5,,,,,,,,,,,10,0,B,,,8:00" ++ newline ++
  "3,,,,,,,,,,,10,0,A,,,08:00" ++ newline ++
  "4,,,,,,,,,,,10,0,A,,,7:00".

(** Four drivers met in the order A, B, C, D with 50, 100, 50 and 20 km. *)
Definition equalTotalsText : string :=
  "1,,,,,,,,,,,40,10,A" ++ newline ++
  "2,,,,,,,,,,,90,10,B" ++ newline ++
  "3,,,,,,,,,,,25,0,C" ++ newline ++
  "4,,,,,,,,,,,20,0,D" ++ newline ++
  "5,,,,,,,,,,,5,20,C".

(** One load of a driver named like a property of [Object.prototype]. *)
Definition inheritedNameText : string :=
  "1,,,,,,,,,,,40,10,A" ++ newline ++
  "2,,,,,,,,,,,90,10,constructor".

(** The scenario input of two rows of load 1. *)
Definition scenarioText : string :=
  "1,R1,1,S1,StoreA,,,,,0,10,5,2,D1,T1,TR1,8:00" ++ newline ++
  "1,R1,2,S2,StoreB,,,,,0,15,3,3,D1,T1,TR1,8:00".

(** What a scenario says of the single load returned. *)
Definition scenarioResult (pallets dist ret minutes : Z) (ls : list Load) : Prop :=
  exists l,
    ls = [l] /\ loadNo l = "1" /\ List.length (stops l) = 2%nat /\
    sameNumber (totalPallets l) (ofZ pallets) = true /\
    sameNumber (totalDistance l) (ofZ dist) = true /\
    sameNumber (totalReturnLeg l) (ofZ ret) = true /\
    sameNumber (expectedTimeMinutes l) (ofZ minutes) = true.

End Spec.

(* ================================================================== *)
(** * Auxiliary definitions of the proofs                              *)
(* ================================================================== *)

Module Derived.
Import JS Types CsvParser Spec.

(** What the scan does with a data row. *)
Definition scanRow (st : scan) (cols : list string) : scan :=
  let '(loads, currentLoad) := st in
  match currentLoad with
  | Some c =>
      if String.eqb (Partial.loadNo c) (rowId cols)
      then (loads, Some (addStop c cols (stopOfColumns cols)))
      else (pushCurrent loads currentLoad,
            Some (openLoad (rowId cols) cols (stopOfColumns cols)))
  | None => (loads, Some (openLoad (rowId cols) cols (stopOfColumns cols)))
  end.

(** A load under accumulation after further rows of its run. *)
Definition feed (c : Partial.t) (rows : list (list string)) : Partial.t :=
  fold_left (fun c cols => addStop c cols (stopOfColumns cols)) rows c.

(** The load a run of rows makes: opened by the first row, fed with the
    others and finalised. *)
Definition loadOfRun (run : list (list string)) : Load :=
  let first := hd [] run in
  finalize (feed (openLoad (rowId first) first (stopOfColumns first)) (tl run)).

(** The loads still to come from a load under accumulation and the runs
    of the rows not yet read. *)
Definition pending (c : Partial.t) (rs : list (list (list string))) : list Load :=
  match rs with
  | run :: more =>
      if String.eqb (Partial.loadNo c) (runId run)
      then finalize (feed c run) :: map loadOfRun more
      else finalize c :: map loadOfRun rs
  | [] => [finalize c]
  end.

(** The dictionary after a load whose driver is not named like a property
    of [Object.prototype]: what [groupLoad] returns then. *)
Definition groupOwn (statsMap : object App.DriverChartData) (load : Load)
  : object App.DriverChartData :=
  let driver := driver load in
  let stat :=
    match get statsMap driver with
    | Some stat => stat
    | None => App.emptyStats driver
    end in
  set statsMap driver (App.recordLoad load stat).

(** The entries the aggregation returns for such loads. *)
Definition entriesOf (loads : list Load) : list App.DriverChartData :=
  sort App.byTotalKmsDesc
       (map App.finishStats (values (fold_left groupOwn loads []))).

(** Two numbers that are the same value with the same representation. *)
Definition numberEqb (x y : number) : bool :=
  match x, y with
  | NaN, NaN => true
  | Inf s, Inf t => Bool.eqb s t
  | Fin a, Fin b => Z.eqb (Qnum a) (Qnum b) && Pos.eqb (Qden a) (Qden b)
  | _, _ => false
  end.

(** The clock string of [h] and [m] is not empty and has the minute of
    day [60 h + m]. *)
Definition clockChecked (padded : bool) (h m : nat) : bool :=
  numberEqb (toMinutesOfDay (clock padded h m)) (ofZ (minuteOfDayOf h m))
  && negb (String.eqb (clock padded h m) "").

End Derived.

(* ================================================================== *)
(** * Further built-ins, used by the dashboard of [src/App.tsx]        *)
(* ================================================================== *)

Module Builtins.
Import JS.

(** [x < y]; false when either is [NaN]. *)
Definition lessThan (x y : number) : bool :=
  match x, y with
  | NaN, _ | _, NaN => false
  | Inf s, Inf t => s && negb t
  | Inf s, Fin _ => s
  | Fin _, Inf t => negb t
  | Fin a, Fin b => Qnum a * QDen b <? Qnum b * QDen a
  end.

(** [Math.floor]. *)
Definition floor (x : number) : number :=
  match x with
  | Fin q => ofZ (Qfloor q)
  | _ => x
  end.

(** The integer part of a rational, towards zero. *)
Definition truncate (q : Q) : Z :=
  if isNegQ q then - Qfloor (- q)%Q else Qfloor q.

(** [x % y]: the remainder has the sign of the dividend; it is [NaN] for
    an infinite dividend or a zero divisor, and the dividend itself for an
    infinite divisor. *)
Definition remainder (x y : number) : number :=
  match x, y with
  | NaN, _ | _, NaN => NaN
  | Inf _, _ => NaN
  | Fin a, Inf _ => Fin a
  | Fin a, Fin b =>
      if isZeroQ b then NaN
      else Fin (a - b * inject_Z (truncate (a / b)))%Q
  end.

(** The text a template literal gives for a number that is an integer
    below 10^21 in magnitude (its decimal numeral), [NaN] or infinite;
    from 10^21 on the literal is in exponent notation, which is not
    represented. *)
Definition toStringInteger (x : number) : string :=
  match x with
  | NaN => "NaN"
  | Inf false => "Infinity"
  | Inf true => "-Infinity"
  | Fin q => NilZero.string_of_int (Z.to_int (Qfloor q))
  end.

End Builtins.

(* ================================================================== *)
(** * The dashboard values of [src/App.tsx]                            *)
(* ================================================================== *)

Module Dashboard.
Import JS Types CsvParser App Builtins.

Definition formatMinutesToText (mins : number) : string :=
  if lessThan mins (ofZ 60) then toStringInteger (round mins) ++ "m"
  else
    let h := floor (div mins (ofZ 60)) in
    let m := round (remainder mins (ofZ 60)) in
    if gt0 m then toStringInteger h ++ "h " ++ toStringInteger m ++ "m"
    else toStringInteger h ++ "h".

(** A point of the timeline. *)
Module Point.
Record t : Type := mk {
  time : string;
  duration : number;
  loadNo : string
}.
End Point.


(** The headline totals. *)
Module Totals.
Record t : Type := mk {
  loads : number;
  kms : number;
  drivers : number;
  pallets : number;
  avgExpectedTime : number
}.
End Totals.

Definition totals (loads : list Load) (driverStats : list DriverChartData)
  : Totals.t :=
  let totalExpected :=
    fold_left (fun acc curr => add acc (expectedTimeMinutes curr)) loads (ofZ 0) in
  {| Totals.loads := ofNat (List.length loads);
     Totals.kms :=
       fold_left (fun acc curr => add acc (totalKms curr)) driverStats (ofZ 0);
     Totals.drivers := ofNat (List.length driverStats);
     Totals.pallets :=
       fold_left (fun acc curr => add acc (totalPallets curr)) driverStats (ofZ 0);
     Totals.avgExpectedTime :=
       if (0 <? List.length loads)%nat
       then div totalExpected (ofNat (List.length loads))
       else ofZ 0 |}.

End Dashboard.

(* ================================================================== *)
(** * The arithmetic of IEEE-754 doubles                               *)
(* ================================================================== *)

Module Binary64.
Import JS CsvParser Builtins.

(** The exponent [b] of the binade of a positive rational [n / d]:
    [2^b <= n / d < 2^(b+1)]. *)
Definition binade (n d : Z) : Z :=
  let e := Z.log2 n - Z.log2 d in
  if d * 2 ^ Z.max e 0 <=? n * 2 ^ Z.max (- e) 0 then e else e - 1.

(** The integer nearest to a rational, the even one of two equally near. *)
Definition nearestEven (t : Q) : Z :=
  let f := Qfloor t in
  match (t - inject_Z f ?= 1 # 2)%Q with
  | Lt => f
  | Gt => f + 1
  | Eq => if Z.even f then f else f + 1
  end.

(** The double a real result is rounded to: the nearest multiple of the
    unit in the last place of its binade (53 significant bits, and never
    less than 2^-1074), the one with an even significand of two equally
    near, and an infinity from 2^1024 on. *)
Definition round64 (q : Q) : number :=
  if isZeroQ q then Fin 0
  else
    let a := Qabs q in
    let u := Z.max (binade (Qnum a) (Zpos (Qden a)) - 52) (-1074) in
    let r := Qred (inject_Z (nearestEven (a / 2 ^ u)) * 2 ^ u) in
    if Qle_bool (2 ^ 1024) r then Inf (isNegQ q)
    else Fin (signed (isNegQ q) r).

Definition rounded (x : number) : number :=
  match x with
  | Fin q => round64 q
  | _ => x
  end.

(** [x + y], [x - y], [x * y] and [x / y] on doubles. *)
Definition add (x y : number) : number := rounded (JS.add x y).
Definition sub (x y : number) : number := rounded (JS.sub x y).
Definition mul (x y : number) : number := rounded (JS.mul x y).
Definition div (x y : number) : number := rounded (JS.div x y).

(** The sum of a list of doubles, added from left to right. *)
Definition sum (l : list number) : number := fold_left add l (ofZ 0).

(** [Number(s)] and [parseFloat(s)]: the double nearest to the literal. *)
Definition Number (s : string) : number := rounded (JS.Number s).
Definition parseFloat (s : string) : number := rounded (JS.parseFloat s).

(** [calculateExpectedTime] of [src/utils/csvParser.ts] on doubles;
    [Math.round] of a double is exact. *)
Definition calculateExpectedTime (totalKms stopCount : number) : number :=
  let travelTimeMinutes := totalKms in
  let unloadingTimeMinutes := mul stopCount (ofZ 30) in
  round (add travelTimeMinutes unloadingTimeMinutes).

(** [calculateMinutesBetween] of [src/utils/csvParser.ts] on doubles. *)
Definition clockParts (time : string) : number * option number :=
  match map Number (split ":" time) with
  | h :: m :: _ => (h, Some m)
  | h :: [] => (h, None)
  | [] => (NaN, None)
  end.

Definition calculateMinutesBetween (time1 time2 : string) : number :=
  if String.eqb time1 "" || String.eqb time2 "" then ofZ 0
  else
    let '(h1, m1) := clockParts time1 in
    let '(h2, m2) := clockParts time2 in
    let totalM1 := add (mul h1 (ofZ 60)) (orZero m1) in
    let totalM2 := add (mul h2 (ofZ 60)) (orZero m2) in
    abs (sub totalM2 totalM1).

(** [formatMinutesToText] of [src/App.tsx] on doubles; [%], [Math.floor]
    and [Math.round] of doubles are exact. *)
Definition formatMinutesToText (mins : number) : string :=
  if lessThan mins (ofZ 60) then toStringInteger (round mins) ++ "m"
  else
    let h := floor (div mins (ofZ 60)) in
    let m := round (remainder mins (ofZ 60)) in
    if gt0 m then toStringInteger h ++ "h " ++ toStringInteger m ++ "m"
    else toStringInteger h ++ "h".

End Binary64.

(* ================================================================== *)
(** * Quantities the further properties speak of                       *)
(* ================================================================== *)

Module Quantities.
Import JS Types CsvParser App Spec.

(** The pallets of a row as an integer: what [parseInt] reads in column
    10, and 0 when it reads nothing. *)
Definition palletCount (cols : list string) : Z :=
  match parseInt (toStr (nth_error cols 10)) with
  | Fin q => Qnum q
  | _ => 0
  end.

(** The sum of a list of integers. *)
Definition sumZ (l : list Z) : Z := fold_right Z.add 0 l.

(** The integer a number is when it is one, and 0 for the others. *)
Definition integerOf (x : number) : Z :=
  match x with
  | Fin q => Qfloor q
  | _ => 0
  end.

(** The distance of a row as an integer, when it is one. *)
Definition kilometres (cols : list string) : Z :=
  integerOf (distance (stopOfColumns cols)).

(** The last element of a list, when there is one. *)
Definition lastError {A : Type} (l : list A) : option A := hd_error (rev l).

(** The last load of the first list and the first load of the second, when
    both exist, have different numbers. *)
Definition seamDiffers (before after : list Load) : Prop :=
  forall x y, lastError before = Some x -> hd_error after = Some y ->
              loadNo x <> loadNo y.

(** The kilometres of the loads of a driver, added from left to right in
    the order of the list. *)
Definition kmsOfDriver (name : string) (ls : list Load) : number :=
  fold_left (fun acc l => add acc (add (totalDistance l) (totalReturnLeg l)))
            (loadsOfDriver name ls) (ofZ 0).

(** The pallets of the loads of a driver, added in the same way. *)
Definition palletsOfDriver (name : string) (ls : list Load) : number :=
  fold_left (fun acc l => add acc (Types.totalPallets l))
            (loadsOfDriver name ls) (ofZ 0).

(** The loads despatched at the same minute of day as [time]. *)
Definition despatchedAt (time : string) (ls : list Load) : list Load :=
  filter (fun l => sameNumber (minuteOfDay (despatchTime l))
                              (minuteOfDay time)) ls.

(** [Number.MAX_SAFE_INTEGER]: up to it the integers are doubles, and a
    sum of integers that stays below it is exact. *)
Definition maxSafeInteger : Z := 2 ^ 53 - 1.

(** An integer of magnitude at most 2^40. *)
Definition smallInteger (x : number) : bool :=
  match x with
  | Fin q => Pos.eqb (Qden q) 1 && (Z.abs (Qnum q) <=? 2 ^ 40)
  | _ => false
  end.

(** A clock string whose hour reads as such an integer and whose minute
    is absent, unparsable or such an integer: the minute of day and the
    difference of two of them are then exact in doubles. *)
Definition integerClock (time : string) : bool :=
  let '(h, m) := clockParts time in
  smallInteger h && smallInteger (orZero m).

(** A number that is an integer. *)
Definition isInteger (x : number) : Prop := x = ofZ (integerOf x).

(** The decimal numeral of an integer. *)
Definition decimal (z : Z) : string := NilZero.string_of_int (Z.to_int z).

(** The names of a list in the order of their first appearance. *)
Definition firstSeen (names : list string) : list string :=
  fold_left (fun seen d => if existsb (String.eqb d) seen then seen
                           else (seen ++ [d])%list)
            names [].

(** Two drivers with equal totals of kilometres, named by array indices
    and met in the order 10, 9. *)
Definition indexNamedDriversText : string :=
  "1,,,,,,,,,,,50,0,10" ++ newline ++ "2,,,,,,,,,,,50,0,9".

(** What the dictionary of the aggregation holds after the loads [ls]: one
    property for each driver met and no other, whose object has the name
    of the driver, the loads of the driver in the order of [ls] and their
    totals, every load of [ls] being in the object of its driver. *)
Definition grouped (ls : list Load) (o : object DriverChartData) : Prop :=
  NoDup (map fst o) /\
  (forall l, In l ls -> In (driver l) (map fst o)) /\
  (forall k st, In (k, st) o ->
     driverName st = k /\
     loads st = loadsOfDriver k ls /\
     loads st <> [] /\
     totalKms st = kmsOfDriver k ls /\
     totalPallets st = palletsOfDriver k ls) /\
  Permutation (flat_map (fun kv => loads (snd kv)) o) ls.

End Quantities.

(** Evaluates the list a [Forall] ranges over, and nothing under the
    predicate. *)
Ltac evaluate_list :=
  match goal with
  | |- Forall _ ?l => let v := eval vm_compute in l in change l with v
  end.

(* ================================================================== *)
(** * Facts about the numbers                                          *)
(* ================================================================== *)

Module NumberFacts.
Import JS.

Lemma Qplus_comm_eq (a b : Q) : (a + b = b + a)%Q.
Proof.
  destruct a as [an ad], b as [bn bd]. unfold Qplus. simpl.
  f_equal; [ lia | apply Pos.mul_comm ].
Qed.

Lemma Qmult_comm_eq (a b : Q) : (a * b = b * a)%Q.
Proof.
  destruct a as [an ad], b as [bn bd]. unfold Qmult. simpl.
  f_equal; [ lia | apply Pos.mul_comm ].
Qed.

Lemma add_comm (x y : number) : add x y = add y x.
Proof.
  destruct x as [|s|a], y as [|t|b]; simpl; try reflexivity.
  - destruct s, t; reflexivity.
  - f_equal. apply Qplus_comm_eq.
Qed.

Lemma mul_comm (x y : number) : mul x y = mul y x.
Proof.
  destruct x as [|s|a], y as [|t|b]; simpl; try reflexivity.
  - destruct s, t; reflexivity.
  - f_equal. apply Qmult_comm_eq.
Qed.

Lemma round_nearest (q : Q) :
  Spec.nearestInteger q (Qfloor (q + (1 # 2))%Q).
Proof.
  unfold Spec.nearestInteger.
  pose proof (Qfloor_le (q + (1 # 2))%Q) as Hle.
  pose proof (Qlt_floor (q + (1 # 2))%Q) as Hlt.
  rewrite inject_Z_plus in Hlt. change (inject_Z 1) with 1%Q in Hlt.
  split; lra.
Qed.

Lemma Qfloor_half (z : Z) : Qfloor (inject_Z z + (1 # 2))%Q = z.
Proof.
  unfold Qfloor, Qplus, inject_Z. simpl.
  symmetry. apply (Z.div_unique _ _ z 1); lia.
Qed.

Lemma lessEq_ofZ (a b : Z) : a <= b -> Spec.lessEq (ofZ a) (ofZ b) = true.
Proof.
  intro H. simpl. apply Qle_bool_iff. now rewrite <- Zle_Qle.
Qed.

(** ** The numbers read from strings *)

Lemma canonical_zero (q : Q) : Qred q = q -> isZeroQ q = true -> q = 0%Q.
Proof.
  intros Hc Hz. rewrite <- Hc.
  change 0%Q with (Qred 0). apply Qred_complete.
  unfold isZeroQ in Hz. apply Z.eqb_eq in Hz.
  unfold Qeq. rewrite Hz. reflexivity.
Qed.

Lemma scanDecimal_canonical (u : string) (q : Q) (r : string) :
  scanDecimal u = Some (q, r) -> Qred q = q.
Proof.
  unfold scanDecimal.
  destruct (scanDigits 0 0 u) as [[ip ni] r1].
  destruct (stripPrefix "." r1) as [r1'|].
  - destruct (scanDigits ip 0 r1') as [[m nf] r2].
    destruct (scanExponent r2) as [e r3].
    destruct ni, nf; try discriminate;
      intros [= <- _]; apply Qred_complete, Qred_correct.
  - destruct (scanExponent r1) as [e r3].
    destruct ni; try discriminate.
    intros [= <- _]. apply Qred_complete, Qred_correct.
Qed.

Lemma signed_zero (sg : bool) (q : Q) :
  Qred q = q -> isZeroQ (signed sg q) = true -> signed sg q = 0%Q.
Proof.
  intros Hc Hz. assert (Hq : q = 0%Q).
  { apply canonical_zero; [ assumption | ].
    destruct sg; [ | assumption ].
    unfold isZeroQ in *. simpl in Hz. apply Z.eqb_eq in Hz.
    apply Z.eqb_eq. lia. }
  subst q. now destruct sg.
Qed.

(** A string that [Number] reads as a falsy value is read as [NaN] or as
    the zero [ofZ 0]. *)
Lemma Number_falsy (s : string) :
  truthy (Number s) = false -> Number s = NaN \/ Number s = ofZ 0.
Proof.
  unfold Number.
  destruct (String.eqb (trim s) ""); [ now right | ].
  destruct (nonDecimalLiteral (trim s)) as [[radix digits]|].
  - unfold wholeRadix.
    destruct (scanRadix radix 0 0 digits) as [[v n] rest].
    destruct n; [ now left | ]. destruct rest; [ | now left ].
    simpl. unfold isZeroQ. simpl. intro H. apply negb_false_iff in H.
    apply Z.eqb_eq in H. subst v. now right.
  - destruct (scanSign (trim s)) as [sg u].
    destruct (String.eqb u "Infinity"); [ discriminate | ].
    destruct (scanDecimal u) as [[q rest]|] eqn:E; [ | now left ].
    destruct rest; [ | now left ].
    simpl. intro H. apply negb_false_iff in H. right.
    apply scanDecimal_canonical in E.
    now rewrite (signed_zero sg q E H).
Qed.

(** [x || 0] keeps every number [Number] reads except [NaN]. *)
Lemma orElse_Number (s : string) :
  orElse (Number s) (ofZ 0) = if isNaN (Number s) then ofZ 0 else Number s.
Proof.
  unfold orElse. destruct (truthy (Number s)) eqn:E.
  - destruct (Number s); try discriminate; reflexivity.
  - destruct (Number_falsy s E) as [-> | ->]; reflexivity.
Qed.

End NumberFacts.

(* ================================================================== *)
(** * Facts about the rounding of doubles                              *)
(* ================================================================== *)

Module Binary64Facts.
Import JS CsvParser Quantities.

(** ** Powers of two *)

Lemma pow2_inject (k : Z) : 0 <= k -> (2 ^ k == inject_Z (2 ^ k))%Q.
Proof.
  intro H. rewrite (Zpower_Qpower 2 k H). reflexivity.
Qed.

Lemma pow2_pos (k : Z) : (0 < 2 ^ k)%Q.
Proof. apply Qpower_0_lt. reflexivity. Qed.

Lemma pow2_add (a b : Z) : (2 ^ (a + b) == 2 ^ a * 2 ^ b)%Q.
Proof. apply Qpower_plus. discriminate. Qed.

Lemma pow2_lt_inv (a b : Z) : (2 ^ a < 2 ^ b)%Q -> a < b.
Proof.
  intro H. apply (Qpower_lt_compat_l_inv 2); [ exact H | reflexivity ].
Qed.

Lemma pow2_le (a b : Z) : a <= b -> (2 ^ a <= 2 ^ b)%Q.
Proof.
  intro H. apply Qpower_le_compat_l; [ exact H | discriminate ].
Qed.

(** ** The rounding keeps a double *)

(** The power of two of the binade is at most the rational. *)
Lemma binade_le (n d : Z) :
  0 < n -> 0 < d -> (2 ^ Binary64.binade n d * inject_Z d <= inject_Z n)%Q.
Proof.
  intros Hn Hd. unfold Binary64.binade.
  set (e := Z.log2 n - Z.log2 d).
  destruct (Z.leb_spec (d * 2 ^ Z.max e 0) (n * 2 ^ Z.max (- e) 0)) as [H | _].
  - destruct (Z.le_gt_cases 0 e) as [He | He].
    + rewrite Z.max_l in H by lia. rewrite Z.max_r in H by lia.
      rewrite Z.pow_0_r, Z.mul_1_r in H.
      rewrite (pow2_inject e He), <- inject_Z_mult, <- Zle_Qle. lia.
    + rewrite Z.max_r in H by lia. rewrite Z.max_l in H by lia.
      rewrite Z.pow_0_r, Z.mul_1_r in H.
      assert (Hq : (inject_Z d <= inject_Z n * 2 ^ (- e))%Q).
      { rewrite (pow2_inject (- e)) by lia.
        rewrite <- inject_Z_mult, <- Zle_Qle. exact H. }
      pose proof (pow2_pos e) as Hp.
      assert (Hone : (2 ^ e * 2 ^ (- e) == 1)%Q).
      { rewrite <- pow2_add. replace (e + - e) with 0 by lia. reflexivity. }
      apply Qle_trans with (2 ^ e * (inject_Z n * 2 ^ (- e)))%Q.
      * apply Qmult_le_l; assumption.
      * setoid_replace (2 ^ e * (inject_Z n * 2 ^ (- e)))%Q
          with (inject_Z n * (2 ^ e * 2 ^ (- e)))%Q by ring.
        rewrite Hone. rewrite Qmult_1_r. apply Qle_refl.
  - destruct (Z.log2_spec n Hn) as [Hn1 _].
    destruct (Z.log2_spec d Hd) as [_ Hd2].
    apply Qle_trans with (2 ^ (e - 1) * 2 ^ (Z.log2 d + 1))%Q.
    + apply Qmult_le_l; [ apply pow2_pos | ].
      rewrite (pow2_inject (Z.log2 d + 1)) by (pose proof (Z.log2_nonneg d); lia).
      rewrite <- Zle_Qle. unfold Z.succ in Hd2. lia.
    + rewrite <- pow2_add.
      replace (e - 1 + (Z.log2 d + 1)) with (Z.log2 n) by (subst e; lia).
      rewrite (pow2_inject (Z.log2 n)) by apply Z.log2_nonneg.
      rewrite <- Zle_Qle. exact Hn1.
Qed.

Lemma binade_below (a : Q) :
  (0 < a)%Q -> (2 ^ Binary64.binade (Qnum a) (Zpos (Qden a)) <= a)%Q.
Proof.
  intro Hapos. destruct a as [n d]. cbn [Qnum Qden].
  assert (Hnum : 0 < n) by (unfold Qlt in Hapos; simpl in Hapos; lia).
  pose proof (binade_le n (Zpos d) Hnum eq_refl) as H.
  rewrite (Qmake_Qdiv n d).
  apply Qle_shift_div_l; [ reflexivity | exact H ].
Qed.

Lemma nearestEven_integer (t : Q) (k : Z) :
  (t == inject_Z k)%Q -> Binary64.nearestEven t = k.
Proof.
  intro H. unfold Binary64.nearestEven.
  assert (Hf : Qfloor t = k) by (rewrite H; apply Qfloor_Z).
  rewrite Hf.
  assert (Hc : (t - inject_Z k ?= 1 # 2)%Q = Lt).
  { rewrite H. apply Qlt_alt.
    setoid_replace (inject_Z k - inject_Z k)%Q with 0%Q by ring. reflexivity. }
  now rewrite Hc.
Qed.

Lemma isZeroQ_spec (q : Q) : isZeroQ q = true <-> (q == 0)%Q.
Proof.
  unfold isZeroQ, Qeq. simpl. rewrite Z.eqb_eq. lia.
Qed.

Lemma signed_abs (q : Q) : (signed (isNegQ q) (Qabs q) == q)%Q.
Proof.
  unfold signed, isNegQ. destruct q as [n d]. simpl.
  destruct (Z.ltb_spec n 0) as [H | H]; unfold Qabs, Qopp, Qeq; simpl; lia.
Qed.

(** A rational [m * 2^e] with a significand below 2^53 and an exponent in
    the range of the doubles is a double: the rounding keeps its value. *)
Lemma round64_exact (q : Q) (m e : Z) :
  (q == inject_Z m * 2 ^ e)%Q -> Z.abs m < 2 ^ 53 -> -1074 <= e <= 970 ->
  exists q', Binary64.round64 q = Fin q' /\ (q' == q)%Q.
Proof.
  intros Hq Hm He. unfold Binary64.round64.
  destruct (isZeroQ q) eqn:Ez.
  - exists 0%Q. split; [ reflexivity | ].
    apply isZeroQ_spec in Ez. now rewrite Ez.
  - set (a := Qabs q).
    assert (Ha : (a == inject_Z (Z.abs m) * 2 ^ e)%Q).
    { unfold a. rewrite Hq, Qabs_Qmult.
      change (Qabs (inject_Z m)) with (inject_Z (Z.abs m)).
      rewrite (Qabs_pos (2 ^ e)) by (apply Qlt_le_weak, pow2_pos).
      reflexivity. }
    assert (Hapos : (0 < a)%Q).
    { unfold a, isZeroQ in *. apply Z.eqb_neq in Ez.
      destruct q as [n d]. unfold Qabs, Qlt. simpl in *. lia. }
    set (b := Binary64.binade (Qnum a) (Zpos (Qden a))).
    assert (Hb : (2 ^ b <= a)%Q) by (now apply binade_below).
    assert (Hlt : (a < 2 ^ (53 + e))%Q).
    { rewrite Ha, pow2_add. apply Qmult_lt_compat_r; [ apply pow2_pos | ].
      rewrite (pow2_inject 53) by lia. rewrite <- Zlt_Qlt. exact Hm. }
    set (u := Z.max (b - 52) (-1074)).
    assert (Hu : u <= e).
    { assert (Hbe : (2 ^ b < 2 ^ (53 + e))%Q)
        by (apply Qle_lt_trans with a; assumption).
      apply pow2_lt_inv in Hbe. subst u. lia. }
    set (k := Z.abs m * 2 ^ (e - u)).
    assert (Ht : (a / 2 ^ u == inject_Z k)%Q).
    { unfold k. rewrite inject_Z_mult, <- (pow2_inject (e - u)) by lia.
      rewrite Ha. unfold Zminus. rewrite pow2_add, Qpower_opp.
      field. apply Qnot_eq_sym, Qlt_not_eq, pow2_pos. }
    rewrite (nearestEven_integer _ k Ht).
    assert (Hr : (Qred (inject_Z k * 2 ^ u) == a)%Q).
    { rewrite Qred_correct, <- Ht. field.
      apply Qnot_eq_sym, Qlt_not_eq, pow2_pos. }
    assert (Hsmall : Qle_bool (2 ^ 1024) (Qred (inject_Z k * 2 ^ u)) = false).
    { destruct (Qle_bool (2 ^ 1024) (Qred (inject_Z k * 2 ^ u))) eqn:E;
        [ | reflexivity ].
      apply Qle_bool_iff in E. rewrite Hr in E. exfalso.
      assert (Hle : (2 ^ (53 + e) <= 2 ^ 1024)%Q) by (apply pow2_le; lia).
      apply (Qlt_irrefl a).
      apply Qlt_le_trans with (2 ^ (53 + e))%Q; [ exact Hlt | ].
      apply Qle_trans with (2 ^ 1024)%Q; assumption. }
    rewrite Hsmall. eexists. split; [ reflexivity | ].
    transitivity (signed (isNegQ q) (Qabs q)); [ | apply signed_abs ].
    unfold signed. fold a. destruct (isNegQ q); now rewrite Hr.
Qed.

(** ** The rounding is near *)

(** The nearest integer is within a half. *)
Lemma nearestEven_near (t : Q) :
  (t - (1 # 2) <= inject_Z (Binary64.nearestEven t) <= t + (1 # 2))%Q.
Proof.
  unfold Binary64.nearestEven.
  pose proof (Qfloor_le t) as Hle. pose proof (Qlt_floor t) as Hlt.
  rewrite inject_Z_plus in Hlt. change (inject_Z 1) with 1%Q in Hlt.
  destruct (t - inject_Z (Qfloor t) ?= 1 # 2)%Q eqn:E.
  - apply Qeq_alt in E.
    destruct (Z.even (Qfloor t)).
    + split; lra.
    + rewrite inject_Z_plus. change (inject_Z 1) with 1%Q. split; lra.
  - apply Qlt_alt in E. split; lra.
  - apply Qgt_alt in E. rewrite inject_Z_plus.
    change (inject_Z 1) with 1%Q. split; lra.
Qed.

(** The quotient by 60 of an integer from 60 to 2^50, rounded to a double,
    has the integer part of the exact quotient: the rounding does not
    reach the next integer. *)
Lemma round64_quotient_60 (z : Z) :
  60 <= z < 2 ^ 50 ->
  exists q', Binary64.round64 (inject_Z z / inject_Z 60) = Fin q' /\
             Qfloor q' = z / 60.
Proof.
  intro Hz. set (x := (inject_Z z / inject_Z 60)%Q).
  assert (Hx : (x == inject_Z z * (1 # 60))%Q) by reflexivity.
  assert (Hz1 : (60 <= inject_Z z)%Q) by (rewrite <- (Zle_Qle 60); lia).
  assert (Hz2 : (inject_Z z < inject_Z (2 ^ 50))%Q) by (rewrite <- Zlt_Qlt; lia).
  assert (Hxpos : (1 <= x)%Q) by (rewrite Hx; lra).
  set (k := z / 60).
  assert (Hk : 60 * k <= z <= 60 * k + 59).
  { subst k. pose proof (Z.mod_pos_bound z 60 ltac:(lia)).
    pose proof (Z.div_mod z 60 ltac:(lia)). lia. }
  assert (Hk1 : (inject_Z k <= x)%Q).
  { rewrite Hx.
    assert (H : (60 * inject_Z k <= inject_Z z)%Q).
    { change 60%Q with (inject_Z 60).
      rewrite <- inject_Z_mult, <- Zle_Qle. lia. }
    lra. }
  assert (Hk2 : (x <= inject_Z k + (59 # 60))%Q).
  { rewrite Hx.
    assert (H : (inject_Z z <= 60 * inject_Z k + 59)%Q).
    { change 60%Q with (inject_Z 60). change 59%Q with (inject_Z 59).
      rewrite <- inject_Z_mult, <- inject_Z_plus, <- Zle_Qle. lia. }
    lra. }
  unfold Binary64.round64.
  assert (Ez : isZeroQ x = false).
  { destruct (isZeroQ x) eqn:E; [ | reflexivity ].
    apply isZeroQ_spec in E. lra. }
  rewrite Ez.
  assert (Eabs : Qabs x = x).
  { unfold x, Qdiv, Qmult, Qinv, inject_Z, Qabs. simpl. f_equal. lia. }
  rewrite Eabs.
  assert (Hneg : isNegQ x = false).
  { unfold x, isNegQ, Qdiv, Qmult, Qinv, inject_Z. simpl. apply Z.ltb_ge. lia. }
  rewrite Hneg. cbn [signed].
  set (b := Binary64.binade (Qnum x) (Zpos (Qden x))).
  assert (Hb : (2 ^ b <= x)%Q) by (apply binade_below; lra).
  assert (Hx45 : (x < 2 ^ 45)%Q).
  { rewrite (pow2_inject 45) by lia. rewrite Hx.
    assert (H : (inject_Z (2 ^ 50) <= 60 * inject_Z (2 ^ 45))%Q).
    { change 60%Q with (inject_Z 60).
      rewrite <- inject_Z_mult, <- Zle_Qle. lia. }
    lra. }
  assert (Hb45 : b < 45).
  { apply pow2_lt_inv. now apply Qle_lt_trans with x. }
  set (u := Z.max (b - 52) (-1074)).
  assert (Hu : -1074 <= u <= -8) by (subst u; lia).
  set (w := - u).
  assert (Hw : (2 ^ u * 2 ^ w == 1)%Q).
  { rewrite <- pow2_add. replace (u + w) with 0 by (subst w; lia). reflexivity. }
  assert (Hwpos : (0 < 2 ^ w)%Q) by apply pow2_pos.
  assert (Hupos : (0 < 2 ^ u)%Q) by apply pow2_pos.
  assert (Hw256 : (256 <= 2 ^ w)%Q).
  { change 256%Q with (2 ^ 8)%Q. apply pow2_le. subst w. lia. }
  set (t := (x / 2 ^ u)%Q).
  assert (Ht : (t == x * 2 ^ w)%Q).
  { unfold t, Qdiv, w. now rewrite Qpower_opp. }
  destruct (nearestEven_near t) as [Hm1 Hm2].
  set (m := Binary64.nearestEven t) in *.
  set (r := Qred (inject_Z m * 2 ^ u)).
  assert (Hr : (r * 2 ^ w == inject_Z m)%Q).
  { unfold r. rewrite Qred_correct, <- Qmult_assoc, Hw. ring. }
  assert (Hlow : (inject_Z k <= r)%Q).
  { assert (Hj : (inject_Z (k * 2 ^ w) <= t)%Q).
    { rewrite inject_Z_mult, <- (pow2_inject w) by (subst w; lia).
      rewrite Ht. apply Qmult_le_compat_r; [ exact Hk1 | lra ]. }
    assert (Hjm : k * 2 ^ w <= m).
    { assert (H : (inject_Z (k * 2 ^ w) - 1 < inject_Z m)%Q) by lra.
      change 1%Q with (inject_Z 1) in H.
      unfold Qminus in H. rewrite <- inject_Z_opp, <- inject_Z_plus in H.
      rewrite <- Zlt_Qlt in H. lia. }
    apply (Qmult_le_r _ _ (2 ^ w)); [ exact Hwpos | ].
    rewrite Hr.
    rewrite (pow2_inject w) by (subst w; lia).
    rewrite <- inject_Z_mult, <- Zle_Qle. exact Hjm. }
  assert (Hhigh : (r < inject_Z k + 1)%Q).
  { apply (Qmult_lt_r _ _ (2 ^ w)); [ exact Hwpos | ].
    rewrite Hr.
    assert (H1 : (t <= (inject_Z k + (59 # 60)) * 2 ^ w)%Q).
    { rewrite Ht. apply Qmult_le_compat_r; [ exact Hk2 | lra ]. }
    assert (H2 : ((inject_Z k + (59 # 60)) * 2 ^ w + (1 # 2)
                  < (inject_Z k + 1) * 2 ^ w)%Q).
    { setoid_replace ((inject_Z k + 1) * 2 ^ w)%Q
        with ((inject_Z k + (59 # 60)) * 2 ^ w + (1 # 60) * 2 ^ w)%Q by ring.
      lra. }
    lra. }
  assert (Hsmall : Qle_bool (2 ^ 1024) r = false).
  { destruct (Qle_bool (2 ^ 1024) r) eqn:E; [ | reflexivity ].
    apply Qle_bool_iff in E. exfalso.
    assert (Hle : (2 ^ 45 <= 2 ^ 1024)%Q) by (apply pow2_le; lia).
    lra. }
  fold u. fold t. fold m. fold r. rewrite Hsmall.
  exists r. split; [ reflexivity | ].
  apply Z.le_antisymm.
  - apply Z.lt_succ_r. rewrite Zlt_Qlt.
    apply Qle_lt_trans with r; [ apply Qfloor_le | ].
    unfold Z.succ. rewrite inject_Z_plus. exact Hhigh.
  - rewrite <- (Qfloor_Z k). now apply Qfloor_resp_le.
Qed.

(** ** Integers *)

Lemma Qred_inject_Z (z : Z) : Qred (inject_Z z) = inject_Z z.
Proof.
  unfold Qred, inject_Z. simpl Qnum. simpl Qden.
  pose proof (Z.ggcd_gcd z 1) as Hg.
  pose proof (Z.ggcd_correct_divisors z 1) as Hd.
  destruct (Z.ggcd z 1) as [g [aa bb]]. simpl in *.
  rewrite Z.gcd_1_r in Hg. subst g. destruct Hd as [Ha Hb].
  f_equal; [ lia | ]. replace bb with 1 by lia. reflexivity.
Qed.

Lemma Qred_idem (x : Q) : Qred (Qred x) = Qred x.
Proof. apply Qred_complete, Qred_correct. Qed.

(** What the rounding returns is in lowest terms. *)
Lemma round64_canonical (q q' : Q) :
  Binary64.round64 q = Fin q' -> Qred q' = q'.
Proof.
  unfold Binary64.round64. destruct (isZeroQ q).
  - intros [= <-]. reflexivity.
  - set (x := (inject_Z _ * _)%Q). generalize (Qred_idem x).
    generalize (Qred x). intros r Hr.
    destruct (Qle_bool (2 ^ 1024) r); [ discriminate | ].
    intros [= <-]. unfold signed. destruct (isNegQ q).
    + rewrite Qred_opp. now f_equal.
    + exact Hr.
Qed.

(** An integer below 2^53 in magnitude is a double. *)
Lemma round64_integer (q : Q) (z : Z) :
  (q == inject_Z z)%Q -> Z.abs z < 2 ^ 53 ->
  Binary64.round64 q = Fin (inject_Z z).
Proof.
  intros Hq Hz.
  destruct (round64_exact q z 0) as (q' & Hr & Eq); [ | assumption | lia | ].
  - rewrite Hq. change (2 ^ 0)%Q with 1%Q. now rewrite Qmult_1_r.
  - rewrite Hr. f_equal.
    rewrite <- (round64_canonical q q' Hr), <- (Qred_inject_Z z).
    apply Qred_complete. now rewrite Eq.
Qed.

Lemma rounded_ofZ (z : Z) :
  Z.abs z < 2 ^ 53 -> Binary64.rounded (ofZ z) = ofZ z.
Proof.
  intro Hz. unfold Binary64.rounded, ofZ. now apply round64_integer.
Qed.

Lemma exact_add_ofZ (a b : Z) : JS.add (ofZ a) (ofZ b) = ofZ (a + b).
Proof.
  unfold ofZ, JS.add, inject_Z, Qplus. simpl. do 2 f_equal. lia.
Qed.

Lemma exact_mul_ofZ (a b : Z) : JS.mul (ofZ a) (ofZ b) = ofZ (a * b).
Proof. reflexivity. Qed.

Lemma exact_sub_ofZ (a b : Z) : JS.sub (ofZ a) (ofZ b) = ofZ (a - b).
Proof.
  unfold ofZ, JS.sub, JS.neg, JS.add, inject_Z, Qplus, Qopp. simpl.
  do 2 f_equal. lia.
Qed.

(** On integers whose sum, difference or product is below 2^53 the
    operations on doubles are the exact ones. *)
Lemma binary64_add_ofZ (a b : Z) :
  Z.abs (a + b) < 2 ^ 53 -> Binary64.add (ofZ a) (ofZ b) = ofZ (a + b).
Proof.
  intro H. unfold Binary64.add. rewrite exact_add_ofZ. now apply rounded_ofZ.
Qed.

Lemma binary64_sub_ofZ (a b : Z) :
  Z.abs (a - b) < 2 ^ 53 -> Binary64.sub (ofZ a) (ofZ b) = ofZ (a - b).
Proof.
  intro H. unfold Binary64.sub. rewrite exact_sub_ofZ. now apply rounded_ofZ.
Qed.

Lemma binary64_mul_ofZ (a b : Z) :
  Z.abs (a * b) < 2 ^ 53 -> Binary64.mul (ofZ a) (ofZ b) = ofZ (a * b).
Proof.
  intro H. unfold Binary64.mul. rewrite exact_mul_ofZ. now apply rounded_ofZ.
Qed.

(** ** The estimator *)

(** For a distance that is a multiple of [2^-j] and a sum below
    [2^(53-j)] the product and the sum of the estimator are exact. *)
Lemma calculateExpectedTime_exact (d : Q) (n : nat) (j a : Z) :
  0 <= j <= 1074 ->
  (d * inject_Z (2 ^ j) == inject_Z a)%Q ->
  Z.abs a + 30 * Z.of_nat n * 2 ^ j < 2 ^ 53 ->
  Binary64.calculateExpectedTime (Fin d) (ofNat n) =
  calculateExpectedTime (Fin d) (ofNat n).
Proof.
  intros Hj Hd Hsafe.
  assert (Hpow : 1 <= 2 ^ j) by (apply (Z.pow_le_mono_r 2 0 j); lia).
  unfold Binary64.calculateExpectedTime, calculateExpectedTime, ofNat.
  rewrite binary64_mul_ofZ by nia.
  rewrite exact_mul_ofZ.
  unfold Binary64.add, ofZ. cbn [JS.add Binary64.rounded round].
  set (s := (d + inject_Z (Z.of_nat n * 30))%Q).
  assert (Hd' : (d == inject_Z a * 2 ^ (- j))%Q).
  { rewrite Qpower_opp, (pow2_inject j) by lia. rewrite <- Hd. field.
    intro H0. unfold Qeq in H0. cbn [Qnum Qden inject_Z] in H0. lia. }
  destruct (round64_exact s (a + Z.of_nat n * 30 * 2 ^ j) (- j))
    as (q' & -> & Eq).
  - unfold s. rewrite Hd', !inject_Z_plus, !inject_Z_mult.
    rewrite <- (pow2_inject j) by lia.
    rewrite Qpower_opp. field.
    apply Qnot_eq_sym, Qlt_not_eq, pow2_pos.
  - lia.
  - lia.
  - assert (E : Qfloor (q' + (1 # 2)) = Qfloor (s + (1 # 2)))
      by (now rewrite Eq).
    cbn [round]. now rewrite E.
Qed.

(** ** Clock strings *)

Lemma smallInteger_ofZ (x : number) :
  smallInteger x = true -> exists z : Z, x = ofZ z /\ Z.abs z <= 2 ^ 40.
Proof.
  destruct x as [| |[n d]]; try discriminate. cbn [smallInteger Qnum Qden].
  intro H. apply andb_true_iff in H as [Hd Hn].
  apply Pos.eqb_eq in Hd. apply Z.leb_le in Hn. subst d.
  now exists n.
Qed.

Lemma clockParts_rounded (time : string) :
  Binary64.clockParts time =
  (Binary64.rounded (fst (clockParts time)),
   option_map Binary64.rounded (snd (clockParts time))).
Proof.
  unfold Binary64.clockParts, clockParts, Binary64.Number.
  destruct (split ":" time) as [|h [|m rest]]; reflexivity.
Qed.

(** A minute that is absent, unparsable or a small integer counts the same
    after rounding. *)
Lemma orZero_rounded (m : option number) :
  smallInteger (orZero m) = true ->
  orZero (option_map Binary64.rounded m) = orZero m.
Proof.
  destruct m as [[|s|q]|]; try reflexivity; try discriminate.
  cbn [option_map Binary64.rounded orZero]. unfold orElse, truthy.
  destruct (isZeroQ q) eqn:Ez; cbn [negb].
  - intros _. unfold Binary64.round64. rewrite Ez. reflexivity.
  - intro H. apply smallInteger_ofZ in H as (z & [= ->] & Hz).
    rewrite (round64_integer (inject_Z z) z) by (reflexivity || lia).
    cbn [truthy]. now rewrite Ez.
Qed.

(** The parts of an integer clock: the hour and the minute it counts for. *)
Lemma integerClock_parts (time : string) :
  integerClock time = true ->
  exists h m : Z,
    fst (clockParts time) = ofZ h /\ orZero (snd (clockParts time)) = ofZ m /\
    Z.abs h <= 2 ^ 40 /\ Z.abs m <= 2 ^ 40.
Proof.
  unfold integerClock. destruct (clockParts time) as [h m]. cbn [fst snd].
  intro H. apply andb_true_iff in H as [Hh Hm].
  apply smallInteger_ofZ in Hh as (zh & -> & Hzh).
  apply smallInteger_ofZ in Hm as (zm & -> & Hzm).
  now exists zh, zm.
Qed.

Lemma abs_ofZ (z : Z) : abs (ofZ z) = ofZ (Z.abs z).
Proof. reflexivity. Qed.

(** Between two integer clocks the exact operations and the operations on
    doubles give the same absolute difference of the minutes of day. *)
Lemma calculateMinutesBetween_integers (a b : string) (h1 m1 h2 m2 : Z) :
  a <> "" -> b <> "" ->
  integerClock a = true -> integerClock b = true ->
  fst (clockParts a) = ofZ h1 -> orZero (snd (clockParts a)) = ofZ m1 ->
  fst (clockParts b) = ofZ h2 -> orZero (snd (clockParts b)) = ofZ m2 ->
  calculateMinutesBetween a b =
    ofZ (Z.abs ((h2 * 60 + m2) - (h1 * 60 + m1))) /\
  Binary64.calculateMinutesBetween a b =
    ofZ (Z.abs ((h2 * 60 + m2) - (h1 * 60 + m1))).
Proof.
  intros Ha Hb Hca Hcb Eh1 Em1 Eh2 Em2.
  destruct (integerClock_parts a Hca) as (x1 & y1 & Xh1 & Xm1 & Bh1 & Bm1).
  destruct (integerClock_parts b Hcb) as (x2 & y2 & Xh2 & Xm2 & Bh2 & Bm2).
  assert (x1 = h1) by (rewrite Eh1 in Xh1; injection Xh1; lia).
  assert (y1 = m1) by (rewrite Em1 in Xm1; injection Xm1; lia).
  assert (x2 = h2) by (rewrite Eh2 in Xh2; injection Xh2; lia).
  assert (y2 = m2) by (rewrite Em2 in Xm2; injection Xm2; lia).
  subst x1 y1 x2 y2.
  assert (Hs1 : smallInteger (orZero (snd (clockParts a))) = true).
  { unfold integerClock in Hca. destruct (clockParts a).
    now apply andb_true_iff in Hca. }
  assert (Hs2 : smallInteger (orZero (snd (clockParts b))) = true).
  { unfold integerClock in Hcb. destruct (clockParts b).
    now apply andb_true_iff in Hcb. }
  apply String.eqb_neq in Ha, Hb.
  split.
  - unfold calculateMinutesBetween. rewrite Ha, Hb. cbn [orb].
    destruct (clockParts a) as [u1 v1], (clockParts b) as [u2 v2].
    cbn [fst snd] in *. subst u1 u2. rewrite Em1, Em2.
    rewrite !exact_mul_ofZ, !exact_add_ofZ, exact_sub_ofZ. apply abs_ofZ.
  - unfold Binary64.calculateMinutesBetween. rewrite Ha, Hb. cbn [orb].
    rewrite !clockParts_rounded.
    rewrite (orZero_rounded _ Hs1), (orZero_rounded _ Hs2).
    rewrite Eh1, Eh2, Em1, Em2.
    rewrite !rounded_ofZ by lia.
    rewrite !binary64_mul_ofZ by lia. rewrite !binary64_add_ofZ by lia.
    rewrite binary64_sub_ofZ by lia. apply abs_ofZ.
Qed.

End Binary64Facts.

(* ================================================================== *)
(** * The duration estimator                                           *)
(* ================================================================== *)

Module EstimatorProofs.
Import JS Types CsvParser NumberFacts.

(** The estimator is [Math.round] of the distance plus thirty minutes a
    stop, on every pair of numbers. *)
Lemma calculateExpectedTime_unfold (d n : number) :
  calculateExpectedTime d n = round (add d (mul (ofZ 30) n)).
Proof.
  unfold calculateExpectedTime. now rewrite (mul_comm n).
Qed.

(** With an exact product and an exact sum the estimator returns the
    integer nearest to [d + 30 * n], the upper one at a tie. *)
Lemma calculateExpectedTime_nearest (d : Q) (n : nat) :
  exists z : Z,
    calculateExpectedTime (Fin d) (ofNat n) = ofZ z /\
    Spec.nearestInteger (d + 30 * inject_Z (Z.of_nat n))%Q z.
Proof.
  exists (Qfloor (d + inject_Z (Z.of_nat n) * inject_Z 30 + (1 # 2))%Q).
  split; [ reflexivity | ].
  pose proof (round_nearest (d + inject_Z (Z.of_nat n) * inject_Z 30)%Q) as H.
  unfold Spec.nearestInteger in *.
  change (inject_Z 30) with 30%Q in *.
  destruct H as [H1 H2]. split; lra.
Qed.

(** The same on doubles. *)
Lemma calculateExpectedTime_unfold64 (d n : number) :
  Binary64.calculateExpectedTime d n
  = round (Binary64.add d (Binary64.mul (ofZ 30) n)).
Proof.
  unfold Binary64.calculateExpectedTime, Binary64.mul.
  now rewrite (mul_comm n).
Qed.

(** C3. For every distance [d] that is not negative and every stop count
    [n], [calculateExpectedTime d n] is [round (d + 30 * n)], with the
    exact operations and with the operations on doubles alike; and when
    [d] is a multiple of [2^-j] and [(d + 30 * n) * 2^j] is below 2^53,
    where the product and the sum are exact in doubles, it is the integer
    nearest to [d + 30 * n], the upper one at a tie. *)
Theorem calculateExpectedTime_rounds (d : Q) (n : nat) (Hd : (0 <= d)%Q) :
  calculateExpectedTime (Fin d) (ofNat n)
  = round (add (Fin d) (mul (ofZ 30) (ofNat n))) /\
  Binary64.calculateExpectedTime (Fin d) (ofNat n)
  = round (Binary64.add (Fin d) (Binary64.mul (ofZ 30) (ofNat n))) /\
  (forall j a : Z,
      0 <= j <= 1074 ->
      (d * inject_Z (2 ^ j) == inject_Z a)%Q ->
      a + 30 * Z.of_nat n * 2 ^ j < 2 ^ 53 ->
      exists z : Z,
        Binary64.calculateExpectedTime (Fin d) (ofNat n) = ofZ z /\
        calculateExpectedTime (Fin d) (ofNat n) = ofZ z /\
        Spec.nearestInteger (d + 30 * inject_Z (Z.of_nat n))%Q z).
Proof.
  split; [ apply calculateExpectedTime_unfold | ].
  split; [ apply calculateExpectedTime_unfold64 | ].
  intros j a Hj Ha Hsafe.
  assert (Hpos : 0 <= a).
  { assert (H : (0 <= inject_Z a)%Q).
    { rewrite <- Ha. apply Qmult_le_0_compat; [ exact Hd | ].
      rewrite <- (Zle_Qle 0). apply Z.pow_nonneg. lia. }
    now rewrite <- (Zle_Qle 0) in H. }
  destruct (calculateExpectedTime_nearest d n) as (z & Hz & Hn).
  exists z.
  rewrite (Binary64Facts.calculateExpectedTime_exact d n j a Hj Ha)
    by (rewrite Z.abs_eq; assumption).
  split; [ exact Hz | ]. split; [ exact Hz | exact Hn ].
Qed.

Lemma calculateExpectedTime_rounds_witness :
  calculateExpectedTime (Fin 12.5%Q) (ofNat 2)
  = round (add (Fin 12.5%Q) (mul (ofZ 30) (ofNat 2))) /\
  Binary64.calculateExpectedTime (Fin 12.5%Q) (ofNat 2)
  = round (Binary64.add (Fin 12.5%Q) (Binary64.mul (ofZ 30) (ofNat 2))) /\
  (forall j a : Z,
      0 <= j <= 1074 ->
      (12.5 * inject_Z (2 ^ j) == inject_Z a)%Q ->
      a + 30 * Z.of_nat 2 * 2 ^ j < 2 ^ 53 ->
      exists z : Z,
        Binary64.calculateExpectedTime (Fin 12.5%Q) (ofNat 2) = ofZ z /\
        calculateExpectedTime (Fin 12.5%Q) (ofNat 2) = ofZ z /\
        Spec.nearestInteger (12.5 + 30 * inject_Z (Z.of_nat 2))%Q z).
Proof.
  apply (calculateExpectedTime_rounds 12.5%Q 2). discriminate.
Defined.

(** The distance 12.5 with two stops gives 73 minutes: the tie goes up. *)
Example calculateExpectedTime_tie :
  Binary64.calculateExpectedTime (Fin 12.5%Q) (ofNat 2) = ofZ 73 /\
  calculateExpectedTime (Fin 12.5%Q) (ofNat 2) = ofZ 73 /\
  Spec.nearestInteger (12.5 + 30 * inject_Z (Z.of_nat 2))%Q 73.
Proof.
  split; [ vm_compute; reflexivity | ].
  split; [ vm_compute; reflexivity | ].
  split; [ discriminate | reflexivity ].
Qed.

(** Where the sum is not a double it is rounded before [Math.round] sees
    it, and the result need not be the integer nearest to the exact sum.
    The double nearest to 0.49999999999999994 is 1/2 - 2^-54; with one
    stop the sum 30.5 - 2^-54 is rounded to 30.5, and the estimator
    returns 31, where the integer nearest to the exact sum is 30. *)
Example calculateExpectedTime_rounds_the_sum_first :
  exists d : Q,
    Binary64.parseFloat "0.49999999999999994" = Fin d /\
    (0 <= d)%Q /\
    Binary64.calculateExpectedTime (Fin d) (ofNat 1) = ofZ 31 /\
    Spec.nearestInteger (d + 30 * inject_Z (Z.of_nat 1))%Q 30 /\
    ~ Spec.nearestInteger (d + 30 * inject_Z (Z.of_nat 1))%Q 31.
Proof.
  exists (9007199254740991 # 18014398509481984).
  split; [ vm_compute; reflexivity | ].
  split; [ discriminate | ].
  split; [ vm_compute; reflexivity | ].
  unfold Spec.nearestInteger.
  split; [ split; [ discriminate | reflexivity ] | ].
  intros [H _]. apply H. reflexivity.
Qed.

End EstimatorProofs.

(* ================================================================== *)
(** * The scenario of the two-row load                                 *)
(* ================================================================== *)

Module ScenarioProofs.
Import JS Types CsvParser.

(** On the scenario input the parser does not return the totals 5, 25, 3
    and 88: the pallets are read from column 10 and the distance from
    column 11. *)
Lemma scenario_claimed_totals_fail :
  ~ Spec.scenarioResult 5 25 3 88 (parseTransportCsv Spec.scenarioText).
Proof.
  intros (l & Hl & _ & _ & Hp & _).
  vm_compute in Hl. injection Hl as <-. vm_compute in Hp. discriminate.
Qed.

(** C2, as the code has it. On the scenario input the parser returns one
    load, numbered 1, with 2 stops, 25 pallets (10 + 15 of column 10), a
    total distance of 8 (5 + 3 of column 11), the return leg 3 of the last
    row and an expected time of round (8 + 3 + 2 * 30) = 71 minutes. *)
Theorem scenario_totals :
  Spec.scenarioResult 25 8 3 71 (parseTransportCsv Spec.scenarioText).
Proof.
  eexists. split; [ vm_compute; reflexivity | ].
  repeat split.
Qed.

End ScenarioProofs.

(* ================================================================== *)
(** * The parser groups the data rows by adjacency                     *)
(* ================================================================== *)

Module ParserProofs.
Import JS Types CsvParser Spec Derived.

(** ** The runs of a list of rows *)

Lemma runs_nonempty (rows : list (list string)) :
  Forall (fun run => run <> []) (runs rows).
Proof.
  induction rows as [|r rest IH]; simpl; [ constructor | ].
  destruct (runs rest) as [|[|r' run] more] eqn:E.
  - repeat constructor. discriminate.
  - repeat constructor. discriminate.
  - inversion IH; subst.
    destruct (String.eqb (rowId r) (rowId r')); repeat constructor;
      try discriminate; assumption.
Qed.

Lemma runs_concat (rows : list (list string)) : List.concat (runs rows) = rows.
Proof.
  induction rows as [|r rest IH]; simpl; [ reflexivity | ].
  pose proof (runs_nonempty rest) as Hne.
  destruct (runs rest) as [|[|r' run] more] eqn:E.
  - simpl in IH. now subst.
  - inversion Hne; subst. congruence.
  - destruct (String.eqb (rowId r) (rowId r')); simpl in *; now rewrite IH.
Qed.

Lemma runs_share_id (rows : list (list string)) :
  Forall (fun run => sharesId (runId run) run) (runs rows).
Proof.
  induction rows as [|r rest IH]; simpl; [ constructor | ].
  destruct (runs rest) as [|[|r' run] more] eqn:E.
  - repeat constructor.
  - repeat constructor.
  - inversion IH as [|? ? Hrun Hmore]; subst.
    destruct (String.eqb (rowId r) (rowId r')) eqn:Eid.
    + apply String.eqb_eq in Eid. constructor; [ | assumption ].
      unfold sharesId in *. simpl in *. constructor; [ reflexivity | ].
      now rewrite Eid.
    + constructor; [ repeat constructor | ]. now constructor.
Qed.

Lemma runs_maximal (rows : list (list string)) :
  LocallySorted (fun a b => runId a <> runId b) (runs rows).
Proof.
  induction rows as [|r rest IH]; simpl; [ constructor | ].
  destruct (runs rest) as [|[|r' run] more] eqn:E; try constructor.
  destruct (String.eqb (rowId r) (rowId r')) eqn:Eid.
  - apply String.eqb_eq in Eid.
    inversion IH as [| |? b l Hl Hab]; subst; constructor; try assumption.
    simpl in *. now rewrite Eid.
  - apply String.eqb_neq in Eid. constructor; assumption.
Qed.

(** ** The load of a run *)

Lemma feed_loadNo (rows : list (list string)) (c : Partial.t) :
  Partial.loadNo (feed c rows) = Partial.loadNo c.
Proof.
  revert c. induction rows as [|r rest IH]; intro c; simpl; [ reflexivity | ].
  unfold feed in *. simpl. now rewrite IH.
Qed.

Lemma feed_stops (rows : list (list string)) (c : Partial.t) :
  Partial.stops (feed c rows) = (Partial.stops c ++ map stopOfColumns rows)%list.
Proof.
  revert c. induction rows as [|r rest IH]; intro c; simpl.
  - now rewrite app_nil_r.
  - unfold feed in *. simpl. rewrite IH. simpl. now rewrite <- app_assoc.
Qed.

Lemma feed_totalReturnLeg (rows : list (list string)) (c : Partial.t) (r : list string) :
  Partial.totalReturnLeg (feed c (rows ++ [r])%list) = returnLeg (stopOfColumns r).
Proof.
  unfold feed. now rewrite fold_left_app.
Qed.

Lemma loadOfRun_loadNo (run : list (list string)) :
  loadNo (loadOfRun run) = runId run \/ run = [].
Proof.
  destruct run as [|r rest]; [ now right | left ].
  unfold loadOfRun. simpl. now rewrite feed_loadNo.
Qed.

Lemma loadOfRun_stops (run : list (list string)) :
  run <> [] -> stops (loadOfRun run) = map stopOfColumns run.
Proof.
  destruct run as [|r rest]; [ congruence | intros _ ].
  unfold loadOfRun. simpl. now rewrite feed_stops.
Qed.

Lemma loadOfRun_totalReturnLeg (run : list (list string)) :
  run <> [] ->
  totalReturnLeg (loadOfRun run) = returnLeg (stopOfColumns (last run [])).
Proof.
  intro Hne. destruct (exists_last Hne) as (rows & r & ->).
  rewrite last_last. destruct rows as [|r0 rows]; [ reflexivity | ].
  unfold loadOfRun. simpl tl. simpl. apply feed_totalReturnLeg.
Qed.

(** ** The scan *)

Lemma isNewLoad_rowId (cols : list string) :
  isNewLoad cols = true -> rowId cols <> "".
Proof.
  unfold isNewLoad, rowId, truthyStr.
  destruct (nth_error cols 0) as [id|]; simpl; [ | discriminate ].
  destruct (String.eqb id "") eqn:E; simpl; [ discriminate | ].
  intros _. now apply String.eqb_neq.
Qed.

Lemma scanLine_scanRow (st : scan) (line : string) :
  scanLine st line =
  if isNewLoad (columns line) then scanRow st (columns line) else st.
Proof.
  destruct st as [loads [c|]]; unfold scanLine, scanRow, rowId;
    destruct (isNewLoad (columns line)); try reflexivity.
  destruct (String.eqb (Partial.loadNo c) _); reflexivity.
Qed.

Lemma scan_lines_rows (lines : list string) (st : scan) :
  fold_left scanLine lines st =
  fold_left scanRow (filter isNewLoad (map columns lines)) st.
Proof.
  revert st. induction lines as [|line rest IH]; intro st; simpl; [ reflexivity | ].
  rewrite scanLine_scanRow.
  destruct (isNewLoad (columns line)); simpl; apply IH.
Qed.

Lemma pushCurrent_some (loads : list Load) (c : Partial.t) :
  Partial.loadNo c <> "" -> pushCurrent loads (Some c) = (loads ++ [finalize c])%list.
Proof.
  intro H. unfold pushCurrent, truthyStr.
  apply String.eqb_neq in H. now rewrite H.
Qed.

(** The runs of a row and what follows it are what the load the row
    opens still has to produce. *)
Lemma runs_cons_pending (r : list string) (rest : list (list string)) :
  map loadOfRun (runs (r :: rest)) =
  pending (openLoad (rowId r) r (stopOfColumns r)) (runs rest).
Proof.
  simpl. pose proof (runs_nonempty rest) as Hne.
  destruct (runs rest) as [|[|r' run] more] eqn:E.
  - reflexivity.
  - inversion Hne; subst. congruence.
  - unfold pending. simpl Partial.loadNo. simpl runId.
    destruct (String.eqb (rowId r) (rowId r')); reflexivity.
Qed.

Lemma scanRow_some (loads : list Load) (c : Partial.t) (r : list string) :
  scanRow (loads, Some c) r =
  if String.eqb (Partial.loadNo c) (rowId r)
  then (loads, Some (addStop c r (stopOfColumns r)))
  else (pushCurrent loads (Some c),
        Some (openLoad (rowId r) r (stopOfColumns r))).
Proof. reflexivity. Qed.

Lemma scan_pending (rows : list (list string)) :
  Forall (fun r => rowId r <> "") rows ->
  forall (loads : list Load) (c : Partial.t),
    Partial.loadNo c <> "" ->
    (let '(loads', cur) := fold_left scanRow rows (loads, Some c) in
     pushCurrent loads' cur) = (loads ++ pending c (runs rows))%list.
Proof.
  induction 1 as [|r rest Hr Hrest IH]; intros loads c Hc.
  - simpl. now apply pushCurrent_some.
  - cbn [fold_left]. rewrite scanRow_some.
    destruct (String.eqb (Partial.loadNo c) (rowId r)) eqn:Eid.
    + apply String.eqb_eq in Eid.
      rewrite IH by (simpl; assumption). f_equal.
      simpl runs. pose proof (runs_nonempty rest) as Hne.
      destruct (runs rest) as [|[|r' run] more] eqn:E.
      * unfold pending. simpl runId. rewrite Eid, String.eqb_refl. reflexivity.
      * inversion Hne; subst. congruence.
      * destruct (String.eqb (rowId r) (rowId r')) eqn:Eid'.
        -- apply String.eqb_eq in Eid'. unfold pending. simpl Partial.loadNo.
           simpl runId. rewrite Eid, <- Eid', String.eqb_refl. reflexivity.
        -- unfold pending. simpl Partial.loadNo. simpl runId.
           rewrite Eid, Eid', String.eqb_refl. reflexivity.
    + rewrite pushCurrent_some by assumption.
      rewrite IH by (simpl; assumption).
      rewrite <- app_assoc. f_equal. simpl app.
      rewrite <- runs_cons_pending.
      assert (Hhd : exists run more, runs (r :: rest) = run :: more /\ runId run = rowId r).
      { simpl. destruct (runs rest) as [|[|r' run] more]; try (now eexists _, _).
        destruct (String.eqb (rowId r) (rowId r')); now eexists _, _. }
      destruct Hhd as (run & more & -> & Hid).
      unfold pending. now rewrite Hid, Eid.
Qed.

(** The parser returns the loads of the maximal runs of the data rows, in
    order. *)
Lemma parse_runs (csvText : string) :
  parseTransportCsv csvText = map loadOfRun (runs (dataRows csvText)).
Proof.
  unfold parseTransportCsv, dataRows. rewrite scan_lines_rows.
  set (rows := filter isNewLoad (map columns (split "010" csvText))).
  assert (Hrows : Forall (fun r => rowId r <> "") rows).
  { apply Forall_forall. intros r Hin. apply filter_In in Hin.
    now apply isNewLoad_rowId. }
  destruct rows as [|r rest]; [ reflexivity | ].
  inversion Hrows; subst.
  rewrite runs_cons_pending. cbn [fold_left].
  change (scanRow ([], None) r)
    with (@nil Load, Some (openLoad (rowId r) r (stopOfColumns r))).
  apply (scan_pending rest); assumption.
Qed.

Lemma Forall2_map_of {A B : Type} (P : A -> B -> Prop) (f : A -> B) (l : list A) :
  Forall (fun x => P x (f x)) l -> Forall2 P l (map f l).
Proof.
  induction 1; simpl; constructor; assumption.
Qed.

Lemma LocallySorted_map {A B : Type} (R : B -> B -> Prop) (f : A -> B) (l : list A) :
  LocallySorted (fun x y => R (f x) (f y)) l -> LocallySorted R (map f l).
Proof.
  induction 1; simpl; constructor; assumption.
Qed.

Lemma runs_well_formed (rows : list (list string)) :
  Forall (fun run => run <> [] /\ sharesId (runId run) run) (runs rows).
Proof.
  pose proof (runs_nonempty rows) as H1. pose proof (runs_share_id rows) as H2.
  rewrite Forall_forall in *. intros run Hin. split; auto.
Qed.

(** C1. The parser groups the data rows strictly by adjacency of the load
    id: the maximal runs of consecutive data rows with one id (they
    concatenate to the data rows, each is non-empty and shares its id, and
    two neighbouring runs have different ids) correspond one to one and in
    order to the loads returned, the load of a run carrying the id of the
    run and one stop per row of the run in row order.  An id that comes
    back after another id starts a new run and so a new load. *)
Theorem parse_groups_by_adjacency (csvText : string) :
  let blocks := runs (dataRows csvText) in
  List.concat blocks = dataRows csvText /\
  Forall (fun run => run <> [] /\ sharesId (runId run) run) blocks /\
  LocallySorted (fun a b => runId a <> runId b) blocks /\
  Forall2 (fun run l => loadNo l = runId run /\
                        stops l = map stopOfColumns run)
          blocks (parseTransportCsv csvText).
Proof.
  intro blocks. subst blocks.
  split; [ apply runs_concat | ].
  split; [ apply runs_well_formed | ].
  split; [ apply runs_maximal | ].
  rewrite parse_runs. apply Forall2_map_of.
  pose proof (runs_nonempty (dataRows csvText)) as Hne.
  rewrite Forall_forall in *. intros run Hin. specialize (Hne run Hin).
  split.
  - destruct (loadOfRun_loadNo run); [ assumption | contradiction ].
  - now apply loadOfRun_stops.
Qed.

(** Rows of load 1, then of load 2, then of load 1 again: three loads, the
    first and the last both numbered 1, with two stops and one stop. *)
Example parse_recurring_id_not_merged :
  map (fun l => (loadNo l, List.length (stops l)))
      (parseTransportCsv ("1,a" ++ newline ++ "1,b" ++ newline ++
                          "2,c" ++ newline ++ "1,d"))
  = [("1", 2%nat); ("2", 1%nat); ("1", 1%nat)].
Proof. vm_compute. reflexivity. Qed.

(** A line that is not a data row does not end a run. *)
Example parse_skips_other_lines :
  map (fun l => (loadNo l, List.length (stops l)))
      (parseTransportCsv ("Load,Route" ++ newline ++ "1,a" ++ newline ++
                          newline ++ "1,b"))
  = [("1", 2%nat)].
Proof. vm_compute. reflexivity. Qed.

(** C4. The [totalReturnLeg] of the load of a run of data rows is the
    return leg of the last row of the run. *)
Theorem totalReturnLeg_is_last_row (csvText : string) :
  Forall2 (fun run l =>
             totalReturnLeg l = returnLeg (stopOfColumns (last run [])))
          (runs (dataRows csvText)) (parseTransportCsv csvText).
Proof.
  rewrite parse_runs. apply Forall2_map_of.
  pose proof (runs_nonempty (dataRows csvText)) as Hne.
  rewrite Forall_forall in *. intros run Hin.
  apply loadOfRun_totalReturnLeg. now apply Hne.
Qed.

(** Two rows of one load with return legs 7 and 2: the load keeps 2, not
    the sum 9. *)
Example totalReturnLeg_not_summed :
  map totalReturnLeg
      (parseTransportCsv ("1,,,,,,,,,,,,7" ++ newline ++ "1,,,,,,,,,,,,2"))
  = [ofZ 2].
Proof. vm_compute. reflexivity. Qed.

(** C9. Every load the parser returns has at least one stop. *)
Theorem parse_stops_nonempty (csvText : string) :
  Forall (fun l => (1 <= List.length (stops l))%nat) (parseTransportCsv csvText).
Proof.
  rewrite parse_runs. apply Forall_map.
  pose proof (runs_nonempty (dataRows csvText)) as Hne.
  rewrite Forall_forall in *. intros run Hin. specialize (Hne run Hin).
  rewrite loadOfRun_stops by assumption. rewrite length_map.
  destruct run; [ contradiction | simpl; lia ].
Qed.

(** C10. Two consecutive loads of the list the parser returns have
    different [loadNo]. *)
Theorem parse_neighbours_differ (csvText : string) :
  LocallySorted (fun a b => loadNo a <> loadNo b) (parseTransportCsv csvText).
Proof.
  rewrite parse_runs. apply LocallySorted_map.
  pose proof (runs_nonempty (dataRows csvText)) as Hne.
  pose proof (runs_maximal (dataRows csvText)) as Hmax.
  induction Hmax as [|run|run run' more Hmore IH Hneq]; constructor.
  - apply IH. now inversion Hne.
  - inversion Hne as [|? ? H1 H2]; subst. inversion H2; subst.
    destruct (loadOfRun_loadNo run) as [->|]; [ | contradiction ].
    destruct (loadOfRun_loadNo run') as [->|]; [ | contradiction ].
    assumption.
Qed.

End ParserProofs.

(* ================================================================== *)
(** * The time arithmetic                                              *)
(* ================================================================== *)

Module TimeProofs.
Import JS Types CsvParser Spec Derived NumberFacts.

Lemma Qabs_minus_eq (a b : Q) : (Qabs (a + - b) = Qabs (b + - a))%Q.
Proof.
  destruct a as [an ad], b as [bn bd]. unfold Qabs, Qplus, Qopp. simpl.
  f_equal; [ lia | apply Pos.mul_comm ].
Qed.

Lemma abs_sub_comm (x y : number) : abs (sub x y) = abs (sub y x).
Proof.
  destruct x as [|s|a], y as [|t|b]; simpl; try reflexivity.
  - destruct s, t; reflexivity.
  - f_equal. apply Qabs_minus_eq.
Qed.

(** The minute of day the code computes from the parts of a clock string
    is the one the specification describes. *)
Lemma clockParts_toMinutesOfDay (time : string) :
  (let '(h, m) := clockParts time in add (mul h (ofZ 60)) (orZero m))
  = toMinutesOfDay time.
Proof.
  unfold clockParts, toMinutesOfDay.
  destruct (split ":" time) as [|h [|m rest]]; simpl; try reflexivity.
  now rewrite orElse_Number.
Qed.

Lemma calculateMinutesBetween_spec (a b : string) :
  calculateMinutesBetween a b = minutesBetween a b.
Proof.
  unfold calculateMinutesBetween, minutesBetween.
  destruct (String.eqb a "" || String.eqb b ""); [ reflexivity | ].
  rewrite <- (clockParts_toMinutesOfDay a), <- (clockParts_toMinutesOfDay b).
  destruct (clockParts a) as [h1 m1], (clockParts b) as [h2 m2].
  apply abs_sub_comm.
Qed.

(** ** Well-formed clock strings *)

Lemma numberEqb_eq (x y : number) : numberEqb x y = true -> x = y.
Proof.
  destruct x as [|s|[an ad]], y as [|t|[bn bd]]; simpl; try discriminate.
  - reflexivity.
  - intro H. apply Bool.eqb_prop in H. now subst.
  - intro H. apply andb_true_iff in H as [H1 H2].
    apply Z.eqb_eq in H1. apply Pos.eqb_eq in H2. now subst.
Qed.

Lemma clocks_checked :
  forallb (fun p => forallb (fun h => forallb (clockChecked p h) (seq 0 60))
                            (seq 0 24))
          [false; true] = true.
Proof. vm_compute. reflexivity. Qed.

(** The minute of day of a clock string "H:MM" or "HH:MM" of the day is
    60 H + MM. *)
Lemma toMinutesOfDay_clock (padded : bool) (h m : nat) :
  (h < 24)%nat -> (m < 60)%nat ->
  toMinutesOfDay (clock padded h m) = ofZ (minuteOfDayOf h m) /\
  clock padded h m <> "".
Proof.
  intros Hh Hm. pose proof clocks_checked as H.
  rewrite forallb_forall in H.
  assert (Hp : In padded [false; true]) by (destruct padded; simpl; auto).
  specialize (H padded Hp). rewrite forallb_forall in H.
  specialize (H h). rewrite in_seq in H. specialize (H ltac:(lia)).
  rewrite forallb_forall in H.
  specialize (H m). rewrite in_seq in H. specialize (H ltac:(lia)).
  unfold clockChecked in H. apply andb_true_iff in H as [H1 H2].
  split; [ now apply numberEqb_eq | ].
  apply negb_true_iff in H2. now apply String.eqb_neq.
Qed.

Lemma abs_sub_ofZ (x y : Z) : abs (sub (ofZ x) (ofZ y)) = ofZ (Z.abs (x - y)).
Proof.
  unfold ofZ, sub, neg, add, abs, inject_Z, Qabs, Qplus, Qopp. simpl.
  do 2 f_equal. lia.
Qed.

(** Between two clock strings of the day the code returns the absolute
    difference of their minutes of day, an integer between 0 and 1439. *)
Lemma calculateMinutesBetween_clocks (p1 p2 : bool) (h1 m1 h2 m2 : nat) :
  (h1 < 24)%nat -> (m1 < 60)%nat -> (h2 < 24)%nat -> (m2 < 60)%nat ->
  calculateMinutesBetween (clock p1 h1 m1) (clock p2 h2 m2) =
  ofZ (Z.abs (minuteOfDayOf h2 m2 - minuteOfDayOf h1 m1)).
Proof.
  intros Hh1 Hm1 Hh2 Hm2.
  destruct (toMinutesOfDay_clock p1 h1 m1 Hh1 Hm1) as [E1 N1].
  destruct (toMinutesOfDay_clock p2 h2 m2 Hh2 Hm2) as [E2 N2].
  rewrite calculateMinutesBetween_spec. unfold minutesBetween.
  apply String.eqb_neq in N1, N2. rewrite N1, N2. simpl orb. cbv iota.
  rewrite E1, E2, abs_sub_comm. apply abs_sub_ofZ.
Qed.

(** C5. [calculateMinutesBetween a b] is the absolute difference of the
    minutes of day of [a] and [b] (hour * 60 + minute, read as the
    specification's [toMinutesOfDay] reads them) when neither string is
    empty, and 0 when one is; between two clock strings "H:MM" or "HH:MM"
    of the day it is the integer [|(60 h2 + m2) - (60 h1 + m1)|]; nothing
    is adjusted across midnight, so that "23:50" and "00:10" are 1420
    minutes apart. *)
Theorem calculateMinutesBetween_abs_difference (a b : string) :
  calculateMinutesBetween a b =
    (if String.eqb a "" || String.eqb b "" then ofZ 0
     else abs (sub (toMinutesOfDay a) (toMinutesOfDay b))) /\
  (forall (p1 p2 : bool) (h1 m1 h2 m2 : nat),
      (h1 < 24)%nat -> (m1 < 60)%nat -> (h2 < 24)%nat -> (m2 < 60)%nat ->
      calculateMinutesBetween (clock p1 h1 m1) (clock p2 h2 m2) =
      ofZ (Z.abs (minuteOfDayOf h2 m2 - minuteOfDayOf h1 m1))) /\
  calculateMinutesBetween "23:50" "00:10" = ofZ 1420 /\
  calculateMinutesBetween "" b = ofZ 0 /\
  calculateMinutesBetween a "" = ofZ 0.
Proof.
  split; [ apply calculateMinutesBetween_spec | ].
  split; [ apply calculateMinutesBetween_clocks | ].
  split; [ vm_compute; reflexivity | ].
  split; [ reflexivity | ].
  unfold calculateMinutesBetween. now rewrite orb_true_r.
Qed.

End TimeProofs.

(* ================================================================== *)
(** * Malformed clock strings                                          *)
(* ================================================================== *)

Module MalformedClockProofs.
Import JS Types CsvParser Spec Quantities NumberFacts.

(** With an hour that is not a numeric literal the result is [NaN], which
    is not a non-negative integer. *)
Lemma calculateMinutesBetween_unparsable_hour :
  calculateMinutesBetween "abc" "1:00" = NaN /\
  ~ (forall a b : string,
        a <> "" -> b <> "" ->
        nonNegativeInteger (calculateMinutesBetween a b) = true).
Proof.
  split; [ vm_compute; reflexivity | ].
  intro H. specialize (H "abc" "1:00").
  vm_compute in H. discriminate H; discriminate.
Qed.

(** A minute that is a numeric literal with a fraction is kept as it is:
    the result is then not an integer. *)
Example calculateMinutesBetween_fractional_minute :
  calculateMinutesBetween "1:7.5" "0:00" = Fin (135 # 2) /\
  nonNegativeInteger (calculateMinutesBetween "1:7.5" "0:00") = false.
Proof. split; vm_compute; reflexivity. Qed.

Lemma isZeroQ_eq (q : Q) : isZeroQ q = true -> (q == 0)%Q.
Proof.
  unfold isZeroQ, Qeq. intro H. apply Z.eqb_eq in H. rewrite H. reflexivity.
Qed.

(** [m || 0] is finite when [m] is not infinite, with the value of [m] or
    0. *)
Lemma orZero_finite (m : option number) :
  notInfinite m -> exists q, orZero m = Fin q /\ (q == minuteValue m)%Q.
Proof.
  destruct m as [[|s|q]|]; simpl; intro H; try contradiction;
    try (exists (inject_Z 0); split; reflexivity).
  unfold orElse, truthy. destruct (isZeroQ q) eqn:E; simpl.
  - exists (inject_Z 0). split; [ reflexivity | ].
    apply isZeroQ_eq in E. now rewrite E.
  - exists q. split; reflexivity.
Qed.

(** The minute an integer clock counts for is the value of its minute
    component, 0 when the component is absent or unparsable. *)
Lemma orZero_minuteValue (m : option number) (z : Z) :
  orZero m = ofZ z -> (inject_Z z == minuteValue m)%Q.
Proof.
  intro H.
  assert (Hm : notInfinite m).
  { destruct m as [[|s|q]|]; simpl; try exact I. discriminate H. }
  destruct (orZero_finite m Hm) as (q & Hq & Eq).
  rewrite H in Hq. injection Hq as <-. exact Eq.
Qed.

Lemma nonNegativeInteger_abs (z : Z) :
  nonNegativeInteger (ofZ (Z.abs z)) = true.
Proof.
  unfold nonNegativeInteger, ofZ. rewrite Qfloor_Z.
  apply andb_true_iff. split.
  - apply Qle_bool_iff. rewrite <- (Zle_Qle 0). apply Z.abs_nonneg.
  - apply Qeq_bool_iff. reflexivity.
Qed.

(** C6, as the code has it. For two non-empty strings whose hour
    components read as integers of magnitude at most 2^40 and whose
    minute components are absent, unparsable or such integers,
    [calculateMinutesBetween] returns the non-negative integer
    [|(h2 * 60 + m2) - (h1 * 60 + m1)|], in which an absent or unparsable
    minute counts as 0; the operations on doubles are exact there and give
    the same. *)
Theorem calculateMinutesBetween_integer_clocks
  (a b : string) (Ha : a <> "") (Hb : b <> "")
  (Hca : integerClock a = true) (Hcb : integerClock b = true) :
  exists h1 m1 h2 m2 : Z,
    fst (clockParts a) = ofZ h1 /\
    (inject_Z m1 == minuteValue (snd (clockParts a)))%Q /\
    fst (clockParts b) = ofZ h2 /\
    (inject_Z m2 == minuteValue (snd (clockParts b)))%Q /\
    calculateMinutesBetween a b =
      ofZ (Z.abs ((h2 * 60 + m2) - (h1 * 60 + m1))) /\
    Binary64.calculateMinutesBetween a b = calculateMinutesBetween a b /\
    nonNegativeInteger (calculateMinutesBetween a b) = true.
Proof.
  destruct (Binary64Facts.integerClock_parts a Hca) as (h1 & m1 & Eh1 & Em1 & _).
  destruct (Binary64Facts.integerClock_parts b Hcb) as (h2 & m2 & Eh2 & Em2 & _).
  destruct (Binary64Facts.calculateMinutesBetween_integers
              a b h1 m1 h2 m2 Ha Hb Hca Hcb Eh1 Em1 Eh2 Em2) as [Hx Hy].
  exists h1, m1, h2, m2.
  split; [ exact Eh1 | ]. split; [ now apply orZero_minuteValue | ].
  split; [ exact Eh2 | ]. split; [ now apply orZero_minuteValue | ].
  split; [ exact Hx | ]. split; [ now rewrite Hx, Hy | ].
  rewrite Hx. apply nonNegativeInteger_abs.
Qed.

Lemma calculateMinutesBetween_integer_clocks_witness :
  exists h1 m1 h2 m2 : Z,
    fst (clockParts "7") = ofZ h1 /\
    (inject_Z m1 == minuteValue (snd (clockParts "7")))%Q /\
    fst (clockParts "9:x") = ofZ h2 /\
    (inject_Z m2 == minuteValue (snd (clockParts "9:x")))%Q /\
    calculateMinutesBetween "7" "9:x" =
      ofZ (Z.abs ((h2 * 60 + m2) - (h1 * 60 + m1))) /\
    Binary64.calculateMinutesBetween "7" "9:x" =
      calculateMinutesBetween "7" "9:x" /\
    nonNegativeInteger (calculateMinutesBetween "7" "9:x") = true.
Proof.
  apply (calculateMinutesBetween_integer_clocks "7" "9:x");
    try discriminate; vm_compute; reflexivity.
Defined.

(** Beyond such hours the product by 60 can overflow: hours that are
    finite then give a result that is infinite, or [NaN]. *)
Example calculateMinutesBetween_overflow :
  Binary64.calculateMinutesBetween "1e308" "0" = Inf false /\
  Binary64.calculateMinutesBetween "1e308" "1e308" = NaN.
Proof. split; vm_compute; reflexivity. Qed.

(** A missing minute and an unparsable minute both count as 0. *)
Example calculateMinutesBetween_partial_clocks :
  calculateMinutesBetween "7" "9:x" = ofZ 120.
Proof. vm_compute. reflexivity. Qed.

End MalformedClockProofs.

(* ================================================================== *)
(** * Sorting with a comparator                                        *)
(* ================================================================== *)

Module SortFacts.
Import JS Spec.

Section Comparator.
Context {A : Type} (cmp : A -> A -> number).

Lemma insertBy_perm (x : A) (l : list A) :
  Permutation (insertBy cmp x l) (x :: l).
Proof.
  induction l as [|y l IH]; simpl; [ reflexivity | ].
  destruct (gt0 (cmp x y)); [ | reflexivity ].
  rewrite IH. apply perm_swap.
Qed.

Lemma sort_perm (l : list A) : Permutation (sort cmp l) l.
Proof.
  induction l as [|x l IH]; simpl; [ reflexivity | ].
  fold (sort cmp l). rewrite insertBy_perm. now constructor.
Qed.

Lemma sort_In (x : A) (l : list A) : In x (sort cmp l) <-> In x l.
Proof.
  split; apply Permutation_in; [ | symmetry ]; apply sort_perm.
Qed.

(** The comparator agrees with an order [R] on the values that satisfy
    [dom]: a positive result puts the second argument first. *)
Variable R : A -> A -> Prop.
Variable dom : A -> Prop.
Hypothesis positive_after :
  forall x y, dom x -> dom y -> gt0 (cmp x y) = true -> R y x.
Hypothesis other_before :
  forall x y, dom x -> dom y -> gt0 (cmp x y) = false -> R x y.

Lemma insertBy_HdRel (x y : A) (l : list A) :
  R y x -> HdRel R y l -> HdRel R y (insertBy cmp x l).
Proof.
  intros Hyx Hl. destruct l as [|z l]; simpl; [ now constructor | ].
  inversion Hl; subst. destruct (gt0 (cmp x z)); now constructor.
Qed.

Lemma insertBy_sorted (x : A) (l : list A) :
  dom x -> Forall dom l -> Sorted R l -> Sorted R (insertBy cmp x l).
Proof.
  intros Hx Hdom Hs. induction Hs as [|y l Hl IH Hhd]; simpl.
  - repeat constructor.
  - inversion Hdom as [|? ? Hy Hdl]; subst.
    destruct (gt0 (cmp x y)) eqn:E.
    + constructor; [ now apply IH | ].
      apply insertBy_HdRel; [ now apply positive_after | assumption ].
    + constructor; [ now constructor | ].
      constructor. now apply other_before.
Qed.

Lemma sort_sorted (l : list A) : Forall dom l -> Sorted R (sort cmp l).
Proof.
  induction 1 as [|x l Hx Hl IH]; simpl; [ constructor | ].
  fold (sort cmp l). apply insertBy_sorted; try assumption.
  rewrite Forall_forall in *. intros y Hy. apply Hl. now apply sort_In.
Qed.
End Comparator.

(** ** The order of the numbers *)

Lemma gt0_sub_true (u v : number) :
  isNaN u = false -> isNaN v = false ->
  gt0 (sub u v) = true -> lessEq v u = true.
Proof.
  destruct u as [|s|a], v as [|t|b]; simpl; try discriminate; intros _ _.
  - destruct s, t; simpl; congruence.
  - destruct s; simpl; congruence.
  - destruct t; simpl; congruence.
  - unfold isPosQ, Qle_bool. destruct a as [an ad], b as [bn bd]. simpl.
    intro H. apply Z.ltb_lt in H. apply Z.leb_le. lia.
Qed.

Lemma gt0_sub_false (u v : number) :
  isNaN u = false -> isNaN v = false ->
  gt0 (sub u v) = false -> lessEq u v = true.
Proof.
  destruct u as [|s|a], v as [|t|b]; simpl; try discriminate; intros _ _.
  - destruct s, t; simpl; congruence.
  - destruct s; simpl; congruence.
  - destruct t; simpl; congruence.
  - unfold isPosQ, Qle_bool. destruct a as [an ad], b as [bn bd]. simpl.
    intro H. apply Z.ltb_ge in H. apply Z.leb_le. lia.
Qed.

Lemma lessEq_trans (a b c : number) :
  lessEq a b = true -> lessEq b c = true -> lessEq a c = true.
Proof.
  destruct a as [|s|x], b as [|t|y], c as [|u|z]; simpl;
    try discriminate; try (destruct s, t, u; simpl; congruence);
    try (destruct s, t; simpl; congruence);
    try (destruct s, u; simpl; congruence);
    try (destruct t, u; simpl; congruence);
    try (destruct s; simpl; congruence);
    try (destruct t; simpl; congruence);
    try (destruct u; simpl; congruence).
  rewrite !Qle_bool_iff. apply Qle_trans.
Qed.

Lemma lessEq_not_NaN (a b : number) :
  lessEq a b = true -> isNaN a = false /\ isNaN b = false.
Proof.
  destruct a, b; simpl; try discriminate; auto.
Qed.


(** Sorting by a numeric key, descending, when no key is [NaN]. *)
Lemma sort_descending {A : Type} (key : A -> number) (l : list A) :
  Forall (fun x => isNaN (key x) = false) l ->
  StronglySorted (fun a b => lessEq (key b) (key a) = true)
                 (sort (fun a b => sub (key b) (key a)) l).
Proof.
  intro H. apply Sorted_StronglySorted.
  - intros a b c Hab Hbc. eapply lessEq_trans; eassumption.
  - apply (sort_sorted _ _ (fun x => isNaN (key x) = false)); try assumption.
    + intros x y Hx Hy. now apply gt0_sub_true.
    + intros x y Hx Hy. now apply gt0_sub_false.
Qed.

End SortFacts.

(* ================================================================== *)
(** * Objects used as dictionaries                                     *)
(* ================================================================== *)

Module ObjectFacts.
Import JS.

Section Object.
Context {V : Type}.
Implicit Types (o : object V) (k : string) (v : V).

Lemma get_In o k v : get o k = Some v -> In (k, v) o.
Proof.
  induction o as [|[k' v'] o IH]; simpl; [ discriminate | ].
  destruct (String.eqb k' k) eqn:E.
  - apply String.eqb_eq in E. intros [= ->]. left. now subst.
  - intro H. right. now apply IH.
Qed.

Lemma get_None o k : get o k = None -> ~ In k (map fst o).
Proof.
  induction o as [|[k' v'] o IH]; simpl; [ tauto | ].
  destruct (String.eqb k' k) eqn:E; [ discriminate | ].
  apply String.eqb_neq in E. intros H [Hk | Hin]; [ contradiction | ].
  now apply IH.
Qed.

Lemma set_keys o k v :
  map fst (set o k v) = map fst o \/
  (~ In k (map fst o) /\ map fst (set o k v) = (map fst o ++ [k])%list).
Proof.
  induction o as [|[k' v'] o IH]; simpl.
  - right. split; [ tauto | reflexivity ].
  - destruct (String.eqb k' k) eqn:E; simpl; [ now left | ].
    apply String.eqb_neq in E.
    destruct IH as [-> | [Hn ->]]; [ now left | right ].
    split; [ | reflexivity ]. intros [? | ?]; contradiction.
Qed.

Lemma set_key_In o k v : In k (map fst (set o k v)).
Proof.
  induction o as [|[k' v'] o IH]; simpl; [ now left | ].
  destruct (String.eqb k' k) eqn:E; simpl.
  - left. now apply String.eqb_eq.
  - now right.
Qed.

Lemma set_keys_incl o k v k' :
  In k' (map fst o) -> In k' (map fst (set o k v)).
Proof.
  intro H. destruct (set_keys o k v) as [-> | [_ ->]]; [ assumption | ].
  apply in_or_app. now left.
Qed.

Lemma set_NoDup o k v : NoDup (map fst o) -> NoDup (map fst (set o k v)).
Proof.
  intro H. destruct (set_keys o k v) as [-> | [Hn ->]]; [ assumption | ].
  apply NoDup_app; try assumption.
  - repeat constructor. simpl. tauto.
  - intros x Hx [<- | []]. contradiction.
Qed.

Lemma set_In o k v k' v' :
  NoDup (map fst o) -> In (k', v') (set o k v) ->
  (k' = k /\ v' = v) \/ (k' <> k /\ In (k', v') o).
Proof.
  induction o as [|[k0 v0] o IH]; simpl; intros Hnd Hin.
  - destruct Hin as [[= <- <-] | []]. now left.
  - inversion Hnd as [|? ? Hk0 Hnd']; subst.
    destruct (String.eqb k0 k) eqn:E.
    + apply String.eqb_eq in E. subst k0.
      destruct Hin as [[= <- <-] | Hin]; [ now left | ].
      right. split; [ | now right ].
      intros ->. apply Hk0. apply (in_map fst) in Hin. exact Hin.
    + apply String.eqb_neq in E.
      destruct Hin as [[= <- <-] | Hin].
      * right. split; [ assumption | now left ].
      * destruct (IH Hnd' Hin) as [? | [? ?]]; [ now left | right ].
        split; [ assumption | now right ].
Qed.

Lemma set_In_any o k v k' v' :
  In (k', v') (set o k v) -> v' = v \/ In (k', v') o.
Proof.
  induction o as [|[k0 v0] o IH]; simpl.
  - intros [[= _ <-] | []]. now left.
  - destruct (String.eqb k0 k).
    + intros [[= _ <-] | H]; [ now left | right; now right ].
    + intros [H | H]; [ right; now left | ].
      destruct (IH H) as [? | ?]; [ now left | right; now right ].
Qed.

Lemma insertIndexed_In (i j : Z) v w (l : list (Z * V)) :
  In (i, v) (insertIndexed j w l) -> (i, v) = (j, w) \/ In (i, v) l.
Proof.
  induction l as [|[j' w'] l IH]; simpl.
  - intros [H | []]. now left.
  - destruct (j <? j'); simpl.
    + intros [H | H]; [ now left | now right ].
    + intros [H | H]; [ right; now left | ].
      destruct (IH H) as [? | ?]; [ now left | right; now right ].
Qed.

Lemma indexedValues_In (i : Z) v o :
  In (i, v) (indexedValues o) -> In v (map snd o).
Proof.
  induction o as [|[k w] o IH]; simpl; [ tauto | ].
  destruct (arrayIndex k).
  - intro H. apply insertIndexed_In in H as [[= _ ->] | H]; [ now left | ].
    right. now apply IH.
  - intro H. right. now apply IH.
Qed.

Lemma namedValues_In v o : In v (namedValues o) -> In v (map snd o).
Proof.
  induction o as [|[k w] o IH]; simpl; [ tauto | ].
  destruct (arrayIndex k); simpl.
  - intro H. right. now apply IH.
  - intros [H | H]; [ now left | right; now apply IH ].
Qed.

(** Every value [Object.values] lists is the value of a property. *)
Lemma values_In v o : In v (values o) -> exists k, In (k, v) o.
Proof.
  unfold values. intro H.
  assert (Hs : In v (map snd o)).
  { apply in_app_or in H as [H | H].
    - apply in_map_iff in H as ([i w] & <- & H). simpl.
      now apply indexedValues_In in H.
    - now apply namedValues_In. }
  apply in_map_iff in Hs as ([k w] & <- & Hs). now exists k.
Qed.
End Object.

End ObjectFacts.

(* ================================================================== *)
(** * The driver aggregation                                           *)
(* ================================================================== *)

Module AggregatorProofs.
Import JS Types CsvParser Spec Derived App Quantities.
Import NumberFacts SortFacts ObjectFacts.

(** ** Grouping *)

Lemma filter_snoc {A : Type} (f : A -> bool) (l : list A) (x : A) :
  filter f (l ++ [x]) = (filter f l ++ (if f x then [x] else []))%list.
Proof.
  rewrite filter_app. simpl. now destruct (f x).
Qed.

Lemma loadsOfDriver_none (k : string) (ls : list Load) :
  (forall l, In l ls -> driver l <> k) -> loadsOfDriver k ls = [].
Proof.
  induction ls as [|x ls IH]; intro H; [ reflexivity | ].
  unfold loadsOfDriver in *. simpl.
  destruct (String.eqb (driver x) k) eqn:E.
  - apply String.eqb_eq in E. exfalso. apply (H x); [ now left | assumption ].
  - apply IH. intros l Hl. apply H. now right.
Qed.

(** After the loads [ls] the dictionary has one property per driver met,
    whose object carries the name of the driver and the loads of the
    driver in the order of [ls]. *)
Lemma groupOwn_grouped (ls : list Load) (o : object DriverChartData) (l : Load) :
  (NoDup (map fst o) /\
   (forall l', In l' ls -> In (driver l') (map fst o)) /\
   (forall k st, In (k, st) o ->
                 driverName st = k /\ loads st = loadsOfDriver k ls)) ->
  (NoDup (map fst (groupOwn o l)) /\
   (forall l', In l' (ls ++ [l]) -> In (driver l') (map fst (groupOwn o l))) /\
   (forall k st, In (k, st) (groupOwn o l) ->
                 driverName st = k /\ loads st = loadsOfDriver k (ls ++ [l]))).
Proof.
  intros (Hnd & Hcov & Hinv). unfold groupOwn.
  set (stat := match get o (driver l) with
               | Some stat => stat
               | None => emptyStats (driver l)
               end).
  assert (Hstat : driverName stat = driver l /\
                  loads stat = loadsOfDriver (driver l) ls).
  { subst stat. destruct (get o (driver l)) as [st|] eqn:E.
    - apply get_In in E. now apply Hinv.
    - apply get_None in E. split; [ reflexivity | ].
      simpl. symmetry. apply loadsOfDriver_none.
      intros l' Hl' Heq. apply E. rewrite <- Heq. now apply Hcov. }
  split; [ now apply set_NoDup | ].
  split.
  - intros l' Hl'.
    apply in_app_or in Hl' as [Hl' | [<- | []]].
    + apply set_keys_incl. now apply Hcov.
    + apply set_key_In.
  - intros k st Hin.
    apply set_In in Hin as [[-> ->] | [Hneq Hin]]; [ | | assumption ].
    + destruct Hstat as [Hn Hl]. split; [ exact Hn | ].
      simpl. rewrite Hl. unfold loadsOfDriver.
      now rewrite filter_snoc, String.eqb_refl.
    + destruct (Hinv k st Hin) as [Hn Hl]. split; [ exact Hn | ].
      rewrite Hl. unfold loadsOfDriver. rewrite filter_snoc.
      assert (E : String.eqb (driver l) k = false)
        by (apply String.eqb_neq; congruence).
      rewrite E. now rewrite app_nil_r.
Qed.

Lemma fold_groupOwn_grouped (ls : list Load) :
  forall (done : list Load) (o : object DriverChartData),
    (NoDup (map fst o) /\
     (forall l', In l' done -> In (driver l') (map fst o)) /\
     (forall k st, In (k, st) o ->
                   driverName st = k /\ loads st = loadsOfDriver k done)) ->
    forall k st, In (k, st) (fold_left groupOwn ls o) ->
                 driverName st = k /\ loads st = loadsOfDriver k (done ++ ls).
Proof.
  induction ls as [|l ls IH]; intros done o Hinv k st Hin; simpl in Hin.
  - rewrite app_nil_r. now apply Hinv.
  - replace (done ++ l :: ls)%list with ((done ++ [l]) ++ ls)%list
      by (now rewrite <- app_assoc).
    apply (IH (done ++ [l])%list (groupOwn o l)); [ | assumption ].
    now apply groupOwn_grouped.
Qed.

(** Every element of the result is the finished object of one driver,
    built from the loads of that driver in their order in the input. *)
Lemma entriesOf_In (ls : list Load) (stat : DriverChartData) :
  In stat (entriesOf ls) ->
  exists st, stat = finishStats st /\
             loads st = loadsOfDriver (driverName st) ls.
Proof.
  unfold entriesOf. intro H. apply sort_In in H.
  apply in_map_iff in H as (st & <- & H).
  apply values_In in H as [k H].
  exists st. split; [ reflexivity | ].
  destruct (fold_groupOwn_grouped ls [] [] ) with (k := k) (st := st)
    as [Hn Hl]; try assumption.
  - split; [ constructor | ]. split; intros; contradiction.
  - now rewrite Hn.
Qed.

(** ** Names inherited from [Object.prototype] *)

(** For a driver whose name is not inherited the body of the loop returns. *)
Lemma groupLoad_own (o : object DriverChartData) (l : Load) :
  inherited (driver l) = false -> groupLoad o l = Some (groupOwn o l).
Proof.
  intro H. unfold groupLoad, groupOwn, lookup.
  destruct (get o (driver l)); [ reflexivity | ]. now rewrite H.
Qed.

Lemma groupLoads_own (ls : list Load) :
  ownNames ls ->
  forall o, groupLoads ls o = Some (fold_left groupOwn ls o).
Proof.
  unfold groupLoads.
  induction 1 as [|l ls Hl Hls IH]; intro o; [ reflexivity | ].
  cbn [fold_left]. rewrite (groupLoad_own o l Hl). apply IH.
Qed.

(** Without an inherited name the aggregation returns. *)
Lemma driverStats_own (ls : list Load) :
  ownNames ls -> driverStats ls = Some (entriesOf ls).
Proof.
  intro H. unfold driverStats, entriesOf. now rewrite (groupLoads_own ls H).
Qed.

Lemma thrown_stays (ls : list Load) :
  fold_left (fun acc load =>
               match acc with
               | Some m => groupLoad m load
               | None => None
               end) ls None = None.
Proof.
  induction ls as [|l ls IH]; [ reflexivity | exact IH ].
Qed.

(** A dictionary without an inherited name among its own has none for a
    driver with an inherited name: the body of the loop throws. *)
Lemma groupLoad_inherited (o : object DriverChartData) (l : Load) :
  inherited (driver l) = true ->
  (forall k, In k (map fst o) -> inherited k = false) ->
  groupLoad o l = None.
Proof.
  intros H Ho. unfold groupLoad, lookup.
  destruct (get o (driver l)) as [st|] eqn:E.
  - apply get_In in E.
    assert (Hk : In (driver l) (map fst o))
      by (apply in_map_iff; now exists (driver l, st)).
    rewrite (Ho _ Hk) in H. discriminate.
  - now rewrite H.
Qed.

Lemma groupOwn_keys (o : object DriverChartData) (l : Load) :
  inherited (driver l) = false ->
  (forall k, In k (map fst o) -> inherited k = false) ->
  forall k, In k (map fst (groupOwn o l)) -> inherited k = false.
Proof.
  intros H Ho k Hk. unfold groupOwn in Hk.
  match type of Hk with
  | In _ (map fst (set ?o' ?k' ?v')) =>
      destruct (set_keys o' k' v') as [E | [_ E]]; rewrite E in Hk
  end.
  - now apply Ho.
  - apply in_app_or in Hk as [Hk | [<- | []]]; [ now apply Ho | exact H ].
Qed.

Lemma groupLoads_throws (ls : list Load) :
  Exists (fun l => inherited (driver l) = true) ls ->
  forall o, (forall k, In k (map fst o) -> inherited k = false) ->
            groupLoads ls o = None.
Proof.
  unfold groupLoads. induction ls as [|l ls IH]; intros Hex o Ho.
  - inversion Hex.
  - cbn [fold_left]. destruct (inherited (driver l)) eqn:E.
    + rewrite (groupLoad_inherited o l E Ho). apply thrown_stays.
    + rewrite (groupLoad_own o l E). apply IH.
      * inversion Hex; subst; [ congruence | assumption ].
      * now apply groupOwn_keys.
Qed.

Lemma names_own_or_inherited (ls : list Load) :
  ownNames ls \/ Exists (fun l => inherited (driver l) = true) ls.
Proof.
  induction ls as [|l ls IH]; [ left; constructor | ].
  destruct (inherited (driver l)) eqn:E; [ right; now constructor | ].
  destruct IH as [IH | IH]; [ left; now constructor | right ].
  now apply Exists_cons_tl.
Qed.

(** The aggregation throws exactly when a driver is named like a property
    of [Object.prototype]. *)
Lemma driverStats_None_iff (ls : list Load) :
  driverStats ls = None <->
  Exists (fun l => inherited (driver l) = true) ls.
Proof.
  split.
  - intro H. destruct (names_own_or_inherited ls) as [Hown | Hex];
      [ | exact Hex ].
    rewrite (driverStats_own ls Hown) in H. discriminate.
  - intro Hex. unfold driverStats.
    rewrite (groupLoads_throws ls Hex []); [ reflexivity | intros k [] ].
Qed.

Lemma driverStats_Some (ls : list Load) (r : list DriverChartData) :
  driverStats ls = Some r -> ownNames ls /\ r = entriesOf ls.
Proof.
  intro H. destruct (names_own_or_inherited ls) as [Hown | Hex].
  - split; [ exact Hown | ].
    rewrite (driverStats_own ls Hown) in H. now injection H.
  - apply driverStats_None_iff in Hex. congruence.
Qed.

(** ** The mean gap *)

Lemma add_ofZ (a b : Z) : add (ofZ a) (ofZ b) = ofZ (a + b).
Proof.
  unfold ofZ, add, inject_Z, Qplus. simpl. do 2 f_equal. lia.
Qed.





Lemma finishStats_fields (st : DriverChartData) :
  driverName (finishStats st) = driverName st /\
  loads (finishStats st) = sort byDespatchTime (loads st) /\
  totalKms (finishStats st) = totalKms st.
Proof.
  unfold finishStats.
  destruct (gapLoop (sort byDespatchTime (loads st)) (ofZ 0) (ofZ 0)).
  repeat split.
Qed.






(** The driver B of three loads despatched at 8:00, 7:15 and 12:00: the
    gaps of 45 and 240 minutes give the average 143; the driver A of one
    load has the average 0. *)
Example three_loads_average :
  option_map
    (map (fun s => (driverName s, map loadNo (loads s),
                    avgTimeBetweenLoadsMinutes s)))
    (driverStats (parseTransportCsv threeLoadsText))
  = Some [("B", ["4"; "2"; "5"], ofZ 143); ("A", ["1"], ofZ 0)].
Proof. vm_compute. reflexivity. Qed.

(** A driver with one load has the average 0. *)
Example single_load_average :
  option_map (map (fun s => (driverName s, avgTimeBetweenLoadsMinutes s)))
             (driverStats (parseTransportCsv twoDriversText))
  = Some [("B", ofZ 0); ("A", ofZ 0)].
Proof. vm_compute. reflexivity. Qed.

(** A driver named "constructor": the aggregation throws. *)
Example inherited_name_throws :
  map driver (parseTransportCsv inheritedNameText) = ["A"; "constructor"] /\
  driverStats (parseTransportCsv inheritedNameText) = None.
Proof. split; vm_compute; reflexivity. Qed.

(** ** The order of the drivers *)

(** When no driver's [totalKms] is [NaN] the comparator of the drivers is
    consistent, and the entries are in descending order of [totalKms]. *)
Lemma entriesOf_descending (ls : list Load) :
  Forall (fun s => isNaN (totalKms s) = false) (entriesOf ls) ->
  descendingByTotalKms (entriesOf ls).
Proof.
  intro Hnum. unfold descendingByTotalKms, entriesOf in *.
  set (stats := map finishStats (values (fold_left groupOwn ls []))) in *.
  apply (sort_descending totalKms stats).
  rewrite Forall_forall in *. intros s Hs. apply Hnum.
  apply (sort_In byTotalKmsDesc). exact Hs.
Qed.

Lemma nonNegative_add (x y : number) :
  nonNegative x = true -> nonNegative y = true ->
  nonNegative (add x y) = true.
Proof.
  unfold nonNegative.
  destruct x as [|s|a], y as [|t|b]; simpl; try discriminate;
    try (now destruct s); try (now destruct t).
  - destruct s, t; simpl; try discriminate; reflexivity.
  - intros Ha Hb. apply Qle_bool_iff in Ha, Hb. apply Qle_bool_iff.
    change (inject_Z 0) with 0%Q in *. lra.
Qed.

Lemma nonNegative_not_NaN (x : number) :
  nonNegative x = true -> isNaN x = false.
Proof. now destruct x. Qed.

(** Loads whose distance and return leg are not [NaN] and not negative
    give every driver a total that is not [NaN]. *)
Lemma groupOwn_nonNegative (o : object DriverChartData) (l : Load) :
  nonNegative (totalDistance l) = true ->
  nonNegative (totalReturnLeg l) = true ->
  (forall k st, In (k, st) o -> nonNegative (totalKms st) = true) ->
  forall k st, In (k, st) (groupOwn o l) -> nonNegative (totalKms st) = true.
Proof.
  intros Hd Hr Ho k st Hin. unfold groupOwn in Hin.
  apply set_In_any in Hin as [-> | Hin]; [ | now apply (Ho k) ].
  assert (Hs : nonNegative (totalKms match get o (driver l) with
                                     | Some stat => stat
                                     | None => emptyStats (driver l)
                                     end) = true).
  { destruct (get o (driver l)) as [st|] eqn:E; [ | reflexivity ].
    apply get_In in E. now apply (Ho (driver l)). }
  cbn [totalKms recordLoad].
  apply nonNegative_add; [ exact Hs | now apply nonNegative_add ].
Qed.

Lemma fold_groupOwn_nonNegative (ls : list Load) :
  Forall (fun l => nonNegative (totalDistance l) = true /\
                   nonNegative (totalReturnLeg l) = true) ls ->
  forall o : object DriverChartData,
    (forall k st, In (k, st) o -> nonNegative (totalKms st) = true) ->
    forall k st, In (k, st) (fold_left groupOwn ls o) ->
                 nonNegative (totalKms st) = true.
Proof.
  induction 1 as [|l ls [Hd Hr] Hls IH]; intros o Ho k st Hin; simpl in Hin.
  - now apply (Ho k).
  - apply (IH (groupOwn o l)) with (k := k); [ | assumption ].
    now apply groupOwn_nonNegative.
Qed.

Lemma entriesOf_totals_not_NaN (ls : list Load) :
  Forall (fun l => nonNegative (totalDistance l) = true /\
                   nonNegative (totalReturnLeg l) = true) ls ->
  Forall (fun s => isNaN (totalKms s) = false) (entriesOf ls).
Proof.
  intro Hls. apply Forall_forall. intros s Hs.
  unfold entriesOf in Hs. apply sort_In in Hs.
  apply in_map_iff in Hs as (st & <- & Hs).
  apply values_In in Hs as [k Hs].
  destruct (finishStats_fields st) as (_ & _ & ->).
  apply nonNegative_not_NaN.
  apply (fold_groupOwn_nonNegative ls Hls []) with (k := k); [ | assumption ].
  intros ? ? [].
Qed.

(** C7, as the code has it. For loads none of whose drivers is named like
    a property of [Object.prototype] and whose distances and return legs
    are not [NaN] and not negative, no driver's [totalKms] is [NaN]: the
    aggregation returns, and its result is in descending order of
    [totalKms]. *)
Theorem driverStats_descending
  (ls : list Load) (Hnames : ownNames ls)
  (Hkms : Forall (fun l => nonNegative (totalDistance l) = true /\
                           nonNegative (totalReturnLeg l) = true) ls) :
  exists r : list DriverChartData,
    driverStats ls = Some r /\ descendingByTotalKms r.
Proof.
  exists (entriesOf ls). split; [ now apply driverStats_own | ].
  apply entriesOf_descending. now apply entriesOf_totals_not_NaN.
Qed.

Lemma driverStats_descending_witness :
  exists r : list DriverChartData,
    driverStats (parseTransportCsv twoDriversText) = Some r /\
    descendingByTotalKms r.
Proof.
  apply (driverStats_descending (parseTransportCsv twoDriversText)).
  - unfold ownNames. evaluate_list.
    repeat (constructor; [ vm_compute; reflexivity | ]). constructor.
  - evaluate_list.
    repeat (constructor; [ split; vm_compute; reflexivity | ]). constructor.
Defined.

(** The driver with 100 km comes before the driver with 50 km, who was
    met first. *)
Example two_drivers_order :
  option_map (map (fun s => (driverName s, totalKms s)))
             (driverStats (parseTransportCsv twoDriversText))
  = Some [("B", ofZ 100); ("A", ofZ 50)].
Proof. vm_compute. reflexivity. Qed.

(** A driver whose total is [NaN] stays where it was met, and the driver
    with 50 km before it stays before the driver with 100 km after it. *)
Lemma driverStats_undefined_total_unsorted :
  exists r : list DriverChartData,
    driverStats (parseTransportCsv undefinedTotalText) = Some r /\
    map (fun s => (driverName s, totalKms s)) r
    = [("A", ofZ 50); ("B", NaN); ("C", ofZ 100)] /\
    ~ descendingByTotalKms r.
Proof.
  eexists. split; [ vm_compute; reflexivity | ].
  split; [ vm_compute; reflexivity | ].
  unfold descendingByTotalKms. intro H.
  inversion H as [|? ? _ Hall]; subst.
  inversion Hall as [|? ? _ Hall']; subst.
  inversion Hall' as [|? ? Hbad _]; subst.
  vm_compute in Hbad. discriminate Hbad.
Qed.

End AggregatorProofs.

(* ================================================================== *)
(** * Further properties of the parser                                 *)
(* ================================================================== *)

Module ParserMore.
Import JS Types CsvParser Spec Derived Quantities NumberFacts ParserProofs.

(** ** Rows and runs *)

Lemma runs_nil_iff (rows : list (list string)) : runs rows = [] <-> rows = [].
Proof.
  split; [ | now intros -> ].
  destruct rows as [|r rest]; [ reflexivity | ]. simpl.
  destruct (runs rest) as [|[|r' run] more]; try discriminate.
  destruct (String.eqb (rowId r) (rowId r')); discriminate.
Qed.

Lemma runs_In (rows : list (list string)) (run : list (list string)) (r : list string) :
  In run (runs rows) -> In r run -> In r rows.
Proof.
  intros Hrun Hr. rewrite <- (runs_concat rows).
  apply in_concat. now exists run.
Qed.

Lemma run_first_In (rows : list (list string)) (run : list (list string)) :
  In run (runs rows) -> In (hd [] run) rows.
Proof.
  intro Hrun. pose proof (runs_nonempty rows) as Hne.
  rewrite Forall_forall in Hne. specialize (Hne run Hrun).
  destruct run as [|r rest]; [ contradiction | ].
  apply (runs_In rows (r :: rest)); [ assumption | now left ].
Qed.

Lemma dataRows_isNewLoad (csvText : string) (r : list string) :
  In r (dataRows csvText) -> isNewLoad r = true.
Proof.
  unfold dataRows. intro H. now apply filter_In in H.
Qed.

(** A property of the load of every run of data rows is a property of
    every load returned. *)
Lemma parse_Forall (csvText : string) (P : Load -> Prop) :
  (forall run, In run (runs (dataRows csvText)) -> run <> [] -> P (loadOfRun run)) ->
  Forall P (parseTransportCsv csvText).
Proof.
  intro H. rewrite parse_runs. apply Forall_map.
  pose proof (runs_nonempty (dataRows csvText)) as Hne.
  rewrite Forall_forall in *. intros run Hin. apply H; auto.
Qed.

Lemma parse_Forall2 (csvText : string) (P : list (list string) -> Load -> Prop) :
  (forall run, In run (runs (dataRows csvText)) -> run <> [] -> P run (loadOfRun run)) ->
  Forall2 P (runs (dataRows csvText)) (parseTransportCsv csvText).
Proof.
  intro H. rewrite parse_runs. apply Forall2_map_of.
  pose proof (runs_nonempty (dataRows csvText)) as Hne.
  rewrite Forall_forall in *. intros run Hin. apply H; auto.
Qed.

(** X1. The parser returns no load exactly when no line of the text has a
    first field that is non-empty and reads as a number; so for the empty
    text, a text of headers or a text of blank lines. *)
Theorem parse_nothing_iff (csvText : string) :
  parseTransportCsv csvText = [] <->
  Forall (fun line => isNewLoad (columns line) = false) (split "010" csvText).
Proof.
  rewrite parse_runs. unfold dataRows.
  set (lines := split "010" csvText).
  split.
  - intro H. apply map_eq_nil in H. apply runs_nil_iff in H.
    apply Forall_forall. intros line Hin.
    destruct (isNewLoad (columns line)) eqn:E; [ | reflexivity ].
    assert (Hr : In (columns line) (filter isNewLoad (map columns lines))).
    { apply filter_In. split; [ now apply in_map | assumption ]. }
    rewrite H in Hr. contradiction.
  - intro H. replace (filter isNewLoad (map columns lines)) with (@nil (list string));
      [ reflexivity | ].
    symmetry. induction lines as [|line rest IH]; [ reflexivity | ].
    inversion H as [|? ? Hl Hrest]; subst. simpl. rewrite Hl. now apply IH.
Qed.

(** X2. The stops of the loads returned, taken together in order, are the
    stops of the data rows in order: no data row is dropped, repeated or
    moved. *)
Theorem parse_keeps_every_row (csvText : string) :
  List.concat (map stops (parseTransportCsv csvText)) =
  map stopOfColumns (dataRows csvText).
Proof.
  rewrite parse_runs, map_map.
  rewrite <- (runs_concat (dataRows csvText)) at 2.
  rewrite concat_map. f_equal.
  pose proof (runs_nonempty (dataRows csvText)) as Hne.
  apply map_ext_in. intros run Hin. rewrite Forall_forall in Hne.
  apply loadOfRun_stops. now apply Hne.
Qed.

(** ** The descriptors of a load *)

Lemma feed_descriptors (rows : list (list string)) (c : Partial.t) :
  Partial.routeNo (feed c rows) = Partial.routeNo c /\
  Partial.driver (feed c rows) = Partial.driver c /\
  Partial.truck (feed c rows) = Partial.truck c /\
  Partial.trailer (feed c rows) = Partial.trailer c /\
  Partial.despatchTime (feed c rows) = Partial.despatchTime c /\
  Partial.date (feed c rows) = Partial.date c.
Proof.
  revert c. induction rows as [|r rest IH]; intro c; [ now repeat split | ].
  unfold feed in *. simpl fold_left.
  destruct (IH (addStop c r (stopOfColumns r))) as (H1 & H2 & H3 & H4 & H5 & H6).
  rewrite H1, H2, H3, H4, H5, H6. now repeat split.
Qed.

(** X3. The route, driver, truck, trailer, despatch time and date of a
    load are those of the first row of its run, with the defaults applied
    to that row; the later rows of the run do not change them. *)
Theorem descriptors_of_first_row (csvText : string) :
  Forall2 (fun run l =>
             let first := hd [] run in
             routeNo l = nth_error first 1 /\
             driver l = orElseStr (nth_error first 13) "UNKNOWN" /\
             truck l = orElseStr (nth_error first 14) "" /\
             trailer l = orElseStr (nth_error first 15) "" /\
             despatchTime l = orElseStr (nth_error first 16) "" /\
             date l = orElseStr (nth_error first 6) "")
          (runs (dataRows csvText)) (parseTransportCsv csvText).
Proof.
  apply parse_Forall2. intros run _ Hne.
  destruct run as [|r rest]; [ contradiction | ].
  unfold loadOfRun. cbn [hd tl]. cbv zeta.
  destruct (feed_descriptors rest (openLoad (rowId r) r (stopOfColumns r)))
    as (H1 & H2 & H3 & H4 & H5 & H6).
  unfold finalize. cbn [routeNo driver truck trailer despatchTime date].
  rewrite H1, H2, H3, H4, H5, H6. now repeat split.
Qed.

Lemma orElseStr_nonempty (o : option string) (d : string) :
  d <> "" -> orElseStr o d <> "".
Proof.
  intro Hd. unfold orElseStr. destruct o as [s|]; [ | assumption ].
  destruct (String.eqb s "") eqn:E; [ assumption | now apply String.eqb_neq ].
Qed.

(** X4. Every load returned has a number that is not empty and reads as a
    number, and a driver that is not empty: a row without a driver gives
    the driver UNKNOWN. *)
Theorem loads_are_attributed (csvText : string) :
  Forall (fun l => loadNo l <> "" /\
                   isNaN (Number (loadNo l)) = false /\
                   driver l <> "")
         (parseTransportCsv csvText).
Proof.
  apply parse_Forall. intros run Hin Hne.
  pose proof (run_first_In _ _ Hin) as Hfirst.
  apply dataRows_isNewLoad in Hfirst.
  destruct run as [|r rest]; [ contradiction | ]. simpl hd in Hfirst.
  destruct (loadOfRun_loadNo (r :: rest)) as [-> | ?]; [ | contradiction ].
  cbn [runId].
  split; [ now apply isNewLoad_rowId | ].
  split.
  - unfold isNewLoad in Hfirst. apply andb_true_iff in Hfirst as [_ H].
    now apply negb_true_iff in H.
  - unfold loadOfRun. cbn [hd tl]. unfold finalize. cbn [driver].
    destruct (feed_descriptors rest (openLoad (rowId r) r (stopOfColumns r)))
      as (_ & -> & _).
    cbn [Partial.driver openLoad]. now apply orElseStr_nonempty.
Qed.

(** ** The numeric fields *)

Lemma orElse_not_NaN (x : number) : isNaN (orElse x (ofZ 0)) = false.
Proof.
  unfold orElse. destruct x as [|s|q]; simpl; try reflexivity.
  now destruct (isZeroQ q).
Qed.

Lemma signed_inject_Z (sg : bool) (v : Z) :
  signed sg (inject_Z v) = inject_Z (Qnum (signed sg (inject_Z v))).
Proof. now destruct sg. Qed.

(** [parseInt] reads an integer or nothing. *)
Lemma parseInt_shape (s : string) :
  parseInt s = NaN \/ exists z : Z, parseInt s = ofZ z.
Proof.
  unfold parseInt.
  destruct (scanSign (dropSpaces s)) as [sg u].
  destruct (match stripPrefix "0x" u with
            | Some d => (16, d)
            | None => match stripPrefix "0X" u with
                      | Some d => (16, d)
                      | None => (10, u)
                      end
            end) as [radix digits].
  destruct (scanRadix radix 0 0 digits) as [[v n] rest].
  destruct n; [ now left | right ].
  exists (Qnum (signed sg (inject_Z v))). unfold ofZ.
  now rewrite <- signed_inject_Z.
Qed.

Lemma orElse_ofZ (z : Z) : orElse (ofZ z) (ofZ 0) = ofZ z.
Proof.
  unfold orElse. simpl. unfold isZeroQ. simpl.
  destruct (Z.eqb_spec z 0) as [-> | ?]; reflexivity.
Qed.

Lemma palletsOfColumns_ofZ (cols : list string) :
  palletsOfColumns cols = ofZ (palletCount cols).
Proof.
  unfold palletsOfColumns, palletCount.
  destruct (parseInt_shape (toStr (nth_error cols 10))) as [-> | [z ->]].
  - reflexivity.
  - apply orElse_ofZ.
Qed.

Lemma stopOfColumns_numbers (cols : list string) :
  isNaN (stopNo (stopOfColumns cols)) = false /\
  isNaN (distance (stopOfColumns cols)) = false /\
  isNaN (returnLeg (stopOfColumns cols)) = false.
Proof.
  unfold stopOfColumns. cbn [stopNo distance returnLeg].
  repeat split; apply orElse_not_NaN.
Qed.

(** X5. No stop of a load returned has [NaN] as its stop number, distance
    or return leg, and no load has [NaN] as its [totalReturnLeg]: a field
    that does not read as a number is 0. *)
Theorem numeric_fields_default_to_zero (csvText : string) :
  Forall (fun l =>
            isNaN (totalReturnLeg l) = false /\
            Forall (fun st => isNaN (stopNo st) = false /\
                              isNaN (distance st) = false /\
                              isNaN (returnLeg st) = false)
                   (stops l))
         (parseTransportCsv csvText).
Proof.
  apply parse_Forall. intros run _ Hne. split.
  - rewrite loadOfRun_totalReturnLeg by assumption.
    apply stopOfColumns_numbers.
  - rewrite loadOfRun_stops by assumption.
    apply Forall_map. apply Forall_forall. intros r _.
    apply stopOfColumns_numbers.
Qed.

(** ** Sums of integers *)

Lemma sumZ_app (l1 l2 : list Z) : sumZ (l1 ++ l2) = sumZ l1 + sumZ l2.
Proof.
  induction l1 as [|x l1 IH]; simpl; [ reflexivity | ]. rewrite IH. lia.
Qed.

Lemma sumZ_concat {A : Type} (z : A -> Z) (ll : list (list A)) :
  sumZ (map z (List.concat ll)) = sumZ (map (fun l => sumZ (map z l)) ll).
Proof.
  induction ll as [|l ll IH]; simpl; [ reflexivity | ].
  now rewrite map_app, sumZ_app, IH.
Qed.

Lemma sumZ_nonneg {A : Type} (z : A -> Z) (l : list A) :
  (forall x, 0 <= z x) -> 0 <= sumZ (map z l).
Proof.
  intro H. induction l as [|x l IH]; simpl; [ lia | ].
  specialize (H x). lia.
Qed.

Lemma sumZ_In_le {A : Type} (z : A -> Z) (x : A) (l : list A) :
  (forall y, 0 <= z y) -> In x l -> z x <= sumZ (map z l).
Proof.
  intros H Hin. induction l as [|y l IH]; [ contradiction | ]. simpl.
  pose proof (sumZ_nonneg z l H). destruct Hin as [-> | Hin].
  - lia.
  - specialize (IH Hin). specialize (H y). lia.
Qed.

(** The magnitudes of a run add up to at most those of all the rows. *)
Lemma run_sum_le (z : list string -> Z) (rows : list (list string))
      (run : list (list string)) :
  (forall r, 0 <= z r) -> In run (runs rows) ->
  sumZ (map z run) <= sumZ (map z rows).
Proof.
  intros Hz Hin. rewrite <- (runs_concat rows) at 1. rewrite sumZ_concat.
  apply (sumZ_In_le (fun l => sumZ (map z l))); [ | assumption ].
  intro l. now apply sumZ_nonneg.
Qed.

(** Adding as doubles, from left to right, integers whose magnitudes add
    up to at most [maxSafeInteger] gives their sum: no addition rounds. *)
Lemma binary64_fold_integers (zs : list Z) :
  forall a : Z,
    Z.abs a + sumZ (map Z.abs zs) <= maxSafeInteger ->
    fold_left Binary64.add (map ofZ zs) (ofZ a) = ofZ (a + sumZ zs).
Proof.
  unfold maxSafeInteger.
  induction zs as [|z zs IH]; intros a H; cbn [map fold_left].
  - simpl. now rewrite Z.add_0_r.
  - pose proof (sumZ_nonneg Z.abs zs Z.abs_nonneg) as Hpos.
    change (sumZ (map Z.abs (z :: zs)))
      with (Z.abs z + sumZ (map Z.abs zs)) in H.
    change (sumZ (z :: zs)) with (z + sumZ zs).
    rewrite Binary64Facts.binary64_add_ofZ by lia.
    rewrite IH by lia. f_equal. lia.
Qed.

Lemma binary64_sum_integers {A : Type} (g : A -> number) (z : A -> Z)
      (l : list A) :
  (forall x, In x l -> g x = ofZ (z x)) ->
  sumZ (map (fun x => Z.abs (z x)) l) <= maxSafeInteger ->
  Binary64.sum (map g l) = ofZ (sumZ (map z l)).
Proof.
  intros Hg Hsafe. unfold Binary64.sum.
  replace (map g l) with (map ofZ (map z l)).
  - rewrite binary64_fold_integers; [ reflexivity | ].
    rewrite map_map. simpl. exact Hsafe.
  - rewrite map_map. apply map_ext_in. intros x Hx. symmetry. now apply Hg.
Qed.

(** ** The pallets *)

Lemma sum_ofZ (a b : Z) : add (ofZ a) (ofZ b) = ofZ (a + b).
Proof.
  unfold ofZ, add, inject_Z, Qplus. simpl. do 2 f_equal. lia.
Qed.

Lemma feed_totalPallets (rows : list (list string)) :
  forall (c : Partial.t) (z : Z),
    Partial.totalPallets c = ofZ z ->
    Partial.totalPallets (feed c rows) = ofZ (z + sumZ (map palletCount rows)).
Proof.
  induction rows as [|r rest IH]; intros c z Hc.
  - simpl. now rewrite Z.add_0_r.
  - unfold feed in *. simpl fold_left.
    rewrite (IH _ (z + palletCount r)).
    + simpl. f_equal. lia.
    + cbn [Partial.totalPallets addStop].
      now rewrite Hc, orElse_ofZ, palletsOfColumns_ofZ, sum_ofZ.
Qed.

Lemma loadOfRun_totalPallets (run : list (list string)) :
  run <> [] -> totalPallets (loadOfRun run) = ofZ (sumZ (map palletCount run)).
Proof.
  intro Hne. destruct run as [|r rest]; [ contradiction | ].
  unfold loadOfRun. cbn [hd tl]. unfold finalize. cbn [totalPallets].
  rewrite (feed_totalPallets rest _ (palletCount r)).
  - reflexivity.
  - cbn [Partial.totalPallets openLoad]. apply palletsOfColumns_ofZ.
Qed.

(** X6. When the magnitudes of the pallets [parseInt] reads in column 10
    of the data rows add up to at most [maxSafeInteger], the
    [totalPallets] of a load is the sum, as an integer, of the pallets of
    the rows of its run, a row where nothing is read counting for 0; the
    pallets of the run added as doubles give the same, no addition
    rounding. *)
Theorem totalPallets_is_sum
  (csvText : string)
  (Hsafe : sumZ (map (fun r => Z.abs (palletCount r)) (dataRows csvText))
           <= maxSafeInteger) :
  Forall2 (fun run l =>
             totalPallets l = ofZ (sumZ (map palletCount run)) /\
             Binary64.sum (map palletsOfColumns run) = totalPallets l)
          (runs (dataRows csvText)) (parseTransportCsv csvText).
Proof.
  apply parse_Forall2. intros run Hin Hne.
  rewrite (loadOfRun_totalPallets run Hne). split; [ reflexivity | ].
  apply binary64_sum_integers.
  - intros r _. apply palletsOfColumns_ofZ.
  - etransitivity; [ | exact Hsafe ].
    apply (run_sum_le (fun r => Z.abs (palletCount r))); [ | assumption ].
    intro r. apply Z.abs_nonneg.
Qed.

Lemma totalPallets_is_sum_witness :
  Forall2 (fun run l =>
             totalPallets l = ofZ (sumZ (map palletCount run)) /\
             Binary64.sum (map palletsOfColumns run) = totalPallets l)
          (runs (dataRows scenarioText)) (parseTransportCsv scenarioText).
Proof.
  apply (totalPallets_is_sum scenarioText).
  apply Z.leb_le. vm_compute. reflexivity.
Defined.

(** Beyond [maxSafeInteger] the additions round: 9007199254740993 pallets
    are read as 9007199254740992, and one more leaves the total there. *)
Example totalPallets_rounds :
  Binary64.add (Binary64.rounded (parseInt "9007199254740993")) (ofZ 1)
  = ofZ 9007199254740992.
Proof. vm_compute. reflexivity. Qed.

(** ** The distance *)

Lemma feed_totalDistance (rows : list (list string)) :
  Forall (fun r => isInteger (distance (stopOfColumns r))) rows ->
  forall (c : Partial.t) (z : Z),
    Partial.totalDistance c = ofZ z ->
    Partial.totalDistance (feed c rows) = ofZ (z + sumZ (map kilometres rows)).
Proof.
  induction 1 as [|r rest Hr Hrest IH]; intros c z Hc.
  - simpl. now rewrite Z.add_0_r.
  - unfold feed in *. simpl fold_left.
    rewrite (IH _ (z + kilometres r)).
    + simpl. f_equal. lia.
    + cbn [Partial.totalDistance addStop].
      rewrite Hc, orElse_ofZ. unfold isInteger in Hr. rewrite Hr.
      apply sum_ofZ.
Qed.

Lemma loadOfRun_totalDistance (run : list (list string)) :
  run <> [] ->
  Forall (fun r => isInteger (distance (stopOfColumns r))) run ->
  totalDistance (loadOfRun run) = ofZ (sumZ (map kilometres run)).
Proof.
  intros Hne Hrun. destruct run as [|r rest]; [ contradiction | ].
  inversion Hrun as [|? ? Hr Hrest]; subst.
  unfold loadOfRun. cbn [hd tl]. unfold finalize. cbn [totalDistance].
  rewrite (feed_totalDistance rest Hrest _ (kilometres r)).
  - reflexivity.
  - cbn [Partial.totalDistance openLoad]. exact Hr.
Qed.

(** X7. When the distance of every data row is an integer and their
    magnitudes add up to at most [maxSafeInteger], the [totalDistance] of
    a load is the sum of the distances of the rows of its run; the
    distances of the run added as doubles give the same, no addition
    rounding. *)
Theorem totalDistance_is_sum
  (csvText : string)
  (Hint : Forall (fun r => isInteger (distance (stopOfColumns r)))
                 (dataRows csvText))
  (Hsafe : sumZ (map (fun r => Z.abs (kilometres r)) (dataRows csvText))
           <= maxSafeInteger) :
  Forall2 (fun run l =>
             totalDistance l = ofZ (sumZ (map kilometres run)) /\
             Binary64.sum (map (fun r => distance (stopOfColumns r)) run)
             = totalDistance l)
          (runs (dataRows csvText)) (parseTransportCsv csvText).
Proof.
  apply parse_Forall2. intros run Hin Hne.
  assert (Hrun : Forall (fun r => isInteger (distance (stopOfColumns r))) run).
  { rewrite Forall_forall in *. intros r Hr. apply Hint.
    now apply (runs_In _ run). }
  rewrite (loadOfRun_totalDistance run Hne Hrun). split; [ reflexivity | ].
  apply binary64_sum_integers.
  - rewrite Forall_forall in Hrun. exact Hrun.
  - etransitivity; [ | exact Hsafe ].
    apply (run_sum_le (fun r => Z.abs (kilometres r))); [ | assumption ].
    intro r. apply Z.abs_nonneg.
Qed.

Lemma totalDistance_is_sum_witness :
  Forall2 (fun run l =>
             totalDistance l = ofZ (sumZ (map kilometres run)) /\
             Binary64.sum (map (fun r => distance (stopOfColumns r)) run)
             = totalDistance l)
          (runs (dataRows scenarioText)) (parseTransportCsv scenarioText).
Proof.
  apply (totalDistance_is_sum scenarioText).
  - evaluate_list. repeat (constructor; [ vm_compute; reflexivity | ]).
    constructor.
  - apply Z.leb_le. vm_compute. reflexivity.
Defined.

(** The distances 5 and 3 of the scenario add up to 8. *)
Example totalDistance_of_scenario :
  map totalDistance (parseTransportCsv scenarioText) = [ofZ 8].
Proof. vm_compute. reflexivity. Qed.

(** Beyond the integers the additions round: the distances 0.1 and 0.2
    add up, as doubles, to 0.30000000000000004. *)
Example totalDistance_rounds :
  Binary64.add (Binary64.parseFloat "0.1") (Binary64.parseFloat "0.2")
  = Fin (1351079888211149 # 4503599627370496) /\
  Binary64.parseFloat "0.3" = Fin (5404319552844595 # 18014398509481984).
Proof. split; vm_compute; reflexivity. Qed.

(** After the distances Infinity and -Infinity the running total is
    [NaN], and the next row restarts it from 0. *)
Example totalDistance_restarts_after_NaN :
  map totalDistance
      (parseTransportCsv ("1,,,,,,,,,,,Infinity" ++ newline ++
                          "1,,,,,,,,,,,-Infinity" ++ newline ++
                          "1,,,,,,,,,,,7"))
  = [ofZ 7].
Proof. vm_compute. reflexivity. Qed.

(** ** Distances that are not negative *)

Lemma nonNegative_orElse (x : number) :
  nonNegative x = true -> nonNegative (orElse x (ofZ 0)) = true.
Proof.
  unfold orElse. now destruct (truthy x).
Qed.

Lemma feed_nonNegative (rows : list (list string)) :
  Forall (fun r => nonNegative (distance (stopOfColumns r)) = true /\
                   nonNegative (returnLeg (stopOfColumns r)) = true) rows ->
  forall c : Partial.t,
    nonNegative (Partial.totalDistance c) = true ->
    nonNegative (Partial.totalReturnLeg c) = true ->
    nonNegative (Partial.totalDistance (feed c rows)) = true /\
    nonNegative (Partial.totalReturnLeg (feed c rows)) = true.
Proof.
  induction 1 as [|r rest [Hd Hr] Hrest IH]; intros c Hc Hc'; [ now split | ].
  unfold feed in *. simpl fold_left. apply IH.
  - cbn [Partial.totalDistance addStop].
    apply AggregatorProofs.nonNegative_add; [ | exact Hd ].
    now apply nonNegative_orElse.
  - cbn [Partial.totalReturnLeg addStop]. assumption.
Qed.

(** Rows whose distance and return leg are not negative give loads whose
    distance and return leg are not negative. *)
Lemma loadOfRun_nonNegative (run : list (list string)) :
  run <> [] ->
  Forall (fun r => nonNegative (distance (stopOfColumns r)) = true /\
                   nonNegative (returnLeg (stopOfColumns r)) = true) run ->
  nonNegative (totalDistance (loadOfRun run)) = true /\
  nonNegative (totalReturnLeg (loadOfRun run)) = true.
Proof.
  intros Hne Hrun. destruct run as [|r rest]; [ contradiction | ].
  inversion Hrun as [|? ? [Hd Hr] Hrest]; subst.
  unfold loadOfRun. cbn [hd tl]. unfold finalize.
  cbn [totalDistance totalReturnLeg].
  now apply feed_nonNegative.
Qed.

(** ** The expected time *)

Lemma finalize_expectedTime (c : Partial.t) :
  nonNegative (Partial.totalDistance c) = true ->
  nonNegative (Partial.totalReturnLeg c) = true ->
  lessEq (ofZ (30 * Z.of_nat (List.length (stops (finalize c)))))
         (expectedTimeMinutes (finalize c)) = true.
Proof.
  intros Hd Hr.
  unfold finalize. cbn [expectedTimeMinutes stops].
  unfold ofNat. rewrite orElse_ofZ.
  set (n := Z.of_nat (List.length (Partial.stops c))).
  pose proof (AggregatorProofs.nonNegative_add _ _
                (nonNegative_orElse _ Hd) (nonNegative_orElse _ Hr)) as Hk.
  destruct (add (orElse (Partial.totalDistance c) (ofZ 0))
                (orElse (Partial.totalReturnLeg c) (ofZ 0))) as [|s|q];
    [ discriminate | | ].
  - destruct s; [ discriminate | reflexivity ].
  - unfold nonNegative in Hk. simpl in Hk. apply Qle_bool_iff in Hk.
    change (inject_Z 0) with 0%Q in Hk.
    unfold calculateExpectedTime. cbn [add mul ofZ round].
    apply lessEq_ofZ.
    rewrite <- (Qfloor_Z (30 * n)). apply Qfloor_resp_le.
    rewrite inject_Z_mult. change (inject_Z 30) with 30%Q. lra.
Qed.

(** X8. When the distance and the return leg of every data row are not
    negative, the expected time of every load is at least 30 minutes for
    each of its stops. *)
Theorem expectedTime_covers_unloading
  (csvText : string)
  (Hrows : Forall (fun r => nonNegative (distance (stopOfColumns r)) = true /\
                            nonNegative (returnLeg (stopOfColumns r)) = true)
                  (dataRows csvText)) :
  Forall (fun l => lessEq (ofZ (30 * Z.of_nat (List.length (stops l))))
                          (expectedTimeMinutes l) = true)
         (parseTransportCsv csvText).
Proof.
  apply parse_Forall. intros run Hin Hne.
  assert (Hrun : Forall (fun r => nonNegative (distance (stopOfColumns r)) = true /\
                                  nonNegative (returnLeg (stopOfColumns r)) = true)
                        run).
  { rewrite Forall_forall in *. intros r Hr. apply Hrows.
    now apply (runs_In _ run). }
  destruct run as [|r rest]; [ contradiction | ].
  inversion Hrun as [|? ? [Hd Hr] Hrest]; subst.
  unfold loadOfRun. cbn [hd tl].
  destruct (feed_nonNegative rest Hrest (openLoad (rowId r) r (stopOfColumns r)))
    as [H1 H2]; try assumption.
  now apply finalize_expectedTime.
Qed.

Lemma expectedTime_covers_unloading_witness :
  Forall (fun l => lessEq (ofZ (30 * Z.of_nat (List.length (stops l))))
                          (expectedTimeMinutes l) = true)
         (parseTransportCsv scenarioText).
Proof.
  apply (expectedTime_covers_unloading scenarioText).
  evaluate_list.
  repeat (constructor; [ split; vm_compute; reflexivity | ]).
  constructor.
Defined.

(** The scenario load of two stops is expected to take 71 minutes, 60 of
    them for the stops. *)
Example expectedTime_of_scenario :
  map expectedTimeMinutes (parseTransportCsv scenarioText) = [ofZ 71].
Proof. vm_compute. reflexivity. Qed.

(** A negative distance can make the expected time less than the
    unloading time, and negative. *)
Example expectedTime_negative_distance :
  map expectedTimeMinutes (parseTransportCsv "1,,,,,,,,,,,-100") = [ofZ (-70)].
Proof. vm_compute. reflexivity. Qed.

(** ** Texts put together *)

Lemma split_nonempty (sep : ascii) (s : string) : split sep s <> [].
Proof.
  destruct s as [|c s]; simpl; [ discriminate | ].
  destruct (Ascii.eqb c sep); [ discriminate | ].
  destruct (split sep s); discriminate.
Qed.

(** The lines of two texts joined by the separator are the lines of the
    first followed by the lines of the second. *)
Lemma split_join (sep : ascii) (a b : string) :
  split sep (a ++ String sep b) = (split sep a ++ split sep b)%list.
Proof.
  induction a as [|c a IH]; simpl.
  - now rewrite Ascii.eqb_refl.
  - destruct (Ascii.eqb c sep); [ now rewrite IH | ].
    rewrite IH. pose proof (split_nonempty sep a) as Hne.
    destruct (split sep a) as [|w ws]; [ contradiction | reflexivity ].
Qed.

Lemma dataRows_join (a b : string) :
  dataRows (a ++ newline ++ b) = (dataRows a ++ dataRows b)%list.
Proof.
  unfold dataRows, newline.
  change (String "010" "" ++ b) with (String "010" b).
  now rewrite split_join, map_app, filter_app.
Qed.

Lemma parse_of_dataRows (a b : string) :
  dataRows a = dataRows b -> parseTransportCsv a = parseTransportCsv b.
Proof.
  intro H. now rewrite !parse_runs, H.
Qed.

Lemma parse_nil_dataRows (a : string) :
  parseTransportCsv a = [] -> dataRows a = [].
Proof.
  rewrite parse_runs. intro H. apply map_eq_nil in H. now apply runs_nil_iff.
Qed.

(** X9. Lines that give no load by themselves (headers, blank lines,
    comments) can stand before, between or after the lines of a text
    without changing the loads returned; they do not end a load either. *)
Theorem parse_ignores_other_lines (a other b : string)
  (Hother : parseTransportCsv other = []) :
  parseTransportCsv (other ++ newline ++ b) = parseTransportCsv b /\
  parseTransportCsv (a ++ newline ++ other) = parseTransportCsv a /\
  parseTransportCsv (a ++ newline ++ other ++ newline ++ b) =
    parseTransportCsv (a ++ newline ++ b).
Proof.
  apply parse_nil_dataRows in Hother.
  repeat split; apply parse_of_dataRows; rewrite !dataRows_join, Hother;
    now rewrite ?app_nil_r.
Qed.

Lemma parse_ignores_other_lines_witness :
  parseTransportCsv ("Load,Route,Stop" ++ newline ++ scenarioText)
    = parseTransportCsv scenarioText /\
  parseTransportCsv (scenarioText ++ newline ++ "Load,Route,Stop")
    = parseTransportCsv scenarioText /\
  parseTransportCsv (scenarioText ++ newline ++ "Load,Route,Stop" ++ newline ++
                     scenarioText)
    = parseTransportCsv (scenarioText ++ newline ++ scenarioText).
Proof.
  apply (parse_ignores_other_lines scenarioText "Load,Route,Stop" scenarioText).
  vm_compute. reflexivity.
Defined.

(** ** Parsing in pieces *)

Lemma lastError_cons {A : Type} (x y : A) (l : list A) :
  lastError (x :: y :: l) = lastError (y :: l).
Proof.
  unfold lastError. change (rev (x :: y :: l)) with (rev (y :: l) ++ [x])%list.
  destruct (rev (y :: l)) eqn:E; [ | reflexivity ].
  apply (f_equal (@List.length A)) in E. rewrite length_rev in E. discriminate.
Qed.

Lemma lastError_map {A B : Type} (f : A -> B) (l : list A) :
  lastError (map f l) = option_map f (lastError l).
Proof.
  unfold lastError. rewrite <- map_rev. now destruct (rev l).
Qed.

Lemma hd_error_map {A B : Type} (f : A -> B) (l : list A) :
  hd_error (map f l) = option_map f (hd_error l).
Proof. now destruct l. Qed.

Lemma runs_head (r : list string) (rest : list (list string)) :
  exists run more, runs (r :: rest) = (r :: run) :: more.
Proof.
  simpl. destruct (runs rest) as [|[|r' run] more]; try (now eexists _, _).
  destruct (String.eqb (rowId r) (rowId r')); now eexists _, _.
Qed.

(** The first run starts with the first row, and the last run has the id
    of the last row. *)
Lemma runs_first (rows : list (list string)) (r : list string) :
  hd_error rows = Some r ->
  exists run, hd_error (runs rows) = Some run /\ runId run = rowId r.
Proof.
  destruct rows as [|r0 rest]; [ discriminate | ]. intros [= ->].
  destruct (runs_head r rest) as (run & more & ->). now exists (r :: run).
Qed.

Lemma runs_last (rows : list (list string)) :
  forall r, lastError rows = Some r ->
            exists run, lastError (runs rows) = Some run /\ runId run = rowId r.
Proof.
  induction rows as [|r0 [|r1 rest] IH]; intros r Hr.
  - discriminate.
  - injection Hr as <-. now exists [r0].
  - rewrite lastError_cons in Hr. destruct (IH r Hr) as (run & Hrun & Hid).
    destruct (runs_head r1 rest) as (run1 & more & E).
    change (runs (r0 :: r1 :: rest))
      with (match runs (r1 :: rest) with
            | (r' :: run) :: more =>
                if String.eqb (rowId r0) (rowId r')
                then (r0 :: r' :: run) :: more
                else [r0] :: (r' :: run) :: more
            | _ => [[r0]]
            end).
    rewrite E in *. destruct (String.eqb (rowId r0) (rowId r1)) eqn:Eid.
    + destruct more as [|run2 more].
      * injection Hrun as <-. eexists. split; [ reflexivity | ].
        apply String.eqb_eq in Eid. simpl in *. congruence.
      * rewrite lastError_cons in *. now exists run.
    + rewrite lastError_cons. now exists run.
Qed.

(** The runs of two lists of rows whose seam separates two ids are the
    runs of the first followed by the runs of the second. *)
Lemma runs_app (rows1 rows2 : list (list string)) :
  (forall x y, lastError rows1 = Some x -> hd_error rows2 = Some y ->
               rowId x <> rowId y) ->
  runs (rows1 ++ rows2) = (runs rows1 ++ runs rows2)%list.
Proof.
  induction rows1 as [|r0 [|r1 rest] IH]; intro Hseam.
  - reflexivity.
  - destruct rows2 as [|y rows2]; [ reflexivity | ].
    destruct (runs_head y rows2) as (run & more & E).
    change (runs ([r0] ++ y :: rows2))
      with (match runs (y :: rows2) with
            | (r' :: run) :: more =>
                if String.eqb (rowId r0) (rowId r')
                then (r0 :: r' :: run) :: more
                else [r0] :: (r' :: run) :: more
            | _ => [[r0]]
            end).
    change (runs [r0]) with [[r0]]. rewrite E.
    assert (Hneq : rowId r0 <> rowId y) by (now apply Hseam).
    apply String.eqb_neq in Hneq. now rewrite Hneq.
  - assert (IH' : runs ((r1 :: rest) ++ rows2) = (runs (r1 :: rest) ++ runs rows2)%list).
    { apply IH. intros x y Hx Hy. apply Hseam; [ | assumption ].
      now rewrite lastError_cons. }
    destruct (runs_head r1 rest) as (run & more & E).
    change (runs ((r0 :: r1 :: rest) ++ rows2))
      with (match runs ((r1 :: rest) ++ rows2) with
            | (r' :: run) :: more =>
                if String.eqb (rowId r0) (rowId r')
                then (r0 :: r' :: run) :: more
                else [r0] :: (r' :: run) :: more
            | _ => [[r0]]
            end).
    change (runs (r0 :: r1 :: rest))
      with (match runs (r1 :: rest) with
            | (r' :: run) :: more =>
                if String.eqb (rowId r0) (rowId r')
                then (r0 :: r' :: run) :: more
                else [r0] :: (r' :: run) :: more
            | _ => [[r0]]
            end).
    rewrite IH', E. cbn [app].
    destruct (String.eqb (rowId r0) (rowId r1)); reflexivity.
Qed.

Lemma loadOfRun_id (rows : list (list string)) (run : list (list string)) :
  In run (runs rows) -> loadNo (loadOfRun run) = runId run.
Proof.
  intro Hin. pose proof (runs_nonempty rows) as Hne.
  rewrite Forall_forall in Hne. specialize (Hne run Hin).
  destruct (loadOfRun_loadNo run); [ assumption | contradiction ].
Qed.

Lemma lastError_In {A : Type} (l : list A) (x : A) :
  lastError l = Some x -> In x l.
Proof.
  unfold lastError. intro H. apply in_rev.
  destruct (rev l); [ discriminate | ]. injection H as <-. now left.
Qed.

Lemma hd_error_In {A : Type} (l : list A) (x : A) :
  hd_error l = Some x -> In x l.
Proof.
  destruct l; [ discriminate | ]. intros [= <-]. now left.
Qed.

(** X10. A text made of two texts on separate lines gives the loads of
    the first followed by the loads of the second, provided the last load
    of the first and the first load of the second, when both exist, have
    different numbers. *)
Theorem parse_in_pieces (a b : string)
  (Hseam : seamDiffers (parseTransportCsv a) (parseTransportCsv b)) :
  parseTransportCsv (a ++ newline ++ b) =
  (parseTransportCsv a ++ parseTransportCsv b)%list.
Proof.
  rewrite !parse_runs in *. rewrite dataRows_join, <- map_app. f_equal.
  apply runs_app. intros x y Hx Hy.
  destruct (runs_last _ x Hx) as (runx & Hrx & Hidx).
  destruct (runs_first _ y Hy) as (runy & Hry & Hidy).
  rewrite <- Hidx, <- Hidy.
  rewrite <- (loadOfRun_id (dataRows a) runx) by (now apply lastError_In).
  rewrite <- (loadOfRun_id (dataRows b) runy) by (now apply hd_error_In).
  apply Hseam.
  - now rewrite lastError_map, Hrx.
  - now rewrite hd_error_map, Hry.
Qed.

Lemma parse_in_pieces_witness :
  parseTransportCsv (scenarioText ++ newline ++ "2,R2") =
  (parseTransportCsv scenarioText ++ parseTransportCsv "2,R2")%list.
Proof.
  apply (parse_in_pieces scenarioText "2,R2").
  intros x y Hx Hy. vm_compute in Hx, Hy.
  injection Hx as <-. injection Hy as <-. discriminate.
Defined.

(** When the two numbers are the same the rows are one run, and the two
    loads become one. *)
Example parse_pieces_of_one_load :
  map (fun l => (loadNo l, List.length (stops l)))
      (parseTransportCsv ("1,a" ++ newline ++ "1,b"))
  = [("1", 2%nat)] /\
  map (fun l => (loadNo l, List.length (stops l)))
      (parseTransportCsv "1,a" ++ parseTransportCsv "1,b")
  = [("1", 1%nat); ("1", 1%nat)].
Proof. split; vm_compute; reflexivity. Qed.

End ParserMore.

(* ================================================================== *)
(** * Further properties of the time arithmetic and of the estimator   *)
(* ================================================================== *)

Module TimeMore.
Import JS Types CsvParser Spec Derived Quantities NumberFacts TimeProofs.

(** X11. The minutes between two clock strings do not depend on their
    order, whatever the strings. *)
Theorem calculateMinutesBetween_symmetric (a b : string) :
  calculateMinutesBetween a b = calculateMinutesBetween b a.
Proof.
  rewrite !calculateMinutesBetween_spec. unfold minutesBetween.
  rewrite (orb_comm (String.eqb b "")).
  destruct (String.eqb a "" || String.eqb b ""); [ reflexivity | ].
  apply abs_sub_comm.
Qed.

(** X12. Between two clock strings "H:MM" or "HH:MM" of the day the
    result is an integer from 0 to 1439, and it is 0 exactly when the two
    strings name the same minute. *)
Theorem calculateMinutesBetween_within_a_day
  (p1 p2 : bool) (h1 m1 h2 m2 : nat)
  (Hh1 : (h1 < 24)%nat) (Hm1 : (m1 < 60)%nat)
  (Hh2 : (h2 < 24)%nat) (Hm2 : (m2 < 60)%nat) :
  exists z : Z,
    calculateMinutesBetween (clock p1 h1 m1) (clock p2 h2 m2) = ofZ z /\
    0 <= z <= 1439 /\
    (z = 0 <-> h1 = h2 /\ m1 = m2).
Proof.
  exists (Z.abs (minuteOfDayOf h2 m2 - minuteOfDayOf h1 m1)).
  split; [ now apply calculateMinutesBetween_clocks | ].
  unfold minuteOfDayOf. split; [ lia | ]. split; [ lia | ].
  intros [-> ->]. lia.
Qed.

Lemma calculateMinutesBetween_within_a_day_witness :
  exists z : Z,
    calculateMinutesBetween (clock false 7 5) (clock true 0 10) = ofZ z /\
    0 <= z <= 1439 /\
    (z = 0 <-> 7%nat = 0%nat /\ 5%nat = 10%nat).
Proof.
  apply (calculateMinutesBetween_within_a_day false true 7 5 0 10); lia.
Defined.

Lemma calculateExpectedTime_integers (kms : Z) (stopCount : nat) :
  calculateExpectedTime (ofZ kms) (ofNat stopCount)
  = ofZ (kms + 30 * Z.of_nat stopCount).
Proof.
  unfold calculateExpectedTime, ofNat.
  cbn [mul add ofZ round]. f_equal.
  rewrite <- inject_Z_mult, <- inject_Z_plus.
  rewrite Qfloor_half. f_equal. lia.
Qed.

(** X13. For an integer number of kilometres and a number of stops whose
    estimate is below 2^53 in magnitude, the expected time is exactly the
    kilometres plus 30 minutes for each stop, on doubles as with the exact
    operations. *)
Theorem calculateExpectedTime_of_integers
  (kms : Z) (stopCount : nat)
  (Hsafe : Z.abs kms + 30 * Z.of_nat stopCount < 2 ^ 53) :
  Binary64.calculateExpectedTime (ofZ kms) (ofNat stopCount)
  = ofZ (kms + 30 * Z.of_nat stopCount) /\
  calculateExpectedTime (ofZ kms) (ofNat stopCount)
  = ofZ (kms + 30 * Z.of_nat stopCount).
Proof.
  split; [ | apply calculateExpectedTime_integers ].
  unfold ofZ at 1.
  rewrite (Binary64Facts.calculateExpectedTime_exact
             (inject_Z kms) stopCount 0 kms).
  - apply calculateExpectedTime_integers.
  - lia.
  - change (inject_Z (2 ^ 0)) with 1%Q. apply Qmult_1_r.
  - change (2 ^ 0) with 1. lia.
Qed.

Lemma calculateExpectedTime_of_integers_witness :
  Binary64.calculateExpectedTime (ofZ (-100)) (ofNat 1) = ofZ (-100 + 30 * 1) /\
  calculateExpectedTime (ofZ (-100)) (ofNat 1) = ofZ (-100 + 30 * 1).
Proof.
  apply (calculateExpectedTime_of_integers (-100) 1). reflexivity.
Defined.

(** From 2^53 on a kilometre more or a stop more can be lost: 2^53 + 1 is
    not a double. *)
Example calculateExpectedTime_beyond_safe_integers :
  Binary64.calculateExpectedTime (ofZ (2 ^ 53 - 29)) (ofNat 1)
  = ofZ (2 ^ 53) /\
  calculateExpectedTime (ofZ (2 ^ 53 - 29)) (ofNat 1) = ofZ (2 ^ 53 + 1).
Proof. split; vm_compute; reflexivity. Qed.

(** X14. The expected time does not decrease when the distance or the
    number of stops grows. *)
Theorem calculateExpectedTime_monotone
  (d d' : Q) (n n' : nat) (Hd : (d <= d')%Q) (Hn : (n <= n')%nat) :
  lessEq (calculateExpectedTime (Fin d) (ofNat n))
         (calculateExpectedTime (Fin d') (ofNat n')) = true.
Proof.
  unfold calculateExpectedTime, ofNat. cbn [mul add ofZ round].
  apply lessEq_ofZ. apply Qfloor_resp_le.
  assert (H : (inject_Z (Z.of_nat n) <= inject_Z (Z.of_nat n'))%Q)
    by (rewrite <- Zle_Qle; lia).
  change (inject_Z 30) with 30%Q. lra.
Qed.

Lemma calculateExpectedTime_monotone_witness :
  lessEq (calculateExpectedTime (Fin 12.5%Q) (ofNat 2))
         (calculateExpectedTime (Fin 40%Q) (ofNat 3)) = true.
Proof.
  apply (calculateExpectedTime_monotone 12.5%Q 40%Q 2 3);
    [ discriminate | lia ].
Defined.

End TimeMore.

(* ================================================================== *)
(** * Further properties of the aggregation and of the dashboard       *)
(* ================================================================== *)

Module AggregatorMore.
Import JS Types CsvParser Spec Derived App Dashboard Quantities.
Import NumberFacts SortFacts ObjectFacts AggregatorProofs.

(** ** Dictionaries *)

Lemma insertIndexed_perm {V : Type} (i : Z) (v : V) (l : list (Z * V)) :
  Permutation (insertIndexed i v l) ((i, v) :: l).
Proof.
  induction l as [|[j w] l IH]; simpl; [ reflexivity | ].
  destruct (i <? j); [ reflexivity | ].
  rewrite IH. apply perm_swap.
Qed.

(** [Object.values] lists the value of every property once. *)
Lemma values_perm {V : Type} (o : object V) :
  Permutation (values o) (map snd o).
Proof.
  unfold values. induction o as [|[k v] o IH]; simpl; [ reflexivity | ].
  destruct (arrayIndex k) as [i|].
  - rewrite insertIndexed_perm. simpl. now constructor.
  - rewrite <- Permutation_middle. now constructor.
Qed.

(** Writing a property replaces its value in place, or adds the property
    at the end. *)
Lemma set_split {V : Type} (o : object V) (k : string) (v : V) :
  match get o k with
  | Some v0 => exists o1 o2, o = (o1 ++ (k, v0) :: o2)%list /\
                             set o k v = (o1 ++ (k, v) :: o2)%list
  | None => set o k v = (o ++ [(k, v)])%list
  end.
Proof.
  induction o as [|[k' v'] o IH]; simpl; [ reflexivity | ].
  destruct (String.eqb k' k) eqn:E.
  - apply String.eqb_eq in E. subst k'. now exists [], o.
  - destruct (get o k) as [v0|].
    + destruct IH as (o1 & o2 & -> & ->). now exists ((k', v') :: o1), o2.
    + now rewrite IH.
Qed.

(** ** The dictionary of the aggregation *)

Lemma loadsOfDriver_snoc (k : string) (ls : list Load) (l : Load) :
  loadsOfDriver k (ls ++ [l]) =
  (loadsOfDriver k ls ++ (if String.eqb (driver l) k then [l] else []))%list.
Proof.
  unfold loadsOfDriver.
  apply (filter_snoc (fun l0 => String.eqb (driver l0) k)).
Qed.

Lemma kmsOfDriver_snoc (k : string) (ls : list Load) (l : Load) :
  kmsOfDriver k (ls ++ [l]) =
  if String.eqb (driver l) k
  then add (kmsOfDriver k ls) (add (totalDistance l) (totalReturnLeg l))
  else kmsOfDriver k ls.
Proof.
  unfold kmsOfDriver. rewrite loadsOfDriver_snoc.
  destruct (String.eqb (driver l) k).
  - now rewrite fold_left_app.
  - now rewrite app_nil_r.
Qed.

Lemma palletsOfDriver_snoc (k : string) (ls : list Load) (l : Load) :
  palletsOfDriver k (ls ++ [l]) =
  if String.eqb (driver l) k
  then add (palletsOfDriver k ls) (Types.totalPallets l)
  else palletsOfDriver k ls.
Proof.
  unfold palletsOfDriver. rewrite loadsOfDriver_snoc.
  destruct (String.eqb (driver l) k).
  - now rewrite fold_left_app.
  - now rewrite app_nil_r.
Qed.

Lemma groupOwn_keeps_grouped (ls : list Load) (o : object DriverChartData) (l : Load) :
  grouped ls o -> grouped (ls ++ [l]) (groupOwn o l).
Proof.
  intros (Hnd & Hcov & Hent & Hperm).
  assert (Hbase : NoDup (map fst o) /\
                  (forall l', In l' ls -> In (driver l') (map fst o)) /\
                  (forall k st, In (k, st) o ->
                     driverName st = k /\ loads st = loadsOfDriver k ls)).
  { split; [ assumption | ]. split; [ assumption | ].
    intros k st Hin. destruct (Hent k st Hin) as (H1 & H2 & _). now split. }
  destruct (groupOwn_grouped ls o l Hbase) as (Hnd' & Hcov' & Hent').
  assert (Hstat : forall stat,
             stat = match get o (driver l) with
                    | Some stat => stat
                    | None => emptyStats (driver l)
                    end ->
             totalKms stat = kmsOfDriver (driver l) ls /\
             totalPallets stat = palletsOfDriver (driver l) ls).
  { intros stat ->. destruct (get o (driver l)) as [st|] eqn:E.
    - apply get_In in E. destruct (Hent _ _ E) as (_ & _ & _ & H4 & H5). now split.
    - apply get_None in E.
      assert (Hnone : loadsOfDriver (driver l) ls = []).
      { apply loadsOfDriver_none. intros l' Hl' Heq. apply E.
        rewrite <- Heq. now apply Hcov. }
      unfold kmsOfDriver, palletsOfDriver. rewrite Hnone. now split. }
  split; [ assumption | ]. split; [ assumption | ]. split.
  - intros k st Hin. destruct (Hent' k st Hin) as (H1 & H2).
    split; [ assumption | ]. split; [ assumption | ].
    unfold groupOwn in Hin.
    apply set_In in Hin as [[-> ->] | [Hneq Hin]]; [ | | assumption ].
    + destruct (Hstat _ eq_refl) as (Hk & Hp).
      rewrite kmsOfDriver_snoc, palletsOfDriver_snoc, String.eqb_refl.
      cbn [loads totalKms totalPallets recordLoad]. rewrite Hk, Hp.
      split; [ | now split ].
      intro Habs. now apply app_eq_nil in Habs as [_ Habs].
    + destruct (Hent k st Hin) as (_ & _ & H3 & H4 & H5).
      rewrite kmsOfDriver_snoc, palletsOfDriver_snoc.
      assert (E : String.eqb (driver l) k = false)
        by (apply String.eqb_neq; congruence).
      rewrite E. now repeat split.
  - unfold groupOwn.
    pose proof (set_split o (driver l)
                  (recordLoad l match get o (driver l) with
                                | Some stat => stat
                                | None => emptyStats (driver l)
                                end)) as Hsplit.
    destruct (get o (driver l)) as [st|].
    + destruct Hsplit as (o1 & o2 & Ho & ->). subst o.
      rewrite flat_map_app in *. simpl in *.
      rewrite <- app_assoc.
      rewrite (Permutation_app_comm ls [l]). simpl.
      rewrite <- Hperm.
      rewrite !app_assoc. symmetry. apply Permutation_middle.
    + rewrite Hsplit, flat_map_app. simpl.
      now apply Permutation_app.
Qed.

Lemma fold_groupOwn_keeps_grouped (ls : list Load) :
  forall (done : list Load) (o : object DriverChartData),
    grouped done o -> grouped (done ++ ls) (fold_left groupOwn ls o).
Proof.
  induction ls as [|l ls IH]; intros done o H; simpl.
  - now rewrite app_nil_r.
  - replace (done ++ l :: ls)%list with ((done ++ [l]) ++ ls)%list
      by (now rewrite <- app_assoc).
    apply IH. now apply groupOwn_keeps_grouped.
Qed.

(** The dictionary after all the loads. *)
Lemma statsMap_grouped (ls : list Load) :
  grouped ls (fold_left groupOwn ls []).
Proof.
  apply (fold_groupOwn_keeps_grouped ls [] []).
  split; [ constructor | ]. split; [ intros ? [] | ].
  split; [ intros ? ? [] | reflexivity ].
Qed.

(** The result is a rearrangement of the finished objects of the
    dictionary. *)
Lemma entriesOf_perm (ls : list Load) :
  Permutation (entriesOf ls)
              (map (fun kv => finishStats (snd kv)) (fold_left groupOwn ls [])).
Proof.
  unfold entriesOf. rewrite sort_perm, values_perm. now rewrite map_map.
Qed.

Lemma entriesOf_entry (ls : list Load) (stat : DriverChartData) :
  In stat (entriesOf ls) ->
  exists k st, In (k, st) (fold_left groupOwn ls []) /\ stat = finishStats st.
Proof.
  intro H. apply (Permutation_in _ (entriesOf_perm ls)) in H.
  apply in_map_iff in H as ([k st] & <- & H). now exists k, st.
Qed.

(** ** One entry for each driver *)

(** The names of the entries are the distinct driver names of the loads. *)
Lemma entriesOf_names (ls : list Load) :
  Permutation (map driverName (entriesOf ls))
              (nodup string_dec (map driver ls)).
Proof.
  destruct (statsMap_grouped ls) as (Hnd & Hcov & Hent & _).
  rewrite (entriesOf_perm ls), map_map.
  assert (E : map (fun kv => driverName (finishStats (snd kv)))
                  (fold_left groupOwn ls [])
              = map fst (fold_left groupOwn ls [])).
  { apply map_ext_in. intros [k st] Hin. simpl.
    destruct (finishStats_fields st) as (-> & _).
    now destruct (Hent k st Hin). }
  rewrite E. apply NoDup_Permutation; [ assumption | apply NoDup_nodup | ].
  intro k. rewrite nodup_In. split.
  - intro Hk. apply in_map_iff in Hk as ([k' st] & Hk & Hin). simpl in Hk. subst k'.
    destruct (Hent k st Hin) as (_ & Hl & Hne & _).
    destruct (loads st) as [|l rest] eqn:El; [ contradiction | ].
    assert (Hin' : In l (loadsOfDriver k ls)) by (rewrite <- Hl; now left).
    unfold loadsOfDriver in Hin'. apply filter_In in Hin' as [Hin' Hd].
    apply String.eqb_eq in Hd. rewrite <- Hd. now apply in_map.
  - intro Hk. apply in_map_iff in Hk as (l & <- & Hl). now apply Hcov.
Qed.

(** X15. The aggregation throws exactly when a load has a driver named
    like a property of [Object.prototype]; when it returns, the result
    has exactly one entry for each driver that has a load in the input,
    and no other entry: the names of the entries are the distinct driver
    names of the loads. *)
Theorem one_entry_per_driver (ls : list Load) :
  (driverStats ls = None <->
   Exists (fun l => inherited (driver l) = true) ls) /\
  (forall r, driverStats ls = Some r ->
     Permutation (map driverName r) (nodup string_dec (map driver ls))).
Proof.
  split; [ apply driverStats_None_iff | ].
  intros r Hr. apply driverStats_Some in Hr as [_ ->]. apply entriesOf_names.
Qed.

Lemma flat_map_perm_ext {A B : Type} (f g : A -> list B) (l : list A) :
  (forall x, In x l -> Permutation (f x) (g x)) ->
  Permutation (flat_map f l) (flat_map g l).
Proof.
  induction l as [|x l IH]; intro H; simpl; [ reflexivity | ].
  apply Permutation_app.
  - apply H. now left.
  - apply IH. intros y Hy. apply H. now right.
Qed.

Lemma flat_map_map {A B C : Type} (f : A -> B) (g : B -> list C) (l : list A) :
  flat_map g (map f l) = flat_map (fun x => g (f x)) l.
Proof.
  induction l as [|x l IH]; simpl; [ reflexivity | now rewrite IH ].
Qed.

Lemma entriesOf_loads_perm (ls : list Load) :
  Permutation (flat_map loads (entriesOf ls)) ls.
Proof.
  destruct (statsMap_grouped ls) as (_ & _ & _ & Hperm).
  rewrite (entriesOf_perm ls), flat_map_map.
  etransitivity; [ | exact Hperm ].
  apply flat_map_perm_ext. intros [k st] _. simpl.
  destruct (finishStats_fields st) as (_ & -> & _). apply sort_perm.
Qed.

(** X16. When no driver is named like a property of [Object.prototype],
    the loads of the entries of the result, taken together, are the loads
    of the input: every load is in the entry of one driver, once. *)
Theorem every_load_in_one_entry (ls : list Load) (Hnames : ownNames ls) :
  exists r : list DriverChartData,
    driverStats ls = Some r /\ Permutation (flat_map loads r) ls.
Proof.
  exists (entriesOf ls). split; [ now apply driverStats_own | ].
  apply entriesOf_loads_perm.
Qed.

Lemma every_load_in_one_entry_witness :
  exists r : list DriverChartData,
    driverStats (parseTransportCsv threeLoadsText) = Some r /\
    Permutation (flat_map loads r) (parseTransportCsv threeLoadsText).
Proof.
  apply (every_load_in_one_entry (parseTransportCsv threeLoadsText)).
  unfold ownNames. evaluate_list.
  repeat (constructor; [ vm_compute; reflexivity | ]). constructor.
Defined.

Lemma entriesOf_have_loads (ls : list Load) (stat : DriverChartData) :
  In stat (entriesOf ls) ->
  loads stat <> [] /\
  Forall (fun l => In l ls /\ driver l = driverName stat) (loads stat).
Proof.
  intro Hin.
  apply entriesOf_entry in Hin as (k & st & Hin & ->).
  destruct (statsMap_grouped ls) as (_ & _ & Hent & _).
  destruct (Hent k st Hin) as (Hn & Hl & Hne & _).
  destruct (finishStats_fields st) as (-> & -> & _).
  split.
  - intro Habs. apply Hne.
    pose proof (sort_perm byDespatchTime (loads st)) as Hp.
    rewrite Habs in Hp. now apply Permutation_nil.
  - apply Forall_forall. intros l Hl'. apply sort_In in Hl'.
    rewrite Hl in Hl'. unfold loadsOfDriver in Hl'.
    apply filter_In in Hl' as [? Hd]. apply String.eqb_eq in Hd.
    split; [ assumption | congruence ].
Qed.

(** X17. When no driver is named like a property of [Object.prototype],
    every entry of the result has at least one load, and each of its loads
    is a load of the input with the name of the entry as driver. *)
Theorem entries_have_loads (ls : list Load) (Hnames : ownNames ls) :
  exists r : list DriverChartData,
    driverStats ls = Some r /\
    forall stat, In stat r ->
      loads stat <> [] /\
      Forall (fun l => In l ls /\ driver l = driverName stat) (loads stat).
Proof.
  exists (entriesOf ls). split; [ now apply driverStats_own | ].
  apply entriesOf_have_loads.
Qed.

Lemma entries_have_loads_witness :
  let ls := parseTransportCsv threeLoadsText in
  exists r : list DriverChartData,
    driverStats ls = Some r /\
    forall stat, In stat r ->
      loads stat <> [] /\
      Forall (fun l => In l ls /\ driver l = driverName stat) (loads stat).
Proof.
  intro ls. apply (entries_have_loads ls).
  unfold ownNames, ls. evaluate_list.
  repeat (constructor; [ vm_compute; reflexivity | ]). constructor.
Defined.

Lemma entriesOf_totals (ls : list Load) (stat : DriverChartData) :
  In stat (entriesOf ls) ->
  totalKms stat = kmsOfDriver (driverName stat) ls /\
  totalPallets stat = palletsOfDriver (driverName stat) ls.
Proof.
  intro Hin. apply entriesOf_entry in Hin as (k & st & Hin & ->).
  destruct (statsMap_grouped ls) as (_ & _ & Hent & _).
  destruct (Hent k st Hin) as (Hn & _ & _ & Hk & Hp).
  unfold finishStats.
  destruct (gapLoop (sort byDespatchTime (loads st)) (ofZ 0) (ofZ 0)).
  cbn [totalKms totalPallets driverName]. rewrite Hn. now split.
Qed.

(** X18. When no driver is named like a property of [Object.prototype],
    the [totalKms] of an entry is the sum of [totalDistance +
    totalReturnLeg] over the loads of its driver, and its [totalPallets]
    the sum of their [totalPallets], both added from left to right in the
    order of the input. *)
Theorem entry_totals (ls : list Load) (Hnames : ownNames ls) :
  exists r : list DriverChartData,
    driverStats ls = Some r /\
    forall stat, In stat r ->
      totalKms stat = kmsOfDriver (driverName stat) ls /\
      totalPallets stat = palletsOfDriver (driverName stat) ls.
Proof.
  exists (entriesOf ls). split; [ now apply driverStats_own | ].
  apply entriesOf_totals.
Qed.

Lemma entry_totals_witness :
  let ls := parseTransportCsv threeLoadsText in
  exists r : list DriverChartData,
    driverStats ls = Some r /\
    forall stat, In stat r ->
      totalKms stat = kmsOfDriver (driverName stat) ls /\
      totalPallets stat = palletsOfDriver (driverName stat) ls.
Proof.
  intro ls. apply (entry_totals ls).
  unfold ownNames, ls. evaluate_list.
  repeat (constructor; [ vm_compute; reflexivity | ]). constructor.
Defined.

(** The driver B of three loads of 100, 2 and 2 km, and the driver A. *)
Example entry_totals_of_three_loads :
  option_map (map (fun s => (driverName s, totalKms s)))
             (driverStats (parseTransportCsv threeLoadsText))
  = Some [("B", ofZ 104); ("A", ofZ 50)].
Proof. vm_compute. reflexivity. Qed.

(** ** Loads despatched at the same minute *)

Lemma insertBy_filter {A : Type} (cmp : A -> A -> number) (P : A -> bool)
      (x : A) (l : list A) :
  (forall y, P x = true -> P y = true -> gt0 (cmp x y) = false) ->
  filter P (insertBy cmp x l) = filter P (x :: l).
Proof.
  intro H. induction l as [|y l IH]; [ reflexivity | ].
  cbn [insertBy]. destruct (gt0 (cmp x y)) eqn:E; [ | reflexivity ].
  cbn [filter] in *. rewrite IH.
  destruct (P x) eqn:Ex, (P y) eqn:Ey; try reflexivity.
  rewrite (H y eq_refl Ey) in E. discriminate.
Qed.

(** Sorting keeps the order of the elements of a class whose members the
    comparator never puts one after the other. *)
Lemma sort_filter {A : Type} (cmp : A -> A -> number) (P : A -> bool) (l : list A) :
  (forall x y, P x = true -> P y = true -> gt0 (cmp x y) = false) ->
  filter P (sort cmp l) = filter P l.
Proof.
  intro H. induction l as [|x l IH]; [ reflexivity | ].
  cbn [sort fold_right]. fold (sort cmp l).
  rewrite insertBy_filter by (intro y; apply H).
  cbn [filter]. now rewrite IH.
Qed.

(** Two numbers equal to a third are not put one after the other by a
    comparator that subtracts them. *)
Lemma gt0_sub_sameNumber (u v t : number) :
  sameNumber u t = true -> sameNumber v t = true -> gt0 (sub u v) = false.
Proof.
  destruct u as [|s|[an ad]], v as [|s'|[bn bd]], t as [|s''|[cn cd]];
    simpl; try discriminate.
  - intros H1 H2. apply Bool.eqb_prop in H1, H2. subst.
    now destruct s''.
  - intros H1 H2. apply Qeq_bool_iff in H1, H2.
    unfold isPosQ, Qeq in *. simpl in *. apply Z.ltb_ge. nia.
Qed.




(** The driver A with loads 1 to 4 despatched at 8:00, 9:00, 08:00 and
    7:00: load 4 comes first, and load 1 stays before load 3. *)
Example same_minute_loads :
  option_map
    (map (fun s => (driverName s, map loadNo (loads s),
                    map loadNo (despatchedAt "8:00" (loads s)))))
    (driverStats (parseTransportCsv sameMinuteText))
  = Some [("A", ["4"; "1"; "3"; "2"], ["1"; "3"]); ("B", ["5"], ["5"])].
Proof. vm_compute. reflexivity. Qed.

(** ** The timeline *)



(** ** The order of the entries *)

(** X25. For a text none of whose drivers is named like a property of
    [Object.prototype] and whose data rows have a distance and a return
    leg that are not negative, the aggregation of the loads parsed
    returns, and its entries are in descending order of [totalKms]. *)
Theorem parsed_loads_sorted_by_kms
  (csvText : string)
  (Hnames : ownNames (parseTransportCsv csvText))
  (Hrows : Forall (fun r => nonNegative (distance (stopOfColumns r)) = true /\
                            nonNegative (returnLeg (stopOfColumns r)) = true)
                  (dataRows csvText)) :
  exists r : list DriverChartData,
    driverStats (parseTransportCsv csvText) = Some r /\
    descendingByTotalKms r.
Proof.
  exists (entriesOf (parseTransportCsv csvText)).
  split; [ now apply driverStats_own | ].
  apply entriesOf_descending, entriesOf_totals_not_NaN.
  apply ParserMore.parse_Forall.
  intros run Hin Hne. apply ParserMore.loadOfRun_nonNegative; [ assumption | ].
  rewrite Forall_forall in *. intros r Hr. apply Hrows.
  now apply (ParserMore.runs_In _ run).
Qed.

Lemma parsed_loads_sorted_by_kms_witness :
  exists r : list DriverChartData,
    driverStats (parseTransportCsv threeLoadsText) = Some r /\
    descendingByTotalKms r.
Proof.
  apply (parsed_loads_sorted_by_kms threeLoadsText).
  - unfold ownNames. evaluate_list.
    repeat (constructor; [ vm_compute; reflexivity | ]). constructor.
  - evaluate_list.
    repeat (constructor; [ split; vm_compute; reflexivity | ]). constructor.
Defined.

(** ** Drivers with the same total *)

Lemma fold_add_integers {A : Type} (g : A -> number) (z : A -> Z) (l : list A) :
  (forall x, In x l -> g x = ofZ (z x)) ->
  forall a : Z,
    fold_left (fun acc x => add acc (g x)) l (ofZ a) = ofZ (a + sumZ (map z l)).
Proof.
  induction l as [|x l IH]; intros H a.
  - cbn [fold_left map]. change (sumZ []) with 0. now rewrite Z.add_0_r.
  - cbn [fold_left map].
    change (sumZ (z x :: map z l)) with (z x + sumZ (map z l)).
    rewrite (H x) by now left. rewrite add_ofZ, IH.
    + f_equal. lia.
    + intros y Hy. apply H. now right.
Qed.

(** Loads whose distance and return leg are integers give every driver an
    integer total, and entries in descending order of it. *)
Lemma integer_loads_descending (ls : list Load) :
  Forall (fun l => isInteger (totalDistance l) /\
                   isInteger (totalReturnLeg l)) ls ->
  descendingByTotalKms (entriesOf ls).
Proof.
  intro Hint. apply entriesOf_descending.
  apply Forall_forall. intros s Hs.
  destruct (entriesOf_totals ls s Hs) as [-> _]. unfold kmsOfDriver.
  rewrite (fold_add_integers
             (fun l => add (totalDistance l) (totalReturnLeg l))
             (fun l => integerOf (totalDistance l) +
                       integerOf (totalReturnLeg l))); [ reflexivity | ].
  intros l Hl. unfold loadsOfDriver in Hl. apply filter_In in Hl as [Hl _].
  rewrite Forall_forall in Hint. destruct (Hint l Hl) as [Hd Hr].
  unfold isInteger in Hd, Hr.
  transitivity (add (ofZ (integerOf (totalDistance l)))
                    (ofZ (integerOf (totalReturnLeg l)))).
  - now rewrite <- Hd, <- Hr.
  - apply add_ofZ.
Qed.

Lemma set_keys_exact {V : Type} (o : object V) (k : string) (v : V) :
  map fst (set o k v) =
  if existsb (String.eqb k) (map fst o) then map fst o
  else (map fst o ++ [k])%list.
Proof.
  induction o as [|[k' v'] o IH]; [ reflexivity | ].
  cbn [set map fst existsb]. rewrite (String.eqb_sym k k').
  destruct (String.eqb k' k); [ reflexivity | ].
  cbn [map fst orb]. rewrite IH.
  now destruct (existsb (String.eqb k) (map fst o)).
Qed.

Lemma statsMap_keys (ls : list Load) :
  forall o : object DriverChartData,
    map fst (fold_left groupOwn ls o) =
    fold_left (fun seen d => if existsb (String.eqb d) seen then seen
                             else (seen ++ [d])%list)
              (map driver ls) (map fst o).
Proof.
  induction ls as [|l ls IH]; intro o; [ reflexivity | ].
  cbn [fold_left map]. rewrite IH. f_equal.
  unfold groupOwn. apply set_keys_exact.
Qed.

(** The properties of the dictionary are in the order in which the
    drivers first appear. *)
Lemma statsMap_firstSeen (ls : list Load) :
  map fst (fold_left groupOwn ls []) = firstSeen (map driver ls).
Proof. apply (statsMap_keys ls []). Qed.

Lemma values_named {V : Type} (o : object V) :
  Forall (fun k => arrayIndex k = None) (map fst o) -> values o = map snd o.
Proof.
  intro H.
  assert (Hi : indexedValues o = []).
  { induction o as [|[k v] o IH]; [ reflexivity | ].
    inversion H as [|? ? Hk Ho]; subst. simpl in Hk.
    cbn [indexedValues]. rewrite Hk. now apply IH. }
  assert (Hn : namedValues o = map snd o).
  { induction o as [|[k v] o IH]; [ reflexivity | ].
    inversion H as [|? ? Hk Ho]; subst. simpl in Hk.
    cbn [namedValues map snd]. rewrite Hk. f_equal. apply IH; [ assumption | ].
    cbn [indexedValues] in Hi. now rewrite Hk in Hi. }
  unfold values. now rewrite Hi, Hn.
Qed.

Lemma names_of_selected (P : DriverChartData -> bool) (Q : string -> bool)
      (o : object DriverChartData) :
  (forall k st, In (k, st) o ->
     driverName (finishStats st) = k /\ P (finishStats st) = Q k) ->
  map driverName (filter P (map finishStats (map snd o))) = filter Q (map fst o).
Proof.
  induction o as [|[k st] o IH]; intro H; [ reflexivity | ].
  cbn [map filter fst snd].
  destruct (H k st) as [Hn Hp]; [ now left | ].
  rewrite Hp. rewrite <- IH by (intros k' st' Hin; apply H; now right).
  destruct (Q k); [ | reflexivity ]. cbn [map]. now rewrite Hn.
Qed.

(** X26. When no driver name is an array index or the name of a property
    of [Object.prototype], and the distances and return legs of the loads
    are integers whose magnitudes add up to at most [maxSafeInteger], the
    entries are in descending order of [totalKms], and those that have the
    same [totalKms] are in the order in which their drivers first appear
    in the input. *)
Theorem equal_totals_keep_first_seen_order
  (ls : list Load) (Hnames : ownNames ls)
  (Hindex : Forall (fun l => arrayIndex (driver l) = None) ls)
  (Hint : Forall (fun l => isInteger (totalDistance l) /\
                           isInteger (totalReturnLeg l)) ls)
  (Hsafe : sumZ (map (fun l => Z.abs (integerOf (totalDistance l)) +
                               Z.abs (integerOf (totalReturnLeg l))) ls)
           <= maxSafeInteger)
  (t : Z) :
  exists r : list DriverChartData,
    driverStats ls = Some r /\
    descendingByTotalKms r /\
    map driverName (filter (fun s => sameNumber (totalKms s) (ofZ t)) r)
    = filter (fun d => sameNumber (kmsOfDriver d ls) (ofZ t))
             (firstSeen (map driver ls)).
Proof.
  exists (entriesOf ls). split; [ now apply driverStats_own | ].
  split; [ now apply integer_loads_descending | ].
  destruct (statsMap_grouped ls) as (_ & _ & Hent & _).
  assert (Hkeys : forall k, In k (map fst (fold_left groupOwn ls [])) ->
                            exists l, In l ls /\ driver l = k).
  { intros k Hk. apply in_map_iff in Hk as ([k' st] & Hk & Hin).
    simpl in Hk. subst k'.
    destruct (Hent k st Hin) as (_ & Hl & Hne & _).
    destruct (loads st) as [|l rest] eqn:El; [ contradiction | ].
    assert (Hin' : In l (loadsOfDriver k ls)) by (rewrite <- Hl; now left).
    unfold loadsOfDriver in Hin'. apply filter_In in Hin' as [Hin' Hd].
    apply String.eqb_eq in Hd. now exists l. }
  unfold entriesOf. rewrite sort_filter.
  - rewrite values_named.
    + rewrite <- statsMap_firstSeen.
      apply names_of_selected. intros k st Hin.
      destruct (Hent k st Hin) as (Hn & _ & _ & Hk & _).
      destruct (finishStats_fields st) as (-> & _ & ->).
      now rewrite Hn, Hk.
    + apply Forall_forall. intros k Hk.
      destruct (Hkeys k Hk) as (l & Hl & <-).
      rewrite Forall_forall in Hindex. now apply Hindex.
  - intros x y Hx Hy. unfold byTotalKmsDesc.
    now apply (gt0_sub_sameNumber _ _ (ofZ t)).
Qed.

Lemma equal_totals_keep_first_seen_order_witness :
  let ls := parseTransportCsv equalTotalsText in
  exists r : list DriverChartData,
    driverStats ls = Some r /\
    descendingByTotalKms r /\
    map driverName (filter (fun s => sameNumber (totalKms s) (ofZ 50)) r)
    = filter (fun d => sameNumber (kmsOfDriver d ls) (ofZ 50))
             (firstSeen (map driver ls)).
Proof.
  intro ls. apply (equal_totals_keep_first_seen_order ls).
  - unfold ownNames, ls. evaluate_list.
    repeat (constructor; [ vm_compute; reflexivity | ]). constructor.
  - unfold ls. evaluate_list.
    repeat (constructor; [ vm_compute; reflexivity | ]). constructor.
  - unfold ls. evaluate_list.
    repeat (constructor; [ split; vm_compute; reflexivity | ]). constructor.
  - apply Z.leb_le. vm_compute. reflexivity.
Defined.

(** The drivers A, B, C and D with 50, 100, 50 and 20 km: B comes first,
    and A stays before C. *)
Example equal_totals_order :
  option_map (map (fun s => (driverName s, totalKms s)))
             (driverStats (parseTransportCsv equalTotalsText))
  = Some [("B", ofZ 100); ("A", ofZ 50); ("C", ofZ 50); ("D", ofZ 20)].
Proof. vm_compute. reflexivity. Qed.

(** Drivers named by array indices come in the order of the indices
    instead: 9 before 10, though 10 is met first. *)
Example index_named_drivers_order :
  map driver (parseTransportCsv indexNamedDriversText) = ["10"; "9"] /\
  option_map (map driverName)
             (driverStats (parseTransportCsv indexNamedDriversText))
  = Some ["9"; "10"].
Proof. split; vm_compute; reflexivity. Qed.

(** ** The headline totals *)

Lemma sumZ_perm (l1 l2 : list Z) : Permutation l1 l2 -> sumZ l1 = sumZ l2.
Proof.
  induction 1; simpl; lia.
Qed.

Lemma sumZ_flat_map {A B : Type} (z : B -> Z) (f : A -> list B) (l : list A) :
  sumZ (map z (flat_map f l)) = sumZ (map (fun x => sumZ (map z (f x))) l).
Proof.
  induction l as [|x l IH]; simpl; [ reflexivity | ].
  now rewrite map_app, ParserMore.sumZ_app, IH.
Qed.

Lemma entriesOf_loads (ls : list Load) (stat : DriverChartData) :
  In stat (entriesOf ls) ->
  Permutation (loads stat) (loadsOfDriver (driverName stat) ls).
Proof.
  intro Hin. apply entriesOf_In in Hin as (st & -> & Hl).
  destruct (finishStats_fields st) as (-> & -> & _).
  rewrite <- Hl. apply sort_perm.
Qed.

(** Adding over the entries a field that adds an integer of each load of
    the driver gives the sum of the integers of all the loads. *)
Lemma reduce_entries
      (field : DriverChartData -> number) (perLoad : Load -> number)
      (z : Load -> Z) (ls : list Load) :
  (forall stat, In stat (entriesOf ls) ->
     field stat = fold_left (fun acc l => add acc (perLoad l))
                            (loadsOfDriver (driverName stat) ls) (ofZ 0)) ->
  (forall l, In l ls -> perLoad l = ofZ (z l)) ->
  fold_left (fun acc st => add acc (field st)) (entriesOf ls) (ofZ 0)
  = ofZ (sumZ (map z ls)).
Proof.
  intros Hfield Hload.
  rewrite (fold_add_integers field (fun st => sumZ (map z (loads st)))).
  - rewrite Z.add_0_l, <- sumZ_flat_map. f_equal.
    apply sumZ_perm, Permutation_map, entriesOf_loads_perm.
  - intros stat Hin. rewrite (Hfield stat Hin).
    rewrite (fold_add_integers perLoad z).
    + rewrite Z.add_0_l. f_equal.
      apply sumZ_perm, Permutation_map. symmetry.
      now apply entriesOf_loads.
    + intros l Hl. apply Hload. unfold loadsOfDriver in Hl.
      now apply filter_In in Hl.
Qed.

Lemma integerOf_ofZ (z : Z) : integerOf (ofZ z) = z.
Proof. simpl. apply Qfloor_Z. Qed.

(** X21. When no driver is named like a property of [Object.prototype]
    and the distance, the return leg and the pallets of every load are
    integers whose magnitudes add up to at most [maxSafeInteger], the
    total distance of the dashboard is the sum of [totalDistance +
    totalReturnLeg] over all the loads and its total of pallets the sum of
    their [totalPallets]: grouping by driver loses and repeats nothing. *)
Theorem totals_of_integer_loads
  (ls : list Load) (Hnames : ownNames ls)
  (Hint : Forall (fun l => isInteger (totalDistance l) /\
                           isInteger (totalReturnLeg l) /\
                           isInteger (Types.totalPallets l)) ls)
  (Hkms : sumZ (map (fun l => Z.abs (integerOf (totalDistance l)) +
                              Z.abs (integerOf (totalReturnLeg l))) ls)
          <= maxSafeInteger)
  (Hpallets : sumZ (map (fun l => Z.abs (integerOf (Types.totalPallets l))) ls)
              <= maxSafeInteger) :
  exists r : list DriverChartData,
    driverStats ls = Some r /\
    Totals.kms (totals ls r) =
      ofZ (sumZ (map (fun l => integerOf (totalDistance l) +
                               integerOf (totalReturnLeg l)) ls)) /\
    Totals.pallets (totals ls r) =
      ofZ (sumZ (map (fun l => integerOf (Types.totalPallets l)) ls)).
Proof.
  exists (entriesOf ls). split; [ now apply driverStats_own | ].
  rewrite Forall_forall in Hint. unfold totals. cbn [Totals.kms Totals.pallets].
  split.
  - apply (reduce_entries totalKms
             (fun l => add (totalDistance l) (totalReturnLeg l))).
    + intros stat Hin. now apply entriesOf_totals.
    + intros l Hl. destruct (Hint l Hl) as (Hd & Hr & _).
      unfold isInteger in Hd, Hr.
      transitivity (add (ofZ (integerOf (totalDistance l)))
                        (ofZ (integerOf (totalReturnLeg l)))).
      * now rewrite <- Hd, <- Hr.
      * apply add_ofZ.
  - apply (reduce_entries totalPallets Types.totalPallets).
    + intros stat Hin. now apply entriesOf_totals.
    + intros l Hl. now destruct (Hint l Hl) as (_ & _ & Hp).
Qed.

Lemma totals_of_integer_loads_witness :
  let ls := parseTransportCsv threeLoadsText in
  exists r : list DriverChartData,
    driverStats ls = Some r /\
    Totals.kms (totals ls r) =
      ofZ (sumZ (map (fun l => integerOf (totalDistance l) +
                               integerOf (totalReturnLeg l)) ls)) /\
    Totals.pallets (totals ls r) =
      ofZ (sumZ (map (fun l => integerOf (Types.totalPallets l)) ls)).
Proof.
  intro ls. apply (totals_of_integer_loads ls).
  - unfold ownNames, ls. evaluate_list.
    repeat (constructor; [ vm_compute; reflexivity | ]). constructor.
  - unfold ls. evaluate_list.
    repeat (constructor; [ repeat split; vm_compute; reflexivity | ]).
    constructor.
  - apply Z.leb_le. vm_compute. reflexivity.
  - apply Z.leb_le. vm_compute. reflexivity.
Defined.

(** The four loads of 50, 100, 2 and 2 km make 154 km. *)
Example totals_of_three_loads :
  let ls := parseTransportCsv threeLoadsText in
  option_map (fun r => Totals.kms (totals ls r)) (driverStats ls)
  = Some (ofZ 154).
Proof. vm_compute. reflexivity. Qed.

(** X22. For a text none of whose drivers is named like a property of
    [Object.prototype] and the magnitudes of whose pallets add up to at
    most [maxSafeInteger], the total of pallets the dashboard shows for
    the loads parsed from it is the sum of the pallets of its data rows. *)
Theorem total_pallets_of_text
  (csvText : string)
  (Hnames : ownNames (parseTransportCsv csvText))
  (Hsafe : sumZ (map (fun r => Z.abs (palletCount r)) (dataRows csvText))
           <= maxSafeInteger) :
  exists r : list DriverChartData,
    driverStats (parseTransportCsv csvText) = Some r /\
    Totals.pallets (totals (parseTransportCsv csvText) r)
    = ofZ (sumZ (map palletCount (dataRows csvText))).
Proof.
  exists (entriesOf (parseTransportCsv csvText)).
  split; [ now apply driverStats_own | ].
  unfold totals. cbn [Totals.pallets].
  rewrite (reduce_entries totalPallets Types.totalPallets
             (fun l => integerOf (Types.totalPallets l))).
  - f_equal. rewrite ParserProofs.parse_runs, map_map.
    rewrite <- (ParserProofs.runs_concat (dataRows csvText)) at 2.
    rewrite ParserMore.sumZ_concat. f_equal.
    apply map_ext_in. intros run Hin.
    pose proof (ParserProofs.runs_nonempty (dataRows csvText)) as Hne.
    rewrite Forall_forall in Hne.
    rewrite ParserMore.loadOfRun_totalPallets by (now apply Hne).
    apply integerOf_ofZ.
  - intros stat Hin. now apply entriesOf_totals.
  - intros l Hl. rewrite ParserProofs.parse_runs in Hl.
    apply in_map_iff in Hl as (run & <- & Hin).
    pose proof (ParserProofs.runs_nonempty (dataRows csvText)) as Hne.
    rewrite Forall_forall in Hne.
    rewrite ParserMore.loadOfRun_totalPallets by (now apply Hne).
    now rewrite integerOf_ofZ.
Qed.

Lemma total_pallets_of_text_witness :
  exists r : list DriverChartData,
    driverStats (parseTransportCsv scenarioText) = Some r /\
    Totals.pallets (totals (parseTransportCsv scenarioText) r)
    = ofZ (sumZ (map palletCount (dataRows scenarioText))).
Proof.
  apply (total_pallets_of_text scenarioText).
  - unfold ownNames. evaluate_list.
    repeat (constructor; [ vm_compute; reflexivity | ]). constructor.
  - apply Z.leb_le. vm_compute. reflexivity.
Defined.

(** The 10 and 15 pallets of the scenario make 25. *)
Example total_pallets_of_scenario :
  let ls := parseTransportCsv scenarioText in
  option_map (fun r => Totals.pallets (totals ls r)) (driverStats ls)
  = Some (ofZ 25).
Proof. vm_compute. reflexivity. Qed.

End AggregatorMore.

(* ================================================================== *)
(** * The text of a duration                                           *)
(* ================================================================== *)

Module FormatMore.
Import JS Types CsvParser Spec App Builtins Dashboard Quantities.

Lemma Qfloor_unique (x : Q) (z : Z) :
  (inject_Z z <= x)%Q -> (x < inject_Z z + 1)%Q -> Qfloor x = z.
Proof.
  intros Hle Hlt. apply Z.le_antisymm.
  - apply Z.lt_succ_r. rewrite Zlt_Qlt.
    apply Qle_lt_trans with x; [ apply Qfloor_le | ].
    unfold Z.succ. rewrite inject_Z_plus. exact Hlt.
  - rewrite <- (Qfloor_Z z). now apply Qfloor_resp_le.
Qed.

Lemma toStringInteger_ofZ (z : Z) : toStringInteger (ofZ z) = decimal z.
Proof. unfold toStringInteger, ofZ, decimal. now rewrite Qfloor_Z. Qed.

Lemma round_ofZ (z : Z) : round (ofZ z) = ofZ z.
Proof.
  unfold round, ofZ. do 2 f_equal. apply NumberFacts.Qfloor_half.
Qed.

Lemma lessThan_ofZ (a b : Z) : lessThan (ofZ a) (ofZ b) = (a <? b).
Proof. simpl. now rewrite !Z.mul_1_r. Qed.

Lemma floor_div_60 (z : Z) : floor (div (ofZ z) (ofZ 60)) = ofZ (z / 60).
Proof.
  unfold floor, div, ofZ. simpl. do 2 f_equal.
  unfold Qfloor, Qdiv, Qmult, Qinv, inject_Z. simpl. now rewrite Z.mul_1_r.
Qed.

Lemma remainder_60 (z : Z) : 0 <= z -> remainder (ofZ z) (ofZ 60) = ofZ (z mod 60).
Proof.
  intro Hz. unfold remainder, ofZ. simpl. f_equal.
  assert (Hneg : isNegQ (inject_Z z / inject_Z 60) = false).
  { unfold isNegQ, Qdiv, Qmult, Qinv, inject_Z. simpl. apply Z.ltb_ge. lia. }
  unfold truncate. rewrite Hneg.
  assert (Hq : Qfloor (inject_Z z / inject_Z 60) = z / 60).
  { unfold Qfloor, Qdiv, Qmult, Qinv, inject_Z. simpl. now rewrite Z.mul_1_r. }
  rewrite Hq. unfold Qminus, Qplus, Qmult, Qopp, inject_Z.
  cbn [Qnum Qden Pos.mul]. f_equal. rewrite Z.mod_eq by lia. lia.
Qed.

(** The hours of a whole number of minutes below 2^50 are the same on
    doubles: the quotient by 60 is rounded, but not up to the next hour. *)
Lemma binary64_floor_div_60 (z : Z) :
  60 <= z < 2 ^ 50 -> floor (Binary64.div (ofZ z) (ofZ 60)) = ofZ (z / 60).
Proof.
  intro Hz. unfold Binary64.div, ofZ. cbn [div isZeroQ Qnum inject_Z Z.eqb].
  cbn [Binary64.rounded].
  destruct (Binary64Facts.round64_quotient_60 z Hz) as (q' & -> & Hq).
  cbn [floor]. now rewrite Hq.
Qed.

(** X23. For a whole number of minutes below 2^50 the text is the minutes
    followed by "m" below an hour, and from an hour on the hours followed
    by "h" and, unless they are 0, the minutes left, which are then below
    60; the numbers are written in decimal, and the quotient rounded to a
    double gives the same text as the exact one. *)
Theorem formatMinutesToText_of_integer (n : nat) (Hsafe : Z.of_nat n < 2 ^ 50) :
  formatMinutesToText (ofNat n) =
    (if Z.of_nat n <? 60 then decimal (Z.of_nat n) ++ "m"
     else if 0 <? Z.of_nat n mod 60
          then decimal (Z.of_nat n / 60) ++ "h " ++
               decimal (Z.of_nat n mod 60) ++ "m"
          else decimal (Z.of_nat n / 60) ++ "h") /\
  Binary64.formatMinutesToText (ofNat n) = formatMinutesToText (ofNat n) /\
  0 <= Z.of_nat n mod 60 < 60.
Proof.
  set (z := Z.of_nat n) in *.
  split; [ | split; [ | apply Z.mod_pos_bound; lia ] ].
  - unfold formatMinutesToText, ofNat. fold z.
    rewrite lessThan_ofZ. destruct (z <? 60).
    + now rewrite round_ofZ, toStringInteger_ofZ.
    + rewrite floor_div_60, remainder_60 by (subst z; lia).
      rewrite round_ofZ, !toStringInteger_ofZ. reflexivity.
  - unfold Binary64.formatMinutesToText, formatMinutesToText, ofNat. fold z.
    rewrite lessThan_ofZ. destruct (Z.ltb_spec z 60) as [H | H];
      [ reflexivity | ].
    now rewrite binary64_floor_div_60, floor_div_60 by lia.
Qed.

Lemma formatMinutesToText_of_integer_witness :
  formatMinutesToText (ofNat 135) =
    (if Z.of_nat 135 <? 60 then decimal (Z.of_nat 135) ++ "m"
     else if 0 <? Z.of_nat 135 mod 60
          then decimal (Z.of_nat 135 / 60) ++ "h " ++
               decimal (Z.of_nat 135 mod 60) ++ "m"
          else decimal (Z.of_nat 135 / 60) ++ "h") /\
  Binary64.formatMinutesToText (ofNat 135) = formatMinutesToText (ofNat 135) /\
  0 <= Z.of_nat 135 mod 60 < 60.
Proof.
  apply (formatMinutesToText_of_integer 135). reflexivity.
Defined.

(** 135 minutes read "2h 15m", 120 minutes "2h" and 45 minutes "45m". *)
Example formatMinutesToText_examples :
  Binary64.formatMinutesToText (ofNat 135) = "2h 15m" /\
  Binary64.formatMinutesToText (ofNat 120) = "2h" /\
  Binary64.formatMinutesToText (ofNat 45) = "45m".
Proof. repeat split; vm_compute; reflexivity. Qed.

Lemma isNegQ_false (x : Q) : (0 <= x)%Q -> isNegQ x = false.
Proof.
  unfold isNegQ, Qle. simpl. intro H. apply Z.ltb_ge. lia.
Qed.

Lemma lessThan_60 (q : Q) : lessThan (Fin q) (ofZ 60) = true <-> (q < 60)%Q.
Proof.
  simpl. unfold Qlt. simpl. apply Z.ltb_lt.
Qed.

(** X24. From half a minute before a full hour on, the minutes are
    rounded up to 60 and shown as such: a duration in the last half
    minute of the first hour reads "60m", and one in the last half minute
    of a later hour reads that hour followed by "60m". *)
Theorem formatMinutesToText_sixty_minutes
  (q : Q) (k : Z) (Hk : 0 <= k)
  (Hlow : (inject_Z (60 * k) + 59.5 <= q)%Q)
  (Hhigh : (q < inject_Z (60 * k) + 60)%Q) :
  formatMinutesToText (Fin q) =
    if k =? 0 then "60m" else decimal k ++ "h 60m".
Proof.
  rewrite inject_Z_mult in Hlow, Hhigh. change (inject_Z 60) with 60%Q in *.
  assert (Hk' : (0 <= inject_Z k)%Q) by (now rewrite <- (Zle_Qle 0)).
  unfold formatMinutesToText.
  destruct (Z.eqb_spec k 0) as [-> | Hne].
  - change (inject_Z 0) with 0%Q in *.
    assert (Hlt : lessThan (Fin q) (ofZ 60) = true) by (apply lessThan_60; lra).
    rewrite Hlt. cbn [round].
    replace (Qfloor (q + (1 # 2))) with 60
      by (symmetry; apply Qfloor_unique; change (inject_Z 60) with 60%Q; lra).
    reflexivity.
  - assert (Hk1 : (1 <= inject_Z k)%Q) by (rewrite <- (Zle_Qle 1); lia).
    assert (Hge : lessThan (Fin q) (ofZ 60) = false).
    { destruct (lessThan (Fin q) (ofZ 60)) eqn:E; [ | reflexivity ].
      apply lessThan_60 in E. lra. }
    rewrite Hge.
    assert (Hdiv : (q / inject_Z 60 == q * (1 # 60))%Q) by reflexivity.
    assert (Hfloor : Qfloor (q / inject_Z 60) = k).
    { apply Qfloor_unique; rewrite Hdiv; lra. }
    assert (Hdivide : div (Fin q) (ofZ 60) = Fin (q / inject_Z 60)) by reflexivity.
    assert (Hrem : remainder (Fin q) (ofZ 60)
                   = Fin (q - inject_Z 60 * inject_Z k)).
    { unfold remainder, ofZ. simpl isZeroQ. cbv iota. unfold truncate.
      rewrite isNegQ_false by (rewrite Hdiv; lra).
      now rewrite Hfloor. }
    rewrite Hdivide, Hrem. cbn [floor round]. rewrite Hfloor.
    replace (Qfloor (q - inject_Z 60 * inject_Z k + (1 # 2))) with 60
      by (symmetry; apply Qfloor_unique; change (inject_Z 60) with 60%Q; lra).
    rewrite !toStringInteger_ofZ. reflexivity.
Qed.

Lemma formatMinutesToText_sixty_minutes_witness :
  formatMinutesToText (Fin 119.5%Q) =
    if 1 =? 0 then "60m" else decimal 1 ++ "h 60m".
Proof.
  apply (formatMinutesToText_sixty_minutes 119.5%Q 1);
    [ lia | discriminate | reflexivity ].
Defined.

(** Two loads expected to take 119 and 120 minutes: the average load time
    the dashboard shows is "1h 60m". *)
Example average_load_time_sixty_minutes :
  let ls := parseTransportCsv ("1,,,,,,,,,,,89" ++ newline ++ "2,,,,,,,,,,,90") in
  map expectedTimeMinutes ls = [ofZ 119; ofZ 120] /\
  option_map (fun r => formatMinutesToText (Totals.avgExpectedTime (totals ls r)))
             (driverStats ls)
  = Some "1h 60m".
Proof. split; vm_compute; reflexivity. Qed.

End FormatMore.
